(** * The edge-triggered epoll echo server (Socket网络编程/epollet.c)

    A shallow embedding of [set_nonblocking] and [main] of epollet.c.
    The program is a sequence of system calls on file descriptors, so it
    is embedded in a small state monad over a [world]: the kernel state
    the program can observe or change (open descriptors, file status
    flags, the epoll interest list, errno), the program's own variables
    that outlive one handler (the local [event] of main, the table behind
    get_pending_data), a log of the calls made, and, for every call whose
    result the environment decides, a script of the results to come.

    The file has the model first (constants, data, system calls, the
    program), then the observations and example worlds the statements
    use, then the proofs: the read loop, orderly close (C8), how handlers
    stop, the event loop and the ends of a run (C10), hang-up events
    (C9), a round that fills the buffer (C3), the echo loop (C1), an echo
    that blocks half way (C2, C7), the writable branch (C6), the accept
    loop on the blocking listener (C5), termination of the loops, and
    containment.

    The next part covers what these leave out (X1 to X19):
    set_nonblocking by itself, the set-up of main, the failure paths of
    the read, echo and accept loops, what a round can send and how far
    it can read, the writable branch over several events, what the
    event loop leaves alone, the table of pending output over a whole
    run, and the first client of a server from the start of main.  The
    file ends with what a failure does to the process (C4). *)

From Stdlib Require Import ZArith List String Lia Bool.
From Stdlib Require Import Strings.Byte.
From stdpp Require Import base gmap list.
Import ListNotations.

Local Open Scope Z_scope.

(** ** Constants of the source and of the Linux headers it includes *)

Definition MAX_EVENTS : Z := 1024.
Definition BUFFER_SIZE : Z := 1024.

Definition EXIT_SUCCESS : Z := 0.
Definition EXIT_FAILURE : Z := 1.

(* <errno.h>: on Linux EWOULDBLOCK is defined as EAGAIN. *)
Definition EAGAIN : Z := 11.
Definition EWOULDBLOCK : Z := EAGAIN.
Definition EINTR : Z := 4.
Definition EBADF : Z := 9.
Definition ENOMEM : Z := 12.
Definition EPIPE : Z := 32.
Definition ECONNRESET : Z := 104.
Definition ECONNABORTED : Z := 103.

(* <fcntl.h> *)
Definition O_RDWR : Z := 2.
Definition O_NONBLOCK : Z := 2048.

(* <sys/epoll.h> *)
Definition EPOLLIN : Z := 1.
Definition EPOLLOUT : Z := 4.
Definition EPOLLERR : Z := 8.
Definition EPOLLHUP : Z := 16.
Definition EPOLLRDHUP : Z := 8192.
Definition EPOLLET : Z := 2147483648.

Definition EPOLL_CTL_ADD : Z := 1.
Definition EPOLL_CTL_DEL : Z := 2.
Definition EPOLL_CTL_MOD : Z := 3.

(** ** Data *)

(** struct epoll_event, with the [fd] member of its [data] union. *)
Record epoll_event := { events : Z; data_fd : Z }.

(** Modelled from the spec: the type [YourBuffer] is used by the
    writable branch of main but declared nowhere in the source.  Its
    three members are the ones that branch reads and writes: the
    ordered bytes still owed to the peer, the cursor of bytes already
    sent, and the total length. *)
Record YourBuffer := { buf : list byte; sent_len : Z; total_len : Z }.

(** What the environment answers to the next [read]: a segment of bytes
    waiting in the receive queue, an orderly close by the peer, or a
    failure with the errno it sets (EAGAIN for would-block). *)
Inductive read_outcome :=
| RdData (bs : list byte)
| RdEof
| RdFail (e : Z).

(** What the environment answers to the next [write]: room for that many
    bytes in the send queue (at least one), a failure that write
    returns with its errno, or the signal SIGPIPE raised inside write on
    a connection whose peer is gone.  Which of EPIPE returned and
    SIGPIPE raised a process sees depends on a disposition it inherits;
    the program never sets it (no signal, sigaction or MSG_NOSIGNAL), so
    with the default disposition the signal ends the process. *)
Inductive write_outcome :=
| WrRoom (room : positive)
| WrFail (e : Z)
| WrSigpipe.

(** What happens next on the listening socket: a connection arrives, the
    queue fails with an errno, or (AccFail EAGAIN) nothing is pending for
    the moment. *)
Inductive accept_outcome :=
| AccConn (fd : Z)
| AccFail (e : Z).

(** What the next [epoll_wait] returns: the ready events, or a failure. *)
Inductive wait_outcome :=
| WaitReady (evs : list epoll_event)
| WaitFail (e : Z).

(** The calls the program makes, in program order. *)
Inductive call :=
| c_read (fd count ret : Z)
| c_write (fd : Z) (accepted : list byte) (ret : Z)
| c_close (fd : Z)
| c_accept (ret : Z)
| c_fcntl_getfl (fd ret : Z)
| c_fcntl_setfl (fd flags ret : Z)
| c_epoll_ctl (op fd : Z) (ev : epoll_event) (ret : Z)
| c_epoll_wait (ret : Z)
| c_setup (name : string) (ret : Z)
| c_perror (msg : string)
| c_printf (fmt : string).

Record world := {
  (* results the environment will give, per system call *)
  rd_script : list read_outcome;
  wr_script : list write_outcome;
  acc_script : list accept_outcome;
  fcntl_script : list (option Z);
  ctl_script : list (option Z);
  (* kernel state *)
  errno : Z;
  k_open : gset Z;
  k_flags : gmap Z Z;
  k_interest : gmap Z epoll_event;
  (* program state *)
  event : epoll_event;
  pending : gmap Z YourBuffer;
  (* log *)
  trace : list call
}.

Definition set_rd_script (s : list read_outcome) (w : world) : world :=
  {| rd_script := s; wr_script := wr_script w; acc_script := acc_script w;
     fcntl_script := fcntl_script w; ctl_script := ctl_script w;
     errno := errno w; k_open := k_open w; k_flags := k_flags w;
     k_interest := k_interest w; event := event w; pending := pending w;
     trace := trace w |}.

Definition set_wr_script (s : list write_outcome) (w : world) : world :=
  {| rd_script := rd_script w; wr_script := s; acc_script := acc_script w;
     fcntl_script := fcntl_script w; ctl_script := ctl_script w;
     errno := errno w; k_open := k_open w; k_flags := k_flags w;
     k_interest := k_interest w; event := event w; pending := pending w;
     trace := trace w |}.

Definition set_acc_script (s : list accept_outcome) (w : world) : world :=
  {| rd_script := rd_script w; wr_script := wr_script w; acc_script := s;
     fcntl_script := fcntl_script w; ctl_script := ctl_script w;
     errno := errno w; k_open := k_open w; k_flags := k_flags w;
     k_interest := k_interest w; event := event w; pending := pending w;
     trace := trace w |}.

Definition set_fcntl_script (s : list (option Z)) (w : world) : world :=
  {| rd_script := rd_script w; wr_script := wr_script w;
     acc_script := acc_script w;
     fcntl_script := s; ctl_script := ctl_script w;
     errno := errno w; k_open := k_open w; k_flags := k_flags w;
     k_interest := k_interest w; event := event w; pending := pending w;
     trace := trace w |}.

Definition set_ctl_script (s : list (option Z)) (w : world) : world :=
  {| rd_script := rd_script w; wr_script := wr_script w;
     acc_script := acc_script w;
     fcntl_script := fcntl_script w; ctl_script := s;
     errno := errno w; k_open := k_open w; k_flags := k_flags w;
     k_interest := k_interest w; event := event w; pending := pending w;
     trace := trace w |}.

Definition set_errno (e : Z) (w : world) : world :=
  {| rd_script := rd_script w; wr_script := wr_script w;
     acc_script := acc_script w;
     fcntl_script := fcntl_script w; ctl_script := ctl_script w;
     errno := e; k_open := k_open w; k_flags := k_flags w;
     k_interest := k_interest w; event := event w; pending := pending w;
     trace := trace w |}.

Definition set_open (s : gset Z) (w : world) : world :=
  {| rd_script := rd_script w; wr_script := wr_script w;
     acc_script := acc_script w;
     fcntl_script := fcntl_script w; ctl_script := ctl_script w;
     errno := errno w; k_open := s; k_flags := k_flags w;
     k_interest := k_interest w; event := event w; pending := pending w;
     trace := trace w |}.

Definition set_flags (m : gmap Z Z) (w : world) : world :=
  {| rd_script := rd_script w; wr_script := wr_script w;
     acc_script := acc_script w;
     fcntl_script := fcntl_script w; ctl_script := ctl_script w;
     errno := errno w; k_open := k_open w; k_flags := m;
     k_interest := k_interest w; event := event w; pending := pending w;
     trace := trace w |}.

Definition set_interest (m : gmap Z epoll_event) (w : world) : world :=
  {| rd_script := rd_script w; wr_script := wr_script w;
     acc_script := acc_script w;
     fcntl_script := fcntl_script w; ctl_script := ctl_script w;
     errno := errno w; k_open := k_open w; k_flags := k_flags w;
     k_interest := m; event := event w; pending := pending w;
     trace := trace w |}.

Definition set_event (ev : epoll_event) (w : world) : world :=
  {| rd_script := rd_script w; wr_script := wr_script w;
     acc_script := acc_script w;
     fcntl_script := fcntl_script w; ctl_script := ctl_script w;
     errno := errno w; k_open := k_open w; k_flags := k_flags w;
     k_interest := k_interest w; event := ev; pending := pending w;
     trace := trace w |}.

Definition set_pending (m : gmap Z YourBuffer) (w : world) : world :=
  {| rd_script := rd_script w; wr_script := wr_script w;
     acc_script := acc_script w;
     fcntl_script := fcntl_script w; ctl_script := ctl_script w;
     errno := errno w; k_open := k_open w; k_flags := k_flags w;
     k_interest := k_interest w; event := event w; pending := m;
     trace := trace w |}.

Definition set_trace (tr : list call) (w : world) : world :=
  {| rd_script := rd_script w; wr_script := wr_script w;
     acc_script := acc_script w;
     fcntl_script := fcntl_script w; ctl_script := ctl_script w;
     errno := errno w; k_open := k_open w; k_flags := k_flags w;
     k_interest := k_interest w; event := event w; pending := pending w;
     trace := tr |}.

Definition log (c : call) (w : world) : world :=
  {| rd_script := rd_script w; wr_script := wr_script w;
     acc_script := acc_script w;
     fcntl_script := fcntl_script w; ctl_script := ctl_script w;
     errno := errno w; k_open := k_open w; k_flags := k_flags w;
     k_interest := k_interest w; event := event w; pending := pending w;
     trace := trace w ++ [c] |}.

(** ** The monad: state, plus the ways a run can stop *)

Inductive stop :=
| Exited (status : Z)   (* exit(status) was called *)
| Faulted               (* a record that does not exist was dereferenced *)
| Blocked               (* epoll_wait(-1) never returns *)
| OutOfFuel             (* a loop ran longer than the model allows *)
| BlockedInAccept       (* accept on a blocking socket never returns *)
| Killed.               (* SIGPIPE, left at its default, ended the process *)

Inductive res (A : Type) :=
| Ret (a : A) (w : world)
| Stop (s : stop) (w : world).
Arguments Ret {A} a w.
Arguments Stop {A} s w.

Definition M (A : Type) : Type := world -> res A.

Definition ret {A} (a : A) : M A := fun w => Ret a w.

Definition bind {A B} (m : M A) (k : A -> M B) : M B :=
  fun w => match m w with
           | Ret a w' => k a w'
           | Stop s w' => Stop s w'
           end.

Definition modify (f : world -> world) : M unit := fun w => Ret tt (f w).
Definition gets {A} (f : world -> A) : M A := fun w => Ret (f w) w.
Definition halt {A} (s : stop) : M A := fun w => Stop s w.

Declare Scope prog_scope.
Delimit Scope prog_scope with prog.
Notation "x <- m ;; k" := (bind m (fun x => k))
  (at level 100, m at next level, right associativity) : prog_scope.
Notation "m ;; k" := (bind m (fun _ => k))
  (at level 100, right associativity) : prog_scope.
Local Open Scope prog_scope.

Definition exit {A} (status : Z) : M A := halt (Exited status).
Definition perror (msg : string) : M unit := modify (log (c_perror msg)).
Definition printf (fmt : string) : M unit := modify (log (c_printf fmt)).

(** ** System calls

    Each call takes its result from the head of its script, changes the
    kernel state as the call does when it succeeds, and logs itself.  An
    exhausted script means that nothing further happens on the network:
    read and write would block (EAGAIN), accept would block or blocks,
    as the mode of the listening socket has it; fcntl and epoll_ctl
    succeed.  Failures that the kernel would decide by itself (EBADF,
    EEXIST, ENOENT) are not derived from the state: they are script
    entries like any other failure. *)

Definition would_block (e : Z) : bool := (e =? EAGAIN) || (e =? EWOULDBLOCK).

(** O_NONBLOCK is among the file status flags of [fd].  A descriptor
    without recorded flags is as socket and accept create it: blocking. *)
Definition nonblocking (fd : Z) (w : world) : bool :=
  negb (Z.land (default 0 (k_flags w !! fd)) O_NONBLOCK =? 0).

(** read(fd, buf, count): at most [count] bytes of the waiting segment
    are delivered; what does not fit stays in the receive queue. *)
Definition sys_read (fd count : Z) : M (Z * list byte) := fun w =>
  match rd_script w with
  | RdData bs :: rest =>
      let got := take (Z.to_nat count) bs in
      let left := drop (Z.to_nat count) bs in
      let n := Z.of_nat (length got) in
      Ret (n, got)
          (log (c_read fd count n)
             (set_rd_script
                (match left with [] => rest | _ :: _ => RdData left :: rest end)
                w))
  | RdEof :: rest =>
      Ret (0, []) (log (c_read fd count 0) (set_rd_script rest w))
  | RdFail e :: rest =>
      Ret (-1, [])
          (log (c_read fd count (-1)) (set_errno e (set_rd_script rest w)))
  | [] =>
      Ret (-1, []) (log (c_read fd count (-1)) (set_errno EAGAIN w))
  end.

(** write(fd, data, |data|): the kernel takes as many bytes as it has
    room for; a write of no bytes returns 0.  When the write raises
    SIGPIPE the call does not return: the process is gone. *)
Definition sys_write (fd : Z) (data : list byte) : M Z := fun w =>
  match data with
  | [] => Ret 0 (log (c_write fd [] 0) w)
  | _ :: _ =>
      match wr_script w with
      | WrRoom r :: rest =>
          let acc := take (Pos.to_nat r) data in
          let n := Z.of_nat (length acc) in
          Ret n (log (c_write fd acc n) (set_wr_script rest w))
      | WrFail e :: rest =>
          Ret (-1)
              (log (c_write fd [] (-1)) (set_errno e (set_wr_script rest w)))
      | WrSigpipe :: _ => Stop Killed w
      | [] =>
          Ret (-1) (log (c_write fd [] (-1)) (set_errno EAGAIN w))
      end
  end.

(** close(fd): the descriptor is released; the kernel drops a closed
    descriptor from every epoll interest list by itself (the program
    never duplicates a connection's descriptor). *)
Definition sys_close (fd : Z) : M unit :=
  modify (fun w =>
    log (c_close fd)
      (set_interest (delete fd (k_interest w))
         (set_flags (delete fd (k_flags w))
            (set_open (k_open w ∖ {[fd]}) w)))).

(** What a blocking accept sees of the queue: it waits through the
    moments at which nothing is pending, until a connection arrives or
    the queue fails. *)
Fixpoint arrivals (s : list accept_outcome) : list accept_outcome :=
  match s with
  | AccFail e :: rest => if would_block e then arrivals rest else s
  | _ => s
  end.

(** accept(listen_fd, ...).  On a non-blocking socket with nothing
    pending the call returns -1 with EAGAIN; on a blocking socket it
    waits, and when nothing arrives any more it never returns. *)
Definition sys_accept (listen_fd : Z) : M Z := fun w =>
  let nb := nonblocking listen_fd w in
  match (if nb then acc_script w else arrivals (acc_script w)) with
  | AccConn fd :: rest =>
      Ret fd
          (log (c_accept fd)
             (set_flags (<[fd := O_RDWR]> (k_flags w))
                (set_open ({[fd]} ∪ k_open w) (set_acc_script rest w))))
  | AccFail e :: rest =>
      Ret (-1) (log (c_accept (-1)) (set_errno e (set_acc_script rest w)))
  | [] =>
      if nb then Ret (-1) (log (c_accept (-1)) (set_errno EAGAIN w))
      else Stop BlockedInAccept w
  end.

(** fcntl(fd, F_GETFL, 0) *)
Definition sys_fcntl_getfl (fd : Z) : M Z := fun w =>
  match fcntl_script w with
  | Some e :: rest =>
      Ret (-1)
          (log (c_fcntl_getfl fd (-1)) (set_errno e (set_fcntl_script rest w)))
  | o =>
      let flags := default 0 (k_flags w !! fd) in
      Ret flags (log (c_fcntl_getfl fd flags) (set_fcntl_script (tail o) w))
  end.

(** fcntl(fd, F_SETFL, flags) *)
Definition sys_fcntl_setfl (fd flags : Z) : M Z := fun w =>
  match fcntl_script w with
  | Some e :: rest =>
      Ret (-1)
          (log (c_fcntl_setfl fd flags (-1))
             (set_errno e (set_fcntl_script rest w)))
  | o =>
      Ret 0
          (log (c_fcntl_setfl fd flags 0)
             (set_flags (<[fd := flags]> (k_flags w))
                (set_fcntl_script (tail o) w)))
  end.

(** epoll_ctl(epoll_fd, op, fd, &ev) *)
Definition sys_epoll_ctl (epoll_fd op fd : Z) (ev : epoll_event) : M Z :=
  fun w =>
  match ctl_script w with
  | Some e :: rest =>
      Ret (-1)
          (log (c_epoll_ctl op fd ev (-1)) (set_errno e (set_ctl_script rest w)))
  | o =>
      let reg :=
        if op =? EPOLL_CTL_DEL then delete fd (k_interest w)
        else <[fd := ev]> (k_interest w) in
      Ret 0
          (log (c_epoll_ctl op fd ev 0)
             (set_interest reg (set_ctl_script (tail o) w)))
  end.

(** epoll_wait(epoll_fd, events, MAX_EVENTS, -1), given what the kernel
    reports this time: at most MAX_EVENTS entries are filled in. *)
Definition sys_epoll_wait (o : wait_outcome) : M (Z * list epoll_event) :=
  fun w =>
  match o with
  | WaitReady evs =>
      let out := take (Z.to_nat MAX_EVENTS) evs in
      let n := Z.of_nat (length out) in
      Ret (n, out) (log (c_epoll_wait n) w)
  | WaitFail e =>
      Ret (-1, []) (log (c_epoll_wait (-1)) (set_errno e w))
  end.

(** The bytes the kernel accepted for the peer of [fd], in order: what
    the client at the other end receives. *)
Fixpoint delivered (fd : Z) (tr : list call) : list byte :=
  match tr with
  | [] => []
  | c_write fd' acc _ :: tr' =>
      if fd' =? fd then acc ++ delivered fd tr' else delivered fd tr'
  | _ :: tr' => delivered fd tr'
  end.

Definition is_write (c : call) : bool :=
  match c with c_write _ _ _ => true | _ => false end.

Definition is_read (c : call) : bool :=
  match c with c_read _ _ _ => true | _ => false end.

(** ** The program *)

(** [buffer + off], [count] bytes of it. *)
Definition slice (buffer : list byte) (off count : Z) : list byte :=
  take (Z.to_nat count) (drop (Z.to_nat off) buffer).

(** static void set_nonblocking(int fd) *)
Definition set_nonblocking (fd : Z) : M unit :=
  flags <- sys_fcntl_getfl fd ;;
  (if flags =? -1
   then perror "fcntl F_GETFL" ;; exit EXIT_FAILURE
   else ret tt) ;;
  r <- sys_fcntl_setfl fd (Z.lor flags O_NONBLOCK) ;;
  if r =? -1
  then perror "fcntl F_SETFL" ;; exit EXIT_FAILURE
  else ret tt.

(** The accept loop of main, lines 125-145: returns the [conn_fd] that
    ended it. *)
Fixpoint accept_loop (fuel : nat) (listen_fd epoll_fd : Z) : M Z :=
  match fuel with
  | O => halt OutOfFuel
  | S fuel' =>
      conn_fd <- sys_accept listen_fd ;;
      if 0 <? conn_fd then
        printf "New connection from %s:%d\n" ;;
        set_nonblocking conn_fd ;;
        modify (set_event {| events := Z.lor (Z.lor EPOLLIN EPOLLET) EPOLLRDHUP;
                             data_fd := conn_fd |}) ;;
        ev <- gets event ;;
        r <- sys_epoll_ctl epoll_fd EPOLL_CTL_ADD conn_fd ev ;;
        (if r =? -1
         then perror "epoll_ctl EPOLL_CTL_ADD" ;; sys_close conn_fd
         else ret tt) ;;
        accept_loop fuel' listen_fd epoll_fd
      else ret conn_fd
  end.

(** Step 6 of main, lines 118-155.  Every turn of the loop takes at
    least one entry of the accept script, and an empty script ends it,
    so one more turn than the script has entries is enough. *)
Definition handle_listener (listen_fd epoll_fd : Z) : M unit :=
  fuel <- gets (fun w => S (length (acc_script w))) ;;
  conn_fd <- accept_loop fuel listen_fd epoll_fd ;;
  if conn_fd =? -1 then
    e <- gets errno ;;
    if negb (e =? EAGAIN) && negb (e =? EWOULDBLOCK)
    then perror "accept"
    else ret tt
  else ret tt.

(** The echo loop, lines 205-232.  [buffer] holds the [total_read] bytes
    read in this round.  A successful write of a non-empty range sends
    at least one byte, so [total_read - total_sent] turns are enough. *)
Fixpoint echo_loop (fuel : nat) (epoll_fd fd : Z) (buffer : list byte)
    (total_read total_sent : Z) : M unit :=
  if total_sent <? total_read then
    match fuel with
    | O => halt OutOfFuel
    | S fuel' =>
        sent <- sys_write fd (slice buffer total_sent (total_read - total_sent)) ;;
        if sent =? -1 then
          e <- gets errno ;;
          if would_block e then
            modify (set_event
                      {| events := Z.lor (Z.lor EPOLLOUT EPOLLET) EPOLLRDHUP;
                         data_fd := fd |}) ;;
            ev <- gets event ;;
            r <- sys_epoll_ctl epoll_fd EPOLL_CTL_MOD fd ev ;;
            if r =? -1
            then perror "epoll_ctl EPOLL_CTL_MOD" ;; sys_close fd
            else ret tt
          else
            perror "write" ;; sys_close fd
        else
          echo_loop fuel' epoll_fd fd buffer total_read (total_sent + sent)
    end
  else ret tt.

(** The read loop, lines 175-242.  [buffer] is the part of the array
    filled so far, [buffer[0 .. total_read)]; a read stores its bytes at
    [buffer + total_read].  Every turn that does not leave the loop adds
    at least one byte, and the loop leaves at BUFFER_SIZE bytes. *)
Fixpoint read_loop (fuel : nat) (epoll_fd fd : Z) (buffer : list byte)
    (total_read : Z) : M unit :=
  match fuel with
  | O => halt OutOfFuel
  | S fuel' =>
      r <- sys_read fd (BUFFER_SIZE - total_read) ;;
      let n := fst r in
      if 0 <? n then
        let buffer := buffer ++ snd r in
        let total_read := total_read + n in
        if total_read =? BUFFER_SIZE then ret tt
        else read_loop fuel' epoll_fd fd buffer total_read
      else if n =? 0 then
        printf "Client closed connection\n" ;;
        sys_close fd
      else
        e <- gets errno ;;
        if would_block e then
          if 0 <? total_read then
            printf "Received %zd bytes: %.*s\n" ;;
            echo_loop (Z.to_nat total_read) epoll_fd fd buffer total_read 0
          else ret tt
        else
          perror "read" ;; sys_close fd
  end.

(** Step 7.2 of main, lines 168-243. *)
Definition handle_readable (epoll_fd fd : Z) : M unit :=
  read_loop (Z.to_nat BUFFER_SIZE) epoll_fd fd [] 0.

(** Modelled from the spec: get_pending_data and free_pending_data are
    called by the writable branch but defined nowhere in the source.
    The table they look into is the [pending] field of the world, keyed
    by descriptor; looking up a descriptor that has no record yields no
    object to dereference. *)
Definition get_pending_data (fd : Z) : M YourBuffer := fun w =>
  match pending w !! fd with
  | Some pd => Ret pd w
  | None => Stop Faulted w
  end.

Definition free_pending_data (fd : Z) : M unit :=
  modify (fun w => set_pending (delete fd (pending w)) w).

(** Step 7.3 of main, lines 245-272.  [pending_data] points into the
    table, so the assignment to [sent_len] updates the record there.
    The branch sets [event.events] only: [event.data.fd] keeps the value
    of the last assignment made anywhere in main.  The cursor of a
    record is taken to lie within it ([0 <= sent_len <= total_len] and
    [total_len] at most the length of [buf]), as the spec's cursor does:
    outside that range the count [total_len - sent_len] of the C
    expression depends on the types of the undeclared struct (as a
    size_t it wraps), and the statements about this branch assume the
    range. *)
Definition handle_writable (epoll_fd fd : Z) : M unit :=
  pd <- get_pending_data fd ;;
  sent <- sys_write fd
            (slice (buf pd) (sent_len pd) (total_len pd - sent_len pd)) ;;
  if 0 <? sent then
    let pd' := {| buf := buf pd; sent_len := sent_len pd + sent;
                  total_len := total_len pd |} in
    modify (fun w => set_pending (<[fd := pd']> (pending w)) w) ;;
    if sent_len pd' =? total_len pd' then
      free_pending_data fd ;;
      modify (fun w =>
        set_event {| events := Z.lor (Z.lor EPOLLIN EPOLLET) EPOLLRDHUP;
                     data_fd := data_fd (event w) |} w) ;;
      ev <- gets event ;;
      _ <- sys_epoll_ctl epoll_fd EPOLL_CTL_MOD fd ev ;;
      ret tt
    else ret tt
  else
    e <- gets errno ;;
    if (sent =? -1) && negb (e =? EAGAIN) then
      sys_close fd ;;
      free_pending_data fd
    else ret tt.

(** The body of the for loop of main, lines 117-273, for [events[i]]. *)
Definition handle_event (listen_fd epoll_fd : Z) (ev : epoll_event) : M unit :=
  if data_fd ev =? listen_fd then
    handle_listener listen_fd epoll_fd
  else if negb (Z.land (events ev) (Z.lor EPOLLRDHUP EPOLLHUP) =? 0) then
    printf "Client disconnected\n" ;;
    sys_close (data_fd ev)
  else if negb (Z.land (events ev) EPOLLIN =? 0) then
    handle_readable epoll_fd (data_fd ev)
  else if negb (Z.land (events ev) EPOLLOUT =? 0) then
    handle_writable epoll_fd (data_fd ev)
  else ret tt.

(** for (int i = 0; i < nfds; i++) *)
Fixpoint for_each_event (listen_fd epoll_fd : Z) (evs : list epoll_event)
    : M unit :=
  match evs with
  | [] => ret tt
  | ev :: evs' =>
      handle_event listen_fd epoll_fd ev ;;
      for_each_event listen_fd epoll_fd evs'
  end.

(** The event loop, lines 106-275, over what the successive calls of
    epoll_wait report.  When the kernel has nothing more to report the
    call, made with timeout -1, does not return. *)
Fixpoint event_loop (listen_fd epoll_fd : Z) (waits : list wait_outcome)
    : M unit :=
  match waits with
  | [] => halt Blocked
  | o :: waits' =>
      r <- sys_epoll_wait o ;;
      if fst r =? -1 then
        perror "epoll_wait"
      else
        for_each_event listen_fd epoll_fd (snd r) ;;
        event_loop listen_fd epoll_fd waits'
  end.

(** What the set-up calls of main return: socket, setsockopt, bind,
    listen and epoll_create1 (logged under their names). *)
Record boot := {
  socket_ret : Z;
  setsockopt_ret : Z;
  bind_ret : Z;
  listen_ret : Z;
  epoll_create1_ret : Z
}.

Definition sys_setup (name : string) (r : Z) : M Z := fun w =>
  Ret r (log (c_setup name r) w).

(** The set-up of main, lines 34-102: yields [listen_fd] and [epoll_fd]. *)
Definition setup (argc : Z) (b : boot) : M (Z * Z) :=
  (if negb (argc =? 2)
   then printf "Usage: %s <port>\n" ;; exit EXIT_FAILURE
   else ret tt) ;;
  listen_fd <- sys_setup "socket" (socket_ret b) ;;
  (if listen_fd =? -1
   then perror "socket" ;; exit EXIT_FAILURE
   else modify (fun w => set_open ({[listen_fd]} ∪ k_open w) w)) ;;
  r <- sys_setup "setsockopt" (setsockopt_ret b) ;;
  (if r =? -1
   then perror "setsockopt" ;; sys_close listen_fd ;; exit EXIT_FAILURE
   else ret tt) ;;
  r <- sys_setup "bind" (bind_ret b) ;;
  (if r =? -1
   then perror "bind" ;; sys_close listen_fd ;; exit EXIT_FAILURE
   else ret tt) ;;
  r <- sys_setup "listen" (listen_ret b) ;;
  (if r =? -1
   then perror "listen" ;; sys_close listen_fd ;; exit EXIT_FAILURE
   else ret tt) ;;
  printf "Server listening on port %d...\n" ;;
  epoll_fd <- sys_setup "epoll_create1" (epoll_create1_ret b) ;;
  (if epoll_fd =? -1
   then perror "epoll_create1" ;; sys_close listen_fd ;; exit EXIT_FAILURE
   else modify (fun w => set_open ({[epoll_fd]} ∪ k_open w) w)) ;;
  modify (set_event {| events := Z.lor EPOLLIN EPOLLET; data_fd := listen_fd |}) ;;
  ev <- gets event ;;
  r <- sys_epoll_ctl epoll_fd EPOLL_CTL_ADD listen_fd ev ;;
  (if r =? -1
   then perror "epoll_ctl EPOLL_CTL_ADD" ;;
        sys_close listen_fd ;; sys_close epoll_fd ;; exit EXIT_FAILURE
   else ret tt) ;;
  ret (listen_fd, epoll_fd).

(** int main(int argc, char *argv[]): the set-up, the event loop, and
    lines 277-279 after it. *)
Definition main (argc : Z) (b : boot) (waits : list wait_outcome) : M Z :=
  fds <- setup argc b ;;
  event_loop (fst fds) (snd fds) waits ;;
  sys_close (fst fds) ;;
  sys_close (snd fds) ;;
  ret 0.

(** ** Observations on worlds, traces and results *)

(** The interest of a connection that is being read (line 137, and line
    261 after a drain), and of one that is being drained (line 215). *)
Definition reading_events : Z := Z.lor (Z.lor EPOLLIN EPOLLET) EPOLLRDHUP.
Definition draining_events : Z := Z.lor (Z.lor EPOLLOUT EPOLLET) EPOLLRDHUP.

(** The world of a result, and the status a run ends with, if it ends. *)
Definition world_of {A} (r : res A) : world :=
  match r with Ret _ w => w | Stop _ w => w end.

Definition exit_status (r : res Z) : option Z :=
  match r with
  | Ret status _ => Some status
  | Stop (Exited status) _ => Some status
  | Stop _ _ => None
  end.

(** The process is still serving: it waits in epoll_wait for the next
    event. *)
Definition keeps_serving (r : res Z) : Prop :=
  match r with Stop Blocked _ => True | _ => False end.

(** The input waiting at the head of the receive queue, not yet read. *)
Definition buffered_input (w : world) : list byte :=
  match rd_script w with RdData bs :: _ => bs | _ => [] end.

(** The bytes that the reads logged in a trace have taken from the
    receive queues. *)
Fixpoint bytes_read (tr : list call) : Z :=
  match tr with
  | [] => 0
  | c_read _ _ ret :: tr' => Z.max 0 ret + bytes_read tr'
  | _ :: tr' => bytes_read tr'
  end.

(** The room that a run of successful writes offers in total. *)
Fixpoint room_total (rooms : list positive) : Z :=
  match rooms with
  | [] => 0
  | r :: rooms' => Z.pos r + room_total rooms'
  end.

Definition is_close (c : call) : bool :=
  match c with c_close _ => true | _ => false end.

Definition is_accept (c : call) : bool :=
  match c with c_accept _ => true | _ => false end.

(** [fd] is an open connection, in non-blocking mode, registered with
    the epoll instance for [reading_events] under its own descriptor. *)
Definition registered (fd : Z) (w : world) : Prop :=
  fd ∈ k_open w /\
  k_interest w !! fd = Some {| events := reading_events; data_fd := fd |} /\
  exists flags, k_flags w !! fd = Some flags /\
                Z.land flags O_NONBLOCK = O_NONBLOCK.

(** What the kernel holds about a descriptor: whether it is open, its
    registration with the epoll instance, its file status flags. *)
Definition footprint (fd : Z) (w : world)
    : bool * option epoll_event * option Z :=
  (bool_decide (fd ∈ k_open w), k_interest w !! fd, k_flags w !! fd).

(** The descriptors that the handling of [ev] is about: the descriptor
    the event names or, for a notification on the listener, those that
    accept is about to return. *)
Definition concerns (listen_fd : Z) (ev : epoll_event) (w : world) (fd : Z)
    : bool :=
  if data_fd ev =? listen_fd then
    existsb (fun o => match o with AccConn c => c =? fd | AccFail _ => false end)
            (acc_script w)
  else data_fd ev =? fd.

(** No call of the script fails. *)
Definition all_succeed (script : list (option Z)) : Prop :=
  Forall (fun o => o = None) script.

(** A step of the set-up fails: the argument count is wrong, one of the
    five calls of [boot] returns -1, or the registration of the listener,
    the first epoll_ctl of the run, fails. *)
Definition setup_failed (argc : Z) (b : boot) (w : world) : Prop :=
  argc <> 2 \/ socket_ret b = -1 \/ setsockopt_ret b = -1 \/
  bind_ret b = -1 \/ listen_ret b = -1 \/ epoll_create1_ret b = -1 \/
  (exists e rest, ctl_script w = Some e :: rest).

(** The last thing the process reported is that fcntl failed. *)
Definition fcntl_failed (w : world) : Prop :=
  last (trace w) = Some (c_perror "fcntl F_GETFL") \/
  last (trace w) = Some (c_perror "fcntl F_SETFL").

(** ** Properties of computations *)

(** [stops_in P m]: whenever [m] stops instead of returning, it does so
    for a reason and in a world that satisfy [P]. *)
Definition stops_in {A} (P : stop -> world -> Prop) (m : M A) : Prop :=
  forall w s w', m w = Stop s w' -> P s w'.

(** What can stop the handling of an event: never the wait of the
    event loop, and an exit only with EXIT_FAILURE after a failed
    fcntl. *)
Definition handler_stop (s : stop) (w : world) : Prop :=
  match s with
  | Exited status => status = EXIT_FAILURE /\ fcntl_failed w
  | Blocked => False
  | Faulted | OutOfFuel | BlockedInAccept | Killed => True
  end.

(** A stop that is not the model running out of fuel. *)
Definition no_spin (s : stop) (w : world) : Prop := s <> OutOfFuel.

(** [m] started in [w] does not run out of fuel. *)
Definition never_spins {A} (m : M A) (w : world) : Prop :=
  forall w', m w <> Stop OutOfFuel w'.

(** [keeps f m]: running [m] leaves the component [f] of the world as
    it was, however [m] ends. *)
Definition keeps {A B} (f : world -> B) (m : M A) : Prop :=
  forall w, f (world_of (m w)) = f w.

(** The statement that a connection is closed only once its buffered
    input has been flushed: if the handling of [ev] closes the
    connection, no input is left unread and what was buffered has gone
    back to the peer. *)
Definition flushed_before_close (listen_fd epoll_fd : Z) (ev : epoll_event)
    (w : world) : Prop :=
  let w' := world_of (handle_event listen_fd epoll_fd ev w) in
  data_fd ev ∉ k_open w' ->
  buffered_input w' = [] /\
  delivered (data_fd ev) (trace w') =
    delivered (data_fd ev) (trace w) ++ buffered_input w.

(** ** Worlds and events of the examples *)

(** A process in which nothing has happened yet and whose network is
    silent. *)
Definition idle_world : world :=
  {| rd_script := []; wr_script := []; acc_script := [];
     fcntl_script := []; ctl_script := [];
     errno := 0; k_open := ∅; k_flags := ∅; k_interest := ∅;
     event := {| events := 0; data_fd := 0 |}; pending := ∅; trace := [] |}.

(** [fd] as the accept loop leaves an accepted connection: open,
    non-blocking, registered for reading. *)
Definition connected (fd : Z) (w : world) : world :=
  set_interest
    (<[fd := {| events := reading_events; data_fd := fd |}]> (k_interest w))
    (set_flags (<[fd := Z.lor O_RDWR O_NONBLOCK]> (k_flags w))
       (set_open ({[fd]} ∪ k_open w) w)).

(** A set-up in which every call succeeds: the listener is descriptor 3
    and the epoll instance descriptor 4. *)
Definition boot_ok : boot :=
  {| socket_ret := 3; setsockopt_ret := 0; bind_ret := 0; listen_ret := 0;
     epoll_create1_ret := 4 |}.

(** One notification on the listener (descriptor 3 in [boot_ok]). *)
Definition listener_ready : epoll_event :=
  {| events := EPOLLIN; data_fd := 3 |}.

Definition readable_event (fd : Z) : epoll_event :=
  {| events := EPOLLIN; data_fd := fd |}.

Definition writable_event (fd : Z) : epoll_event :=
  {| events := EPOLLOUT; data_fd := fd |}.

(** One connection is pending, and the fcntl on it will fail. *)
Definition fcntl_fails_world : world :=
  set_fcntl_script [Some EBADF] (set_acc_script [AccConn 5] idle_world).

(** Fifty connections are pending on the listener: descriptors 5 .. 54. *)
Definition fifty_pending : world :=
  set_acc_script (map AccConn (map Z.of_nat (seq 5 50)) ++ [AccFail EAGAIN])
    idle_world.

(** A connection whose peer has sent two bytes and then closed: the
    kernel reports EPOLLIN together with EPOLLRDHUP. *)
Definition hangup_world : world :=
  set_rd_script [RdData ["h"; "i"]%byte; RdEof] (connected 5 idle_world).

Definition hangup_event : epoll_event :=
  {| events := Z.lor EPOLLIN EPOLLRDHUP; data_fd := 5 |}.

(** A client has sent exactly BUFFER_SIZE bytes and pauses; the send
    queue of the server has room for all of them. *)
Definition bound_world : world :=
  set_rd_script [RdData (repeat "a"%byte 1024); RdFail EAGAIN]
    (set_wr_script [WrRoom 2048] (connected 5 idle_world)).

(** A client has sent a burst of 2000 bytes. *)
Definition burst_world : world :=
  set_rd_script [RdData (repeat "a"%byte 2000); RdFail EAGAIN]
    (set_wr_script [WrRoom 2048] (connected 5 idle_world)).

(** A client has sent two bytes; the send queue of the server takes one
    byte and is full. *)
Definition partial_world : world :=
  set_rd_script [RdData ["h"; "i"]%byte; RdFail EAGAIN]
    (set_wr_script [WrRoom 1; WrFail EAGAIN] (connected 5 idle_world)).

(** A process from its start: one connection arrives and the next
    accept fails with ECONNABORTED, which ends the listener's round;
    the connection sends two bytes, and the send queue takes only one
    of them. *)
Definition draining_start : world :=
  set_acc_script [AccConn 5; AccFail ECONNABORTED]
    (set_rd_script [RdData ["h"; "i"]%byte; RdFail EAGAIN]
       (set_wr_script [WrRoom 1; WrFail EAGAIN] idle_world)).


(** ** Observations used by the further properties *)

(** The bytes waiting in the receive queue before anything else happens
    on it: the data segments at the head of the read script. *)
Fixpoint queued (s : list read_outcome) : list byte :=
  match s with
  | RdData bs :: s' => bs ++ queued s'
  | _ => []
  end.

(** All the events that the kernel reports over the calls of epoll_wait. *)
Fixpoint events_of (waits : list wait_outcome) : list epoll_event :=
  match waits with
  | [] => []
  | WaitReady evs :: waits' => evs ++ events_of waits'
  | WaitFail _ :: waits' => events_of waits'
  end.

(** accept never returns [fd]: the kernel hands out descriptors that are
    not in use. *)
Definition never_accepted (fd : Z) (w : world) : Prop :=
  forall c, In (AccConn c) (acc_script w) -> c <> fd.

(** The kernel holds nothing about [fd]: it is not open, not registered
    and has no file status flags. *)
Definition unused (fd : Z) (w : world) : Prop :=
  footprint fd w = (false, None, None).

(** The descriptors that socket and epoll_create1 are about to return
    are not in use, as the kernel guarantees of a descriptor it hands
    out. *)
Definition fresh_for_setup (b : boot) (w : world) : Prop :=
  unused (socket_ret b) w /\ unused (epoll_create1_ret b) w.

(** A call of fcntl. *)
Definition is_fcntl (c : call) : bool :=
  match c with
  | c_fcntl_getfl _ _ | c_fcntl_setfl _ _ _ => true
  | _ => false
  end.

(** A connection that owes three bytes; the send queue takes them one,
    one and five at a time, on three events. *)
Definition slow_drain_world : world :=
  set_pending {[ 5 := {| buf := ["a"; "b"; "c"]%byte; sent_len := 0;
                         total_len := 3 |} ]}
    (set_wr_script [WrRoom 1; WrRoom 1; WrRoom 5]
       (set_event {| events := reading_events; data_fd := 9 |}
          (set_interest {[ 5 := {| events := draining_events; data_fd := 5 |} ]}
             (set_open {[ 5 ]} idle_world)))).

(** Connection 5 has sent three bytes; the send queue takes two of
    them, and the next write fails with EPIPE. *)
Definition broken_pipe_world : world :=
  set_rd_script [RdData ["h"; "e"; "y"]%byte; RdFail EAGAIN]
    (set_wr_script [WrRoom 2; WrFail EPIPE] (connected 5 idle_world)).

(** The same input; the send queue is full after two bytes, and the
    change of interest fails. *)
Definition full_queue_world : world :=
  set_rd_script [RdData ["h"; "e"; "y"]%byte; RdFail EAGAIN]
    (set_wr_script [WrRoom 2; WrFail EAGAIN]
       (set_ctl_script [Some ENOMEM] (connected 5 idle_world))).

(** [adds P m]: however [m] ends, it has appended calls to the trace,
    and all of them satisfy [P]. *)
Definition adds {A} (P : call -> Prop) (m : M A) : Prop :=
  forall w, exists tr,
    trace (world_of (m w)) = trace w ++ tr /\ Forall P tr.

(** The reads of one round store into a buffer of BUFFER_SIZE bytes
    from offset [total] on: each asks for at least one byte and for no
    more than the room behind the bytes stored before it, and returns
    no more than it asked for. *)
Fixpoint reads_fit (total : Z) (tr : list call) : Prop :=
  match tr with
  | [] => True
  | c_read _ count ret :: tr' =>
      0 < count /\ total + count <= BUFFER_SIZE /\ ret <= count /\
      reads_fit (total + Z.max 0 ret) tr'
  | _ :: tr' => reads_fit total tr'
  end.

(** Three connections are pending; the registration of the first one,
    descriptor 5, fails. *)
Definition registration_fails_world : world :=
  set_acc_script [AccConn 5; AccConn 6; AccConn 7; AccFail EAGAIN]
    (set_ctl_script [Some ENOMEM] idle_world).

(** One connection is accepted, then accept fails; another connection
    is pending behind the failure. *)
Definition accept_fails_world : world :=
  set_acc_script [AccConn 5; AccFail ECONNABORTED; AccConn 6] idle_world.

(** The connection of [slow_drain_world] when the peer is gone: the
    next write fails with EPIPE. *)
Definition peer_gone_world : world :=
  set_wr_script [WrFail EPIPE] slow_drain_world.

(** A connection whose record has been sent in full. *)
Definition settled_world : world :=
  set_pending {[ 5 := {| buf := ["a"]%byte; sent_len := 1; total_len := 1 |} ]}
    slow_drain_world.

(** [acc_suffix m]: [m] takes connections from the head of the accept
    queue and does nothing else to it. *)
Definition acc_suffix {A} (m : M A) : Prop :=
  forall w, exists k, acc_script (world_of (m w)) = drop k (acc_script w).

(** [preserves P m]: if [P] holds when [m] starts, it holds when [m]
    ends, however it ends. *)
Definition preserves {A} (P : world -> Prop) (m : M A) : Prop :=
  forall w, P w -> P (world_of (m w)).

(** The listener is registered, two connections are pending, and
    connection 9 is open and registered since an earlier round. *)
Definition busy_world : world :=
  set_acc_script [AccConn 5; AccConn 6; AccFail ECONNABORTED]
    (set_rd_script [RdData ["h"; "i"]%byte; RdFail ECONNRESET]
       (connected 9
          (set_interest {[ 3 := {| events := Z.lor EPOLLIN EPOLLET; data_fd := 3 |} ]}
             (set_open {[ 3; 4 ]} idle_world)))).


(** The tests of lines 118, 160, 168 and 245 send the event to the
    writable branch. *)
Definition writable_branch (listen_fd : Z) (ev : epoll_event) : bool :=
  negb (data_fd ev =? listen_fd) &&
  (Z.land (events ev) (Z.lor EPOLLRDHUP EPOLLHUP) =? 0) &&
  (Z.land (events ev) EPOLLIN =? 0) &&
  negb (Z.land (events ev) EPOLLOUT =? 0).

(** The cursor of a record lies within its bytes. *)
Definition cursor_in_range (pd : YourBuffer) : Prop :=
  0 <= sent_len pd <= total_len pd /\
  total_len pd <= Z.of_nat (length (buf pd)).

(** What can stop the handling of an event on a connection once its
    record, if it needs one, is found: a write that raises SIGPIPE, the
    next outcome of the script at that point. *)
Definition conn_stop (s : stop) (w : world) : Prop :=
  match s with
  | Killed => In WrSigpipe (wr_script w)
  | OutOfFuel => True
  | _ => False
  end.

(** What can stop the handling of an event on the listener: the exit
    of set_nonblocking, or an accept that does not return. *)
Definition listener_stop (s : stop) (w : world) : Prop :=
  match s with
  | Exited status => status = EXIT_FAILURE /\ fcntl_failed w
  | BlockedInAccept | OutOfFuel => True
  | _ => False
  end.


(** ** What accept returns *)

Lemma lookup_in {A} (l : list A) k x : l !! k = Some x -> In x l.
Proof.
  revert k. induction l as [|y l IH]; intros [|k] H; try discriminate H.
  - injection H as ->. by left.
  - right. exact (IH k H).
Qed.

Lemma arrivals_suffix s : exists k, arrivals s = drop k s.
Proof.
  induction s as [|[c|e] s IH]; [by exists 0%nat | by exists 0%nat |].
  cbn [arrivals]. destruct (would_block e); [|by exists 0%nat].
  destruct IH as [k Hk]. exists (S k). exact Hk.
Qed.

Lemma arrivals_conn c s : arrivals (AccConn c :: s) = AccConn c :: s.
Proof. reflexivity. Qed.

Lemma arrivals_error e s :
  would_block e = false -> arrivals (AccFail e :: s) = AccFail e :: s.
Proof. intros He. cbn [arrivals]. by rewrite He. Qed.

(** A connection at the head of the queue is returned, whatever the
    mode of the listening socket. *)
Lemma sys_accept_conn listen_fd w c s :
  acc_script w = AccConn c :: s ->
  sys_accept listen_fd w =
  Ret c (log (c_accept c)
           (set_flags (<[c := O_RDWR]> (k_flags w))
              (set_open ({[c]} ∪ k_open w) (set_acc_script s w)))).
Proof.
  intros Hs. unfold sys_accept. rewrite Hs, arrivals_conn.
  by destruct (nonblocking listen_fd w).
Qed.

(** So is a failure other than EAGAIN. *)
Lemma sys_accept_error listen_fd w e s :
  acc_script w = AccFail e :: s ->
  would_block e = false ->
  sys_accept listen_fd w =
  Ret (-1) (log (c_accept (-1)) (set_errno e (set_acc_script s w))).
Proof.
  intros Hs He. unfold sys_accept. rewrite Hs, (arrivals_error e s He).
  by destruct (nonblocking listen_fd w).
Qed.

(** On a blocking socket the call does not return once nothing arrives
    any more. *)
Lemma sys_accept_blocks listen_fd w :
  nonblocking listen_fd w = false ->
  arrivals (acc_script w) = [] ->
  sys_accept listen_fd w = Stop BlockedInAccept w.
Proof. intros Hnb Hs. unfold sys_accept. by rewrite Hnb, Hs. Qed.

(** The four ways the call can end. *)
Lemma sys_accept_result listen_fd w :
  (exists c k,
     sys_accept listen_fd w =
     Ret c (log (c_accept c)
              (set_flags (<[c := O_RDWR]> (k_flags w))
                 (set_open ({[c]} ∪ k_open w)
                    (set_acc_script (drop (S k) (acc_script w)) w)))) /\
     acc_script w !! k = Some (AccConn c)) \/
  (exists e k,
     sys_accept listen_fd w =
     Ret (-1) (log (c_accept (-1))
                 (set_errno e
                    (set_acc_script (drop (S k) (acc_script w)) w)))) \/
  sys_accept listen_fd w =
    Ret (-1) (log (c_accept (-1)) (set_errno EAGAIN w)) \/
  sys_accept listen_fd w = Stop BlockedInAccept w.
Proof.
  unfold sys_accept. destruct (nonblocking listen_fd w).
  - destruct (acc_script w) as [|[c|e] rest]; [auto | left | right; left].
    + by exists c, 0%nat.
    + by exists e, 0%nat.
  - destruct (arrivals_suffix (acc_script w)) as [k Hk]. rewrite Hk.
    destruct (drop k (acc_script w)) as [|[c|e] rest] eqn:Ed; [auto | left | right; left].
    + exists c, k. split.
      * do 5 f_equal. rewrite <- (Nat.add_1_r k), <- drop_drop, Ed. reflexivity.
      * rewrite <- (Nat.add_0_r k), <- lookup_drop, Ed. reflexivity.
    + exists e, k.
      do 4 f_equal. rewrite <- (Nat.add_1_r k), <- drop_drop, Ed. reflexivity.
Qed.

(** ** Facts about traces *)

Lemma delivered_app fd tr1 tr2 :
  delivered fd (tr1 ++ tr2) = delivered fd tr1 ++ delivered fd tr2.
Proof.
  induction tr1 as [|c tr1 IH]; [reflexivity|].
  destruct c; simpl; try apply IH.
  destruct (_ =? _); [rewrite IH; apply app_assoc | apply IH].
Qed.

Lemma filter_write_app tr1 tr2 :
  List.filter is_write (tr1 ++ tr2) =
  List.filter is_write tr1 ++ List.filter is_write tr2.
Proof. apply List.filter_app. Qed.

(** ** One turn of the read loop, case by case *)

Lemma read_loop_S fuel epoll_fd fd buffer total_read :
  read_loop (S fuel) epoll_fd fd buffer total_read =
  (r <- sys_read fd (BUFFER_SIZE - total_read) ;;
   let n := fst r in
   if 0 <? n then
     let buffer := buffer ++ snd r in
     let total_read := total_read + n in
     if total_read =? BUFFER_SIZE then ret tt
     else read_loop fuel epoll_fd fd buffer total_read
   else if n =? 0 then
     printf "Client closed connection\n" ;;
     sys_close fd
   else
     e <- gets errno ;;
     if would_block e then
       if 0 <? total_read then
         printf "Received %zd bytes: %.*s\n" ;;
         echo_loop (Z.to_nat total_read) epoll_fd fd buffer total_read 0
       else ret tt
     else
       perror "read" ;; sys_close fd).
Proof. reflexivity. Qed.

Lemma read_step_more fuel epoll_fd fd buffer total_read w c s :
  rd_script w = RdData c :: s ->
  c <> [] ->
  Z.of_nat (length c) < BUFFER_SIZE - total_read ->
  read_loop (S fuel) epoll_fd fd buffer total_read w =
  read_loop fuel epoll_fd fd (buffer ++ c) (total_read + Z.of_nat (length c))
    (log (c_read fd (BUFFER_SIZE - total_read) (Z.of_nat (length c)))
       (set_rd_script s w)).
Proof.
  intros Hs Hc Hlt. rewrite read_loop_S. unfold bind at 1, sys_read.
  rewrite Hs.
  rewrite take_ge, drop_ge by lia.
  cbn [fst snd].
  destruct c as [|b c]; [done|].
  replace (0 <? Z.of_nat (length (b :: c))) with true
    by (symmetry; apply Z.ltb_lt; simpl; lia).
  replace (total_read + Z.of_nat (length (b :: c)) =? BUFFER_SIZE) with false
    by (symmetry; apply Z.eqb_neq; lia).
  reflexivity.
Qed.

(** The read that fills the buffer: the loop is left at once, and the
    handler with it, since nothing follows the loop. *)
Lemma read_step_full fuel epoll_fd fd buffer total_read w c s :
  rd_script w = RdData c :: s ->
  0 <= total_read < BUFFER_SIZE ->
  BUFFER_SIZE - total_read <= Z.of_nat (length c) ->
  read_loop (S fuel) epoll_fd fd buffer total_read w =
  Ret tt
    (log (c_read fd (BUFFER_SIZE - total_read) (BUFFER_SIZE - total_read))
       (set_rd_script
          (match drop (Z.to_nat (BUFFER_SIZE - total_read)) c with
           | [] => s
           | _ :: _ => RdData (drop (Z.to_nat (BUFFER_SIZE - total_read)) c) :: s
           end) w)).
Proof.
  intros Hs Ht Hge. rewrite read_loop_S. unfold bind at 1, sys_read.
  rewrite Hs. cbn [fst snd].
  rewrite length_take.
  replace (Z.of_nat (Z.to_nat (BUFFER_SIZE - total_read) `min` length c))
    with (BUFFER_SIZE - total_read) by lia.
  replace (0 <? BUFFER_SIZE - total_read) with true
    by (symmetry; apply Z.ltb_lt; lia).
  replace (total_read + (BUFFER_SIZE - total_read) =? BUFFER_SIZE) with true
    by (symmetry; apply Z.eqb_eq; lia).
  reflexivity.
Qed.

Lemma read_step_eof fuel epoll_fd fd buffer total_read w s :
  rd_script w = RdEof :: s ->
  read_loop (S fuel) epoll_fd fd buffer total_read w =
  (printf "Client closed connection\n" ;; sys_close fd)
    (log (c_read fd (BUFFER_SIZE - total_read) 0) (set_rd_script s w)).
Proof.
  intros Hs. rewrite read_loop_S. unfold bind at 1, sys_read.
  rewrite Hs. reflexivity.
Qed.

Lemma read_step_again fuel epoll_fd fd buffer total_read w e s :
  rd_script w = RdFail e :: s ->
  would_block e = true ->
  0 < total_read ->
  read_loop (S fuel) epoll_fd fd buffer total_read w =
  echo_loop (Z.to_nat total_read) epoll_fd fd buffer total_read 0
    (log (c_printf "Received %zd bytes: %.*s\n")
       (log (c_read fd (BUFFER_SIZE - total_read) (-1))
          (set_errno e (set_rd_script s w)))).
Proof.
  intros Hs He Ht. rewrite read_loop_S. unfold bind at 1, sys_read.
  rewrite Hs. cbn [fst snd Z.ltb Z.eqb Z.compare].
  unfold bind at 1, gets. cbn [errno log set_errno].
  rewrite He.
  replace (0 <? total_read) with true by (symmetry; apply Z.ltb_lt; lia).
  reflexivity.
Qed.

Lemma read_step_idle fuel epoll_fd fd buffer w e s :
  rd_script w = RdFail e :: s ->
  would_block e = true ->
  read_loop (S fuel) epoll_fd fd buffer 0 w =
  Ret tt (log (c_read fd BUFFER_SIZE (-1)) (set_errno e (set_rd_script s w))).
Proof.
  intros Hs He. rewrite read_loop_S. unfold bind at 1, sys_read.
  rewrite Hs. cbn [fst snd Z.ltb Z.eqb Z.compare].
  unfold bind at 1, gets. cbn [errno log set_errno].
  rewrite He. reflexivity.
Qed.

Lemma read_step_error fuel epoll_fd fd buffer total_read w e s :
  rd_script w = RdFail e :: s ->
  would_block e = false ->
  read_loop (S fuel) epoll_fd fd buffer total_read w =
  (perror "read" ;; sys_close fd)
    (log (c_read fd (BUFFER_SIZE - total_read) (-1))
       (set_errno e (set_rd_script s w))).
Proof.
  intros Hs He. rewrite read_loop_S. unfold bind at 1, sys_read.
  rewrite Hs. cbn [fst snd Z.ltb Z.eqb Z.compare].
  unfold bind at 1, gets. cbn [errno log set_errno].
  rewrite He. reflexivity.
Qed.

(** The turns that only accumulate: as long as the segments read leave
    the buffer short of BUFFER_SIZE, the loop goes on with the segments
    appended, having made nothing but reads. *)
Lemma read_loop_accumulate epoll_fd fd chunks :
  forall fuel buffer total_read w s,
  rd_script w = map RdData chunks ++ s ->
  Forall (fun c => c <> []) chunks ->
  0 <= total_read ->
  total_read + Z.of_nat (length (concat chunks)) < BUFFER_SIZE ->
  exists tr,
    Forall (fun c => is_read c = true) tr /\
    read_loop (length chunks + fuel) epoll_fd fd buffer total_read w =
    read_loop fuel epoll_fd fd (buffer ++ concat chunks)
      (total_read + Z.of_nat (length (concat chunks)))
      (set_trace (trace w ++ tr) (set_rd_script s w)).
Proof.
  induction chunks as [|c cs IH]; intros fuel buffer total_read w s Hs Hne Ht Hlt.
  - exists []. split; [constructor|].
    simpl in *. rewrite app_nil_r, Z.add_0_r. f_equal.
    destruct w; simpl in *; subst. unfold set_trace, set_rd_script; simpl.
    by rewrite app_nil_r.
  - inversion Hne as [|? ? Hc Hcs]; subst.
    simpl in Hs, Hlt. rewrite length_app in Hlt.
    cbn [length Nat.add].
    rewrite (read_step_more _ _ _ _ _ _ c (map RdData cs ++ s)) by (done || lia).
    edestruct (IH fuel (buffer ++ c) (total_read + Z.of_nat (length c))
                 (log (c_read fd (BUFFER_SIZE - total_read) (Z.of_nat (length c)))
                    (set_rd_script (map RdData cs ++ s) w)) s)
      as (tr & Htr & Heq); [reflexivity | done | lia | lia |].
    exists (c_read fd (BUFFER_SIZE - total_read) (Z.of_nat (length c)) :: tr).
    split; [constructor; done|].
    rewrite Heq. simpl concat. rewrite length_app, app_assoc.
    f_equal; [lia|].
    unfold set_trace, set_rd_script, log; simpl.
    by rewrite <- app_assoc.
Qed.

(** ** Orderly close seen by the read loop *)

Lemma reads_no_write tr :
  Forall (fun c => is_read c = true) tr -> List.filter is_write tr = [].
Proof.
  induction 1 as [|c tr Hc _ IH]; [reflexivity|].
  destruct c; try discriminate; exact IH.
Qed.

Lemma reads_deliver_nothing fd tr :
  Forall (fun c => is_read c = true) tr -> delivered fd tr = [].
Proof.
  induction 1 as [|c tr Hc _ IH]; [reflexivity|].
  destruct c; try discriminate; exact IH.
Qed.

Lemma chunks_count (chunks : list (list byte)) :
  Forall (fun c => c <> []) chunks ->
  (length chunks <= length (concat chunks))%nat.
Proof.
  induction 1 as [|c cs Hc _ IH]; simpl; [lia|].
  rewrite length_app. destruct c; [done | simpl; lia].
Qed.

(** The fuel of the handler, split after the turns that accumulate. *)
Lemma handler_fuel (chunks : list (list byte)) :
  Forall (fun c => c <> []) chunks ->
  Z.of_nat (length (concat chunks)) < BUFFER_SIZE ->
  exists k, Z.to_nat BUFFER_SIZE = (length chunks + S k)%nat.
Proof.
  intros Hne Hlt. pose proof (chunks_count chunks Hne).
  exists (Z.to_nat BUFFER_SIZE - length chunks - 1)%nat.
  unfold BUFFER_SIZE in *. lia.
Qed.

(** C8: a read of zero length closes the connection, whatever was
    accumulated before it in the same round, and without a single
    write.  Nothing of the connection is left: the descriptor is closed,
    which takes it off the epoll interest list, its flags are gone, and
    the table of pending output holds no record under it.  The branch
    itself only prints and closes: it is the program that never stores a
    record for a connection it reads from, so the connection comes to
    this handler without one, and the handler adds none. *)
Theorem zero_length_read_closes epoll_fd fd chunks rest w :
  pending w !! fd = None ->
  rd_script w = map RdData chunks ++ RdEof :: rest ->
  Forall (fun c => c <> []) chunks ->
  Z.of_nat (length (concat chunks)) < BUFFER_SIZE ->
  exists w',
    handle_readable epoll_fd fd w = Ret tt w' /\
    (fd ∉ k_open w') /\
    k_interest w' !! fd = None /\
    k_flags w' !! fd = None /\
    last (trace w') = Some (c_close fd) /\
    List.filter is_write (trace w') = List.filter is_write (trace w) /\
    delivered fd (trace w') = delivered fd (trace w) /\
    wr_script w' = wr_script w /\
    pending w' !! fd = None /\
    pending w' = pending w /\
    rd_script w' = rest.
Proof.
  intros Hrec Hs Hne Hlt.
  destruct (handler_fuel chunks Hne Hlt) as [k Hk].
  destruct (read_loop_accumulate epoll_fd fd chunks (S k) [] 0 w _ Hs Hne)
    as (tr & Htr & Heq); [lia | lia |].
  unfold handle_readable. rewrite Hk, Heq.
  rewrite (read_step_eof _ _ _ _ _ _ rest) by reflexivity.
  eexists. split; [reflexivity|].
  cbn -[delivered List.filter last].
  repeat split.
  - apply not_elem_of_difference; right; by apply elem_of_singleton.
  - apply lookup_delete_eq.
  - apply lookup_delete_eq.
  - by rewrite last_snoc.
  - rewrite !filter_write_app, (reads_no_write tr Htr). simpl.
    by rewrite !app_nil_r.
  - rewrite !delivered_app, (reads_deliver_nothing fd tr Htr). simpl.
    by rewrite !app_nil_r.
  - exact Hrec.
Qed.

Lemma zero_length_read_closes_witness :
  exists w',
    handle_readable 4 5
      (set_rd_script [RdData ["h"; "i"]%byte; RdEof]
         (set_wr_script [WrRoom 8] (connected 5 idle_world))) = Ret tt w' /\
    (5 ∉ k_open w') /\
    k_interest w' !! 5 = None /\
    k_flags w' !! 5 = None /\
    last (trace w') = Some (c_close 5) /\
    List.filter is_write (trace w') = [] /\
    delivered 5 (trace w') = [] /\
    wr_script w' = [WrRoom 8] /\
    pending w' !! 5 = None /\
    pending w' = ∅ /\
    rd_script w' = [].
Proof.
  apply (zero_length_read_closes 4 5 [["h"; "i"]%byte] []).
  - reflexivity.
  - reflexivity.
  - repeat constructor; discriminate.
  - unfold BUFFER_SIZE; simpl; lia.
Defined.

(** ** Stopping: the calculus *)

Lemma stops_in_ret {A} P (a : A) : stops_in P (ret a).
Proof. intros w s w' H; discriminate H. Qed.

Lemma stops_in_modify P f : stops_in P (modify f).
Proof. intros w s w' H; discriminate H. Qed.

Lemma stops_in_gets {A} P (f : world -> A) : stops_in P (gets f).
Proof. intros w s w' H; discriminate H. Qed.

Lemma stops_in_bind {A B} P (m : M A) (k : A -> M B) :
  stops_in P m -> (forall a, stops_in P (k a)) -> stops_in P (bind m k).
Proof.
  intros Hm Hk w s w' H. unfold bind in H.
  destruct (m w) as [a w1|s1 w1] eqn:Em.
  - exact (Hk a w1 s w' H).
  - injection H as <- <-. exact (Hm w s1 w1 Em).
Qed.

Lemma stops_in_read P fd count : stops_in P (sys_read fd count).
Proof.
  intros w s w' H. unfold sys_read in H.
  destruct (rd_script w) as [|[bs| |e] rest]; discriminate H.
Qed.

Lemma stops_in_write (P : stop -> world -> Prop) fd data :
  (forall w, P Killed w) -> stops_in P (sys_write fd data).
Proof.
  intros HP w s w' H. unfold sys_write in H.
  destruct data; [discriminate H|].
  destruct (wr_script w) as [|[r|e|] rest]; try discriminate H.
  injection H as <- <-. apply HP.
Qed.

Lemma stops_in_close P fd : stops_in P (sys_close fd).
Proof. apply stops_in_modify. Qed.

Lemma stops_in_accept (P : stop -> world -> Prop) fd :
  (forall w, P BlockedInAccept w) -> stops_in P (sys_accept fd).
Proof.
  intros HP w s w' H. unfold sys_accept in H.
  destruct (nonblocking fd w);
    [destruct (acc_script w) as [|[c|e] rest]
    |destruct (arrivals (acc_script w)) as [|[c|e] rest]];
    try discriminate H.
  injection H as <- <-. apply HP.
Qed.

Lemma stops_in_getfl P fd : stops_in P (sys_fcntl_getfl fd).
Proof.
  intros w s w' H. unfold sys_fcntl_getfl in H.
  destruct (fcntl_script w) as [|[e|] rest]; discriminate H.
Qed.

Lemma stops_in_setfl P fd flags : stops_in P (sys_fcntl_setfl fd flags).
Proof.
  intros w s w' H. unfold sys_fcntl_setfl in H.
  destruct (fcntl_script w) as [|[e|] rest]; discriminate H.
Qed.

Lemma stops_in_epoll_ctl P epoll_fd op fd ev :
  stops_in P (sys_epoll_ctl epoll_fd op fd ev).
Proof.
  intros w s w' H. unfold sys_epoll_ctl in H.
  destruct (ctl_script w) as [|[e|] rest]; discriminate H.
Qed.

Lemma stops_in_epoll_wait P o : stops_in P (sys_epoll_wait o).
Proof. intros w s w' H. destruct o; discriminate H. Qed.

Lemma stops_in_setup P name r : stops_in P (sys_setup name r).
Proof. intros w s w' H; discriminate H. Qed.

Lemma stops_in_perror P msg : stops_in P (perror msg).
Proof. apply stops_in_modify. Qed.

Lemma stops_in_printf P fmt : stops_in P (printf fmt).
Proof. apply stops_in_modify. Qed.

Lemma stops_in_halt {A} (P : stop -> world -> Prop) s :
  (forall w, P s w) -> stops_in P (@halt A s).
Proof. intros HP w s' w' H. injection H as <- <-. apply HP. Qed.

Lemma handler_stop_killed w : handler_stop Killed w.
Proof. exact I. Qed.

Lemma handler_stop_blocked_in_accept w : handler_stop BlockedInAccept w.
Proof. exact I. Qed.

Lemma no_spin_killed w : no_spin Killed w.
Proof. discriminate. Qed.

Lemma no_spin_blocked_in_accept w : no_spin BlockedInAccept w.
Proof. discriminate. Qed.

Create HintDb stops.
#[local] Hint Resolve handler_stop_killed handler_stop_blocked_in_accept
  no_spin_killed no_spin_blocked_in_accept : stops.
#[local] Hint Resolve stops_in_ret stops_in_modify stops_in_gets
  stops_in_read stops_in_write stops_in_close stops_in_accept
  stops_in_getfl stops_in_setfl stops_in_epoll_ctl stops_in_epoll_wait
  stops_in_perror stops_in_printf stops_in_setup : stops.

(** Walks through a handler written with [bind] and [if]. *)
Ltac stops_step :=
  lazymatch goal with
  | |- stops_in _ (bind _ _) => apply stops_in_bind; [|intros ?]
  | |- stops_in _ (if ?c then _ else _) => destruct c
  | |- stops_in _ (let _ := _ in _) => cbv zeta
  | |- stops_in _ _ => solve [auto with stops]
  end.

Ltac stops := repeat stops_step.

(** ** The handlers stop only as [handler_stop] says *)

Lemma fcntl_exit_stops (msg : string) :
  msg = "fcntl F_GETFL"%string \/ msg = "fcntl F_SETFL"%string ->
  stops_in handler_stop (perror msg ;; @exit unit EXIT_FAILURE).
Proof.
  intros Hmsg w s w' H. injection H as <- <-.
  split; [reflexivity|].
  unfold fcntl_failed, log; cbn [trace]. rewrite last_snoc.
  destruct Hmsg as [-> | ->]; [by left | by right].
Qed.

Lemma set_nonblocking_stops fd : stops_in handler_stop (set_nonblocking fd).
Proof.
  unfold set_nonblocking.
  apply stops_in_bind; [auto with stops | intros flags].
  apply stops_in_bind;
    [destruct (_ =? _); [apply fcntl_exit_stops; auto | auto with stops]
    | intros _].
  apply stops_in_bind; [auto with stops | intros r].
  destruct (_ =? _); [apply fcntl_exit_stops; auto | auto with stops].
Qed.

Lemma accept_loop_stops fuel listen_fd epoll_fd :
  stops_in handler_stop (accept_loop fuel listen_fd epoll_fd).
Proof.
  induction fuel as [|fuel IH]; simpl.
  - apply stops_in_halt. intros; exact I.
  - stops; auto using set_nonblocking_stops.
Qed.

Lemma handle_listener_stops listen_fd epoll_fd :
  stops_in handler_stop (handle_listener listen_fd epoll_fd).
Proof. unfold handle_listener. stops. apply accept_loop_stops. Qed.

Lemma echo_loop_stops fuel epoll_fd fd buffer total_read :
  forall total_sent,
  stops_in handler_stop (echo_loop fuel epoll_fd fd buffer total_read total_sent).
Proof.
  induction fuel as [|fuel IH]; intros total_sent; simpl.
  - destruct (_ <? _); [apply stops_in_halt; intros; exact I | stops].
  - stops.
Qed.

Lemma read_loop_stops fuel epoll_fd fd :
  forall buffer total_read,
  stops_in handler_stop (read_loop fuel epoll_fd fd buffer total_read).
Proof.
  induction fuel as [|fuel IH]; intros buffer total_read.
  - apply stops_in_halt. intros; exact I.
  - rewrite read_loop_S. stops; auto using echo_loop_stops.
Qed.

Lemma handle_writable_stops epoll_fd fd :
  stops_in handler_stop (handle_writable epoll_fd fd).
Proof.
  unfold handle_writable, free_pending_data. apply stops_in_bind.
  - intros w s w' H. unfold get_pending_data in H.
    destruct (pending w !! fd); [discriminate H|].
    injection H as <- <-. exact I.
  - intros pd. stops.
Qed.

Lemma handle_event_stops listen_fd epoll_fd ev :
  stops_in handler_stop (handle_event listen_fd epoll_fd ev).
Proof.
  unfold handle_event, handle_readable.
  stops; auto using handle_listener_stops, read_loop_stops, handle_writable_stops.
Qed.

Lemma for_each_event_stops listen_fd epoll_fd evs :
  stops_in handler_stop (for_each_event listen_fd epoll_fd evs).
Proof.
  induction evs as [|ev evs IH]; simpl; stops; auto using handle_event_stops.
Qed.

(** ** The event loop and main *)

Lemma event_loop_blocked_app listen_fd epoll_fd ws ws' :
  forall w w2,
  event_loop listen_fd epoll_fd ws w = Stop Blocked w2 ->
  event_loop listen_fd epoll_fd (ws ++ ws') w =
  event_loop listen_fd epoll_fd ws' w2.
Proof.
  induction ws as [|o ws IH]; intros w w2 H.
  - injection H as <-. reflexivity.
  - cbn [app event_loop] in *. unfold bind at 1 in H. unfold bind at 1.
    destruct (sys_epoll_wait o w) as [[n evs] w1|s w1] eqn:Ew.
    + cbn [fst snd] in *. destruct (n =? -1); [discriminate H|].
      unfold bind at 1 in H. unfold bind at 1.
      destruct (for_each_event listen_fd epoll_fd evs w1) as [[] w3|s w3] eqn:Ef.
      * exact (IH w3 w2 H).
      * injection H as -> ->.
        destruct (for_each_event_stops _ _ _ _ _ _ Ef).
    + exfalso. exact (stops_in_epoll_wait (fun _ _ => False) o _ _ _ Ew).
Qed.

(** A failing epoll_wait ends the loop by [break], after perror. *)
Lemma event_loop_wait_fails listen_fd epoll_fd e rest w :
  event_loop listen_fd epoll_fd (WaitFail e :: rest) w =
  Ret tt (log (c_perror "epoll_wait") (log (c_epoll_wait (-1)) (set_errno e w))).
Proof. reflexivity. Qed.

(** How the loop can end: by [break] after a failed epoll_wait, by
    waiting for ever, or by a handler that stops. *)
Lemma event_loop_result listen_fd epoll_fd waits :
  forall w,
  match event_loop listen_fd epoll_fd waits w with
  | Ret _ w' =>
      (exists e, In (WaitFail e) waits) /\
      last (trace w') = Some (c_perror "epoll_wait")
  | Stop s w' => s = Blocked \/ handler_stop s w'
  end.
Proof.
  induction waits as [|o waits IH]; intros w.
  - left; reflexivity.
  - cbn [event_loop]. unfold bind at 1.
    destruct o as [evs|e].
    + cbn [sys_epoll_wait fst snd].
      destruct (_ =? -1) eqn:En.
      { apply Z.eqb_eq in En. lia. }
      unfold bind at 1.
      destruct (for_each_event _ _ _ _) as [[] w3|s w3] eqn:Ef.
      * specialize (IH w3).
        destruct (event_loop listen_fd epoll_fd waits w3) as [[] w4|s w4].
        -- destruct IH as [[e He] Hl]. split; [exists e; by right | done].
        -- exact IH.
      * right. exact (for_each_event_stops _ _ _ _ _ _ Ef).
    + cbn. split; [exists e; by left | apply last_snoc].
Qed.

(** The set-up either fails, and the process exits with EXIT_FAILURE,
    or yields the two descriptors. *)
Lemma setup_result argc b w :
  (setup_failed argc b w /\
   exists w', setup argc b w = Stop (Exited EXIT_FAILURE) w') \/
  (~ setup_failed argc b w /\
   exists w', setup argc b w = Ret (socket_ret b, epoll_create1_ret b) w').
Proof.
  unfold setup, setup_failed.
  unfold printf, perror, exit, sys_close.
  unfold bind, sys_setup, ret, modify, gets, halt, sys_epoll_ctl.
  destruct (Z.eqb_spec argc 2) as [->|Hargc]; cbn [negb];
    [|left; split; [tauto | eexists; reflexivity]].
  destruct (Z.eqb_spec (socket_ret b) (-1)) as [Hs|Hs].
  { left; split; [tauto | eexists; reflexivity]. }
  destruct (Z.eqb_spec (setsockopt_ret b) (-1)) as [Ho|Ho].
  { left; split; [tauto | eexists; reflexivity]. }
  destruct (Z.eqb_spec (bind_ret b) (-1)) as [Hb|Hb].
  { left; split; [tauto | eexists; reflexivity]. }
  destruct (Z.eqb_spec (listen_ret b) (-1)) as [Hl|Hl].
  { left; split; [tauto | eexists; reflexivity]. }
  destruct (Z.eqb_spec (epoll_create1_ret b) (-1)) as [He|He].
  { left; split; [tauto | eexists; reflexivity]. }
  cbn [ctl_script log set_open set_event].
  destruct (ctl_script w) as [|[e|] rest] eqn:Ec.
  - right. split; [|eexists; reflexivity].
    intros [?|[?|[?|[?|[?|[?|(e & r & ?)]]]]]]; congruence.
  - left. split; [|eexists; reflexivity].
    do 6 right. eauto.
  - right. split; [|eexists; reflexivity].
    intros [?|[?|[?|[?|[?|[?|(e & r & ?)]]]]]]; congruence.
Qed.

(** ** Ways the process ends *)

(** C10: when epoll_wait fails, after any number of rounds that were
    handled, the loop is left by [break], the two descriptors are closed
    and main returns 0: the status of a failed run is EXIT_SUCCESS. *)
Theorem epoll_wait_failure_exits_zero
    argc b batches e rest w listen_fd epoll_fd w1 w2 :
  setup argc b w = Ret (listen_fd, epoll_fd) w1 ->
  event_loop listen_fd epoll_fd (map WaitReady batches) w1 = Stop Blocked w2 ->
  exists w',
    main argc b (map WaitReady batches ++ WaitFail e :: rest) w =
      Ret EXIT_SUCCESS w' /\
    trace w' =
      trace w2 ++ [c_epoll_wait (-1); c_perror "epoll_wait";
                   c_close listen_fd; c_close epoll_fd].
Proof.
  intros Hsetup Hloop. unfold main. unfold bind at 1. rewrite Hsetup.
  cbn [fst snd]. unfold bind at 1.
  rewrite (event_loop_blocked_app _ _ _ _ _ _ Hloop), event_loop_wait_fails.
  eexists; split; [reflexivity|].
  cbn. by rewrite <- !app_assoc.
Qed.

Lemma epoll_wait_failure_exits_zero_witness :
  exists w',
    main 2 boot_ok (map WaitReady [[listener_ready]] ++ [WaitFail EINTR])
      (set_acc_script [AccConn 5; AccFail ECONNABORTED] idle_world) = Ret EXIT_SUCCESS w' /\
    trace w' =
      trace (world_of
               (event_loop 3 4 (map WaitReady [[listener_ready]])
                  (world_of
                     (setup 2 boot_ok (set_acc_script [AccConn 5; AccFail ECONNABORTED] idle_world)))))
      ++ [c_epoll_wait (-1); c_perror "epoll_wait"; c_close 3; c_close 4].
Proof.
  apply (epoll_wait_failure_exits_zero 2 boot_ok [[listener_ready]] EINTR []
           (set_acc_script [AccConn 5; AccFail ECONNABORTED] idle_world) 3 4
           (world_of (setup 2 boot_ok (set_acc_script [AccConn 5; AccFail ECONNABORTED] idle_world)))).
  - vm_compute; reflexivity.
  - vm_compute; reflexivity.
Defined.

(** How a run of main can end: with EXIT_FAILURE, after a failed step
    of the set-up or a failed fcntl in set_nonblocking, or with status 0
    after a failed epoll_wait. *)
Lemma process_ends_only_by argc b waits w s :
  exit_status (main argc b waits w) = Some s ->
  (s = EXIT_FAILURE /\
   (setup_failed argc b w \/ fcntl_failed (world_of (main argc b waits w)))) \/
  (s = EXIT_SUCCESS /\ ~ setup_failed argc b w /\
   exists e, In (WaitFail e) waits).
Proof.
  intros Hs.
  destruct (setup_result argc b w) as [[Hf [w1 Hw1]]|[Hok [w1 Hw1]]].
  - assert (Hm : main argc b waits w = Stop (Exited EXIT_FAILURE) w1)
      by (unfold main; unfold bind at 1; by rewrite Hw1).
    rewrite Hm in Hs. injection Hs as <-. left; auto.
  - pose proof (event_loop_result (socket_ret b) (epoll_create1_ret b) waits w1)
      as Hl.
    destruct (event_loop (socket_ret b) (epoll_create1_ret b) waits w1)
      as [[] w2|st w2] eqn:El.
    + assert (Hm : exists w3, main argc b waits w = Ret 0 w3).
      { unfold main; unfold bind at 1; rewrite Hw1; cbn [fst snd].
        unfold bind at 1. rewrite El. eexists; reflexivity. }
      destruct Hm as [w3 Hm]. rewrite Hm in Hs. injection Hs as <-.
      right. split; [reflexivity | split; [exact Hok | apply Hl]].
    + assert (Hm : main argc b waits w = Stop st w2).
      { unfold main; unfold bind at 1; rewrite Hw1; cbn [fst snd].
        unfold bind at 1. by rewrite El. }
      rewrite Hm in Hs |- *. destruct st; try discriminate Hs.
      injection Hs as ->.
      destruct Hl as [Hl|[-> Hl]]; [discriminate Hl|].
      left; split; [reflexivity | right; exact Hl].
Qed.

(** C4 as stated fails: the switch of an accepted connection to
    non-blocking mode fails, and the server process is gone. *)
Lemma set_nonblocking_failure_ends_server :
  ~ keeps_serving (main 2 boot_ok [WaitReady [listener_ready]] fcntl_fails_world)
  /\ exit_status (main 2 boot_ok [WaitReady [listener_ready]] fcntl_fails_world)
     = Some EXIT_FAILURE.
Proof.
  split.
  - intros H. vm_compute in H. exact H.
  - vm_compute. reflexivity.
Qed.

(** ** Hang-up events *)

(** Step 7.1: the test on EPOLLRDHUP and EPOLLHUP comes first and ends
    the handling of the event. *)
Lemma hangup_step listen_fd epoll_fd ev w :
  data_fd ev <> listen_fd ->
  Z.land (events ev) (Z.lor EPOLLRDHUP EPOLLHUP) <> 0 ->
  handle_event listen_fd epoll_fd ev w =
  Ret tt
    (log (c_close (data_fd ev))
       (set_interest (delete (data_fd ev) (k_interest w))
          (set_flags (delete (data_fd ev) (k_flags w))
             (set_open (k_open w ∖ {[data_fd ev]})
                (log (c_printf "Client disconnected\n") w))))).
Proof.
  intros Hfd Hup. unfold handle_event.
  rewrite (proj2 (Z.eqb_neq _ _) Hfd), (proj2 (Z.eqb_neq _ _) Hup).
  reflexivity.
Qed.

(** C9, as the code has it: when EPOLLRDHUP or EPOLLHUP is among the
    conditions of an event on a connection, the connection is closed at
    once (and so leaves the epoll interest list); nothing is read from
    it and nothing is written to it, whether or not EPOLLIN fired too. *)
Theorem hangup_closes_at_once listen_fd epoll_fd ev w :
  data_fd ev <> listen_fd ->
  Z.land (events ev) (Z.lor EPOLLRDHUP EPOLLHUP) <> 0 ->
  exists w',
    handle_event listen_fd epoll_fd ev w = Ret tt w' /\
    trace w' =
      trace w ++ [c_printf "Client disconnected\n"; c_close (data_fd ev)] /\
    (data_fd ev ∉ k_open w') /\
    k_interest w' !! data_fd ev = None /\
    rd_script w' = rd_script w /\
    wr_script w' = wr_script w.
Proof.
  intros Hfd Hup. rewrite (hangup_step _ _ _ _ Hfd Hup).
  eexists; split; [reflexivity|]. cbn.
  repeat split.
  - by rewrite <- app_assoc.
  - apply not_elem_of_difference; right; by apply elem_of_singleton.
  - apply lookup_delete_eq.
Qed.

Lemma hangup_closes_at_once_witness :
  exists w',
    handle_event 3 4 hangup_event hangup_world = Ret tt w' /\
    trace w' = [] ++ [c_printf "Client disconnected\n"; c_close 5] /\
    (5 ∉ k_open w') /\
    k_interest w' !! 5 = None /\
    rd_script w' = [RdData ["h"; "i"]%byte; RdEof] /\
    wr_script w' = [].
Proof.
  apply (hangup_closes_at_once 3 4 hangup_event hangup_world).
  - vm_compute; discriminate.
  - vm_compute; discriminate.
Defined.

(** C9 as stated fails: the peer sent two bytes and closed; the
    connection is closed with the two bytes unread and nothing echoed. *)
Lemma hangup_discards_buffered_input :
  ~ flushed_before_close 3 4 hangup_event hangup_world.
Proof.
  unfold flushed_before_close.
  rewrite hangup_step by (vm_compute; discriminate).
  cbn [world_of]. intros H.
  destruct H as [H _].
  - cbn. apply not_elem_of_difference; right; by apply elem_of_singleton.
  - vm_compute in H. discriminate H.
Qed.

(** ** A round that fills the buffer *)

Lemma bytes_read_app tr1 tr2 :
  bytes_read (tr1 ++ tr2) = bytes_read tr1 + bytes_read tr2.
Proof.
  induction tr1 as [|c tr1 IH]; [reflexivity|].
  destruct c; simpl; rewrite ?IH; lia.
Qed.

(** When the segments waiting reach BUFFER_SIZE, the read loop takes
    exactly the bytes that fill the buffer and is left by the [break]
    of line 184, which is also the end of the handler. *)
Lemma read_loop_fills epoll_fd fd chunks :
  forall fuel buffer total_read w s,
  rd_script w = map RdData chunks ++ s ->
  Forall (fun c => c <> []) chunks ->
  0 <= total_read < BUFFER_SIZE ->
  BUFFER_SIZE <= total_read + Z.of_nat (length (concat chunks)) ->
  (Z.to_nat (BUFFER_SIZE - total_read) <= fuel)%nat ->
  exists tr s',
    Forall (fun c => is_read c = true) tr /\
    bytes_read tr = BUFFER_SIZE - total_read /\
    read_loop fuel epoll_fd fd buffer total_read w =
    Ret tt (set_trace (trace w ++ tr) (set_rd_script s' w)).
Proof.
  induction chunks as [|c cs IH];
    intros fuel buffer total_read w s Hs Hne Ht Hge Hfuel.
  - simpl in Hge. lia.
  - inversion Hne as [|? ? Hc Hcs]; subst.
    destruct fuel as [|fuel]; [lia|].
    simpl in Hs, Hge. rewrite length_app in Hge.
    assert (0 < length c)%nat by (destruct c; [done | simpl; lia]).
    destruct (Z_lt_le_dec (Z.of_nat (length c)) (BUFFER_SIZE - total_read))
      as [Hlt|Hfull].
    + rewrite (read_step_more _ _ _ _ _ _ c (map RdData cs ++ s)) by done.
      edestruct (IH fuel (buffer ++ c) (total_read + Z.of_nat (length c))
                   (log (c_read fd (BUFFER_SIZE - total_read)
                           (Z.of_nat (length c)))
                      (set_rd_script (map RdData cs ++ s) w)) s)
        as (tr & s' & Htr & Hbytes & Heq); [reflexivity | done | lia | lia | lia |].
      exists (c_read fd (BUFFER_SIZE - total_read) (Z.of_nat (length c)) :: tr), s'.
      split; [constructor; done|]. split; [simpl; lia|].
      rewrite Heq. f_equal.
      unfold set_trace, set_rd_script, log; simpl. by rewrite <- app_assoc.
    + rewrite (read_step_full _ _ _ _ _ _ c (map RdData cs ++ s)) by done.
      eexists [c_read fd (BUFFER_SIZE - total_read) (BUFFER_SIZE - total_read)], _.
      split; [repeat constructor|]. split; [simpl; lia|].
      reflexivity.
Qed.

(** C3: when the segments read in one round fill the buffer, the
    handler takes BUFFER_SIZE bytes from the receive queue and returns
    without a single write: the loop does end, but the bytes it has
    accumulated are dropped and the connection stays as it was. *)
Theorem full_buffer_skips_echo epoll_fd fd chunks rest w :
  rd_script w = map RdData chunks ++ rest ->
  Forall (fun c => c <> []) chunks ->
  BUFFER_SIZE <= Z.of_nat (length (concat chunks)) ->
  exists w' tr,
    handle_readable epoll_fd fd w = Ret tt w' /\
    trace w' = trace w ++ tr /\
    bytes_read tr = BUFFER_SIZE /\
    List.filter is_write tr = [] /\
    delivered fd (trace w') = delivered fd (trace w) /\
    wr_script w' = wr_script w /\
    k_open w' = k_open w /\
    k_interest w' = k_interest w /\
    pending w' = pending w.
Proof.
  intros Hs Hne Hge.
  destruct (read_loop_fills epoll_fd fd chunks (Z.to_nat BUFFER_SIZE) [] 0 w rest
              Hs Hne) as (tr & s' & Htr & Hbytes & Heq);
    [unfold BUFFER_SIZE; lia | lia | lia |].
  unfold handle_readable. rewrite Heq.
  eexists _, tr. split; [reflexivity|]. cbn -[delivered List.filter].
  repeat split.
  - lia.
  - by apply reads_no_write.
  - by rewrite delivered_app, (reads_deliver_nothing fd tr Htr), app_nil_r.
Qed.

Lemma full_buffer_skips_echo_witness :
  exists w' tr,
    handle_readable 4 5 burst_world = Ret tt w' /\
    trace w' = trace burst_world ++ tr /\
    bytes_read tr = BUFFER_SIZE /\
    List.filter is_write tr = [] /\
    delivered 5 (trace w') = delivered 5 (trace burst_world) /\
    wr_script w' = wr_script burst_world /\
    k_open w' = k_open burst_world /\
    k_interest w' = k_interest burst_world /\
    pending w' = pending burst_world.
Proof.
  apply (full_buffer_skips_echo 4 5 [repeat "a"%byte 2000] [RdFail EAGAIN]).
  - reflexivity.
  - constructor; [|constructor]. intros H; vm_compute in H; discriminate H.
  - vm_compute; discriminate.
Defined.

(** ** The echo loop *)

Lemma slice_length (buffer : list byte) off count :
  0 <= off -> 0 <= count -> off + count <= Z.of_nat (length buffer) ->
  Z.of_nat (length (slice buffer off count)) = count.
Proof.
  intros. unfold slice. rewrite length_take, length_drop. lia.
Qed.

Lemma take_slice (buffer : list byte) off count (n : nat) :
  take n (slice buffer off count) =
  slice buffer off (Z.min (Z.of_nat n) (Z.max 0 count)).
Proof.
  unfold slice. rewrite take_take. f_equal. lia.
Qed.

Lemma slice_app_drop (buffer : list byte) off n :
  0 <= off -> 0 <= n ->
  slice buffer off n ++ drop (Z.to_nat (off + n)) buffer =
  drop (Z.to_nat off) buffer.
Proof.
  intros. unfold slice.
  replace (Z.to_nat (off + n)) with (Z.to_nat off + Z.to_nat n)%nat by lia.
  rewrite <- drop_drop. apply take_drop.
Qed.

Lemma room_total_nonneg rooms : 0 <= room_total rooms.
Proof. induction rooms; simpl; lia. Qed.

Lemma echo_loop_done fuel epoll_fd fd buffer total_read total_sent w :
  total_read <= total_sent ->
  echo_loop fuel epoll_fd fd buffer total_read total_sent w = Ret tt w.
Proof.
  intros H. destruct fuel; simpl;
    rewrite (proj2 (Z.ltb_ge _ _) H); reflexivity.
Qed.

(** A write that the kernel has room for: it takes [Z.min r count]
    bytes, and the loop goes on behind them. *)
Lemma echo_step_room fuel epoll_fd fd buffer total_read total_sent w r s :
  wr_script w = WrRoom r :: s ->
  0 <= total_sent < total_read ->
  total_read <= Z.of_nat (length buffer) ->
  echo_loop (S fuel) epoll_fd fd buffer total_read total_sent w =
  echo_loop fuel epoll_fd fd buffer total_read
    (total_sent + Z.min (Z.pos r) (total_read - total_sent))
    (log (c_write fd
            (slice buffer total_sent (Z.min (Z.pos r) (total_read - total_sent)))
            (Z.min (Z.pos r) (total_read - total_sent)))
       (set_wr_script s w)).
Proof.
  intros Hs Ht Hlen. cbn [echo_loop].
  rewrite (proj2 (Z.ltb_lt _ _) (proj2 Ht)).
  unfold bind at 1, sys_write.
  pose proof (slice_length buffer total_sent (total_read - total_sent)) as Hl.
  destruct (slice buffer total_sent (total_read - total_sent)) as [|b data] eqn:Ed.
  { simpl in Hl. lia. }
  rewrite Hs, <- Ed, take_slice.
  replace (Z.min (Z.of_nat (Pos.to_nat r)) (Z.max 0 (total_read - total_sent)))
    with (Z.min (Z.pos r) (total_read - total_sent)) by lia.
  rewrite slice_length by lia.
  replace (Z.min (Z.pos r) (total_read - total_sent) =? -1) with false
    by (symmetry; apply Z.eqb_neq; lia).
  reflexivity.
Qed.

(** A write that would block: the interest of the connection is changed
    to [draining_events], and the loop is left.  Nothing else happens:
    the bytes from [total_sent] on are kept nowhere. *)
Lemma echo_step_again fuel epoll_fd fd buffer total_read total_sent w e s :
  wr_script w = WrFail e :: s ->
  would_block e = true ->
  0 <= total_sent < total_read ->
  total_read <= Z.of_nat (length buffer) ->
  (forall e' cs, ctl_script w <> Some e' :: cs) ->
  echo_loop (S fuel) epoll_fd fd buffer total_read total_sent w =
  Ret tt
    (log (c_epoll_ctl EPOLL_CTL_MOD fd
            {| events := draining_events; data_fd := fd |} 0)
       (set_interest
          (<[fd := {| events := draining_events; data_fd := fd |}]> (k_interest w))
          (set_ctl_script (tail (ctl_script w))
             (set_event {| events := draining_events; data_fd := fd |}
                (log (c_write fd [] (-1))
                   (set_errno e (set_wr_script s w))))))).
Proof.
  intros Hs He Ht Hlen Hctl. cbn [echo_loop].
  rewrite (proj2 (Z.ltb_lt _ _) (proj2 Ht)).
  unfold bind at 1, sys_write.
  pose proof (slice_length buffer total_sent (total_read - total_sent)) as Hl.
  destruct (slice buffer total_sent (total_read - total_sent)) as [|b data] eqn:Ed.
  { simpl in Hl. lia. }
  rewrite Hs. cbn [Z.eqb Pos.eqb].
  unfold bind at 1, gets. cbn [errno log set_errno]. rewrite He.
  unfold bind at 1, modify. unfold bind at 1. unfold bind at 1, sys_epoll_ctl.
  cbn [ctl_script set_event log set_errno set_wr_script event].
  destruct (ctl_script w) as [|[e'|] cs] eqn:Ec;
    [reflexivity | by destruct (Hctl e' cs) | reflexivity].
Qed.

(** With room enough in the send queue, the loop writes the whole rest
    of the buffer, in order, in as many writes as the kernel cuts it
    into. *)
Lemma echo_loop_sends_all epoll_fd fd buffer total_read rooms :
  forall fuel total_sent w s,
  wr_script w = map WrRoom rooms ++ s ->
  total_read = Z.of_nat (length buffer) ->
  0 <= total_sent <= total_read ->
  total_read - total_sent <= room_total rooms ->
  (Z.to_nat (total_read - total_sent) <= fuel)%nat ->
  exists tr s',
    echo_loop fuel epoll_fd fd buffer total_read total_sent w =
      Ret tt (set_trace (trace w ++ tr) (set_wr_script s' w)) /\
    delivered fd tr = drop (Z.to_nat total_sent) buffer /\
    Forall (fun c => is_write c = true) tr.
Proof.
  induction rooms as [|r rooms IH];
    intros fuel total_sent w s Hs Hlen Ht Hroom Hfuel.
  - simpl in Hroom. rewrite echo_loop_done by lia.
    exists [], (wr_script w). split; [|split; [|constructor]].
    + f_equal. destruct w; unfold set_trace, set_wr_script; simpl.
      by rewrite app_nil_r.
    + simpl. symmetry. apply drop_ge. lia.
  - destruct (Z_lt_le_dec total_sent total_read) as [Hlt|Hdone].
    2:{ rewrite echo_loop_done by lia.
        exists [], (wr_script w). split; [|split; [|constructor]].
        - f_equal. destruct w; unfold set_trace, set_wr_script; simpl.
          by rewrite app_nil_r.
        - simpl. symmetry. apply drop_ge. lia. }
    destruct fuel as [|fuel]; [lia|].
    simpl in Hs, Hroom.
    rewrite (echo_step_room _ _ _ _ _ _ _ r (map WrRoom rooms ++ s)) by (done || lia).
    set (n := Z.min (Z.pos r) (total_read - total_sent)).
    assert (Hn : 1 <= n <= total_read - total_sent /\
                 total_read - total_sent - n <= room_total rooms)
      by (pose proof (room_total_nonneg rooms); unfold n; lia).
    clearbody n.
    edestruct (IH fuel (total_sent + n)
                 (log (c_write fd (slice buffer total_sent n) n)
                    (set_wr_script (map WrRoom rooms ++ s) w)) s)
      as (tr & s' & Heq & Hdel & Htr); [reflexivity | done | lia | lia | lia |].
    exists (c_write fd (slice buffer total_sent n) n :: tr), s'.
    split; [|split; [|constructor; done]].
    + rewrite Heq. f_equal.
      unfold set_trace, set_wr_script, log; simpl. by rewrite <- app_assoc.
    + cbn [delivered]. rewrite Z.eqb_refl, Hdel.
      apply slice_app_drop; lia.
Qed.

(** The echo below the bound: a client sends fewer than BUFFER_SIZE
    bytes, in any segments, and pauses; the send queue has room.  The
    client gets back exactly the bytes it sent, in order, and the
    connection stays open and registered as it was. *)
Lemma echo_below_bound epoll_fd fd chunks rooms e rest wrest w :
  rd_script w = map RdData chunks ++ RdFail e :: rest ->
  would_block e = true ->
  Forall (fun c => c <> []) chunks ->
  Z.of_nat (length (concat chunks)) < BUFFER_SIZE ->
  wr_script w = map WrRoom rooms ++ wrest ->
  Z.of_nat (length (concat chunks)) <= room_total rooms ->
  exists w',
    handle_readable epoll_fd fd w = Ret tt w' /\
    delivered fd (trace w') = delivered fd (trace w) ++ concat chunks /\
    rd_script w' = rest /\
    k_open w' = k_open w /\
    k_interest w' = k_interest w /\
    pending w' = pending w.
Proof.
  intros Hs He Hne Hlt Hws Hroom.
  destruct (handler_fuel chunks Hne Hlt) as [k Hk].
  destruct (read_loop_accumulate epoll_fd fd chunks (S k) [] 0 w _ Hs Hne)
    as (tr & Htr & Heq); [lia | lia |].
  unfold handle_readable. rewrite Hk, Heq. cbn [app Z.add].
  destruct (concat chunks) as [|b bs] eqn:Ec.
  - rewrite (read_step_idle _ _ _ _ _ e rest) by done.
    eexists; split; [reflexivity|]. cbn -[delivered].
    rewrite !delivered_app, (reads_deliver_nothing fd tr Htr). simpl.
    by rewrite !app_nil_r.
  - rewrite (read_step_again _ _ _ _ _ _ e rest) by (done || simpl; lia).
    match goal with
    | |- context [echo_loop ?f _ _ ?buf ?tot 0 ?w0] =>
        destruct (echo_loop_sends_all epoll_fd fd buf tot rooms f 0 w0 wrest)
          as (tr' & s' & Heq' & Hdel & Htr');
          [exact Hws | simpl; lia | simpl; lia | simpl in *; lia | lia |]
    end.
    rewrite Heq'. eexists; split; [reflexivity|]. cbn -[delivered].
    rewrite !delivered_app, (reads_deliver_nothing fd tr Htr), Hdel. simpl.
    by rewrite !app_nil_r.
Qed.

(** C1, with what happens at the bound: a client sends the bytes [B] of
    [chunks], at most BUFFER_SIZE of them, and pauses; the send queue
    has room.  Below BUFFER_SIZE the client gets back exactly [B]; at
    BUFFER_SIZE it gets back nothing.  Either way the connection stays
    open and registered as it was. *)
Theorem echo_exact_below_bound_only epoll_fd fd chunks rooms e rest wrest w :
  rd_script w = map RdData chunks ++ RdFail e :: rest ->
  would_block e = true ->
  Forall (fun c => c <> []) chunks ->
  Z.of_nat (length (concat chunks)) <= BUFFER_SIZE ->
  wr_script w = map WrRoom rooms ++ wrest ->
  Z.of_nat (length (concat chunks)) <= room_total rooms ->
  exists w',
    handle_readable epoll_fd fd w = Ret tt w' /\
    delivered fd (trace w') =
      delivered fd (trace w) ++
      (if Z.of_nat (length (concat chunks)) <? BUFFER_SIZE
       then concat chunks else []) /\
    k_open w' = k_open w /\
    k_interest w' = k_interest w.
Proof.
  intros Hs He Hne Hle Hws Hroom.
  destruct (Z.ltb_spec (Z.of_nat (length (concat chunks))) BUFFER_SIZE)
    as [Hlt|Hge].
  - destruct (echo_below_bound epoll_fd fd chunks rooms e rest wrest w)
      as (w' & Heq & Hdel & _ & Hopen & Hreg & _); try done.
    by exists w'.
  - destruct (read_loop_fills epoll_fd fd chunks (Z.to_nat BUFFER_SIZE) [] 0 w
                (RdFail e :: rest) Hs Hne)
      as (tr & s' & Htr & _ & Heq); [unfold BUFFER_SIZE; lia | lia | lia |].
    unfold handle_readable. rewrite Heq.
    eexists; split; [reflexivity|]. cbn -[delivered].
    by rewrite delivered_app, (reads_deliver_nothing fd tr Htr), !app_nil_r.
Qed.

Lemma echo_exact_below_bound_only_witness :
  exists w',
    handle_readable 4 5 bound_world = Ret tt w' /\
    delivered 5 (trace w') =
      delivered 5 (trace bound_world) ++
      (if Z.of_nat (length (concat [repeat "a"%byte 1024])) <? BUFFER_SIZE
       then concat [repeat "a"%byte 1024] else []) /\
    k_open w' = k_open bound_world /\
    k_interest w' = k_interest bound_world.
Proof.
  apply (echo_exact_below_bound_only 4 5 [repeat "a"%byte 1024] [2048%positive]
           EAGAIN [] []).
  - reflexivity.
  - reflexivity.
  - constructor; [|constructor]. intros H; vm_compute in H; discriminate H.
  - vm_compute; discriminate.
  - reflexivity.
  - vm_compute; discriminate.
Defined.

(** ** An echo that blocks half way *)

Lemma slice_snoc (buffer : list byte) off n m :
  0 <= off -> 0 <= n -> 0 <= m ->
  slice buffer off n ++ slice buffer (off + n) m = slice buffer off (n + m).
Proof.
  intros. unfold slice.
  replace (Z.to_nat (off + n)) with (Z.to_nat off + Z.to_nat n)%nat by lia.
  replace (Z.to_nat (n + m)) with (Z.to_nat n + Z.to_nat m)%nat by lia.
  rewrite <- drop_drop. apply take_take_drop.
Qed.

(** The send queue takes [room_total rooms] bytes, fewer than are left
    to send, and then is full: these bytes go out, the interest of the
    connection becomes [draining_events], and the loop is left.  The
    table of pending data is not touched. *)
Lemma echo_loop_blocks epoll_fd fd buffer total_read rooms e s :
  would_block e = true ->
  total_read = Z.of_nat (length buffer) ->
  forall fuel total_sent w,
  wr_script w = map WrRoom rooms ++ WrFail e :: s ->
  all_succeed (ctl_script w) ->
  0 <= total_sent ->
  total_sent + room_total rooms < total_read ->
  (Z.to_nat (total_read - total_sent) <= fuel)%nat ->
  exists w',
    echo_loop fuel epoll_fd fd buffer total_read total_sent w = Ret tt w' /\
    delivered fd (trace w') =
      delivered fd (trace w) ++ slice buffer total_sent (room_total rooms) /\
    k_interest w' =
      <[fd := {| events := draining_events; data_fd := fd |}]> (k_interest w) /\
    k_open w' = k_open w /\
    pending w' = pending w /\
    rd_script w' = rd_script w /\
    wr_script w' = s.
Proof.
  intros He Hlen. induction rooms as [|r rooms IH];
    intros fuel total_sent w Hs Hctl Ht Hroom Hfuel; simpl in Hs, Hroom.
  - destruct fuel as [|fuel]; [lia|].
    rewrite (echo_step_again _ _ _ _ _ _ _ e s) by
      (done || lia || (intros e' cs E; rewrite E in Hctl;
                       inversion Hctl; discriminate)).
    eexists; split; [reflexivity|]. cbn -[delivered].
    rewrite !delivered_app. cbn [delivered]. rewrite Z.eqb_refl.
    unfold slice. cbn [room_total Z.to_nat take]. by rewrite !app_nil_r.
  - pose proof (room_total_nonneg rooms) as Hnn.
    destruct fuel as [|fuel]; [lia|].
    rewrite (echo_step_room _ _ _ _ _ _ _ r (map WrRoom rooms ++ WrFail e :: s))
      by (done || lia).
    replace (Z.min (Z.pos r) (total_read - total_sent)) with (Z.pos r) by lia.
    edestruct (IH fuel (total_sent + Z.pos r)
                 (log (c_write fd (slice buffer total_sent (Z.pos r)) (Z.pos r))
                    (set_wr_script (map WrRoom rooms ++ WrFail e :: s) w)))
      as (w' & Heq & Hdel & Hreg & Hopen & Hpend & Hrd & Hwr);
      [reflexivity | exact Hctl | lia | lia | lia |].
    exists w'. split; [exact Heq|].
    split; [|by repeat split].
    rewrite Hdel. cbn [trace log set_wr_script].
    rewrite delivered_app. cbn [delivered]. rewrite Z.eqb_refl, app_nil_r.
    rewrite <- app_assoc. f_equal. apply slice_snoc; lia.
Qed.

(** The readable branch when the echo blocks half way. *)
Lemma partial_echo epoll_fd fd chunks rooms e e' rest wrest w :
  rd_script w = map RdData chunks ++ RdFail e :: rest ->
  would_block e = true ->
  Forall (fun c => c <> []) chunks ->
  Z.of_nat (length (concat chunks)) < BUFFER_SIZE ->
  wr_script w = map WrRoom rooms ++ WrFail e' :: wrest ->
  would_block e' = true ->
  room_total rooms < Z.of_nat (length (concat chunks)) ->
  all_succeed (ctl_script w) ->
  exists w',
    handle_readable epoll_fd fd w = Ret tt w' /\
    delivered fd (trace w') =
      delivered fd (trace w) ++
      take (Z.to_nat (room_total rooms)) (concat chunks) /\
    k_interest w' =
      <[fd := {| events := draining_events; data_fd := fd |}]> (k_interest w) /\
    k_open w' = k_open w /\
    pending w' = pending w /\
    rd_script w' = rest /\
    wr_script w' = wrest.
Proof.
  intros Hs He Hne Hlt Hws He' Hroom Hctl.
  pose proof (room_total_nonneg rooms) as Hnn.
  destruct (handler_fuel chunks Hne Hlt) as [k Hk].
  destruct (read_loop_accumulate epoll_fd fd chunks (S k) [] 0 w _ Hs Hne)
    as (tr & Htr & Heq); [lia | lia |].
  unfold handle_readable. rewrite Hk, Heq. cbn [app Z.add].
  rewrite (read_step_again _ _ _ _ _ _ e rest) by (done || lia).
  match goal with
  | |- context [echo_loop ?f _ _ ?buf ?tot 0 ?w0] =>
      destruct (echo_loop_blocks epoll_fd fd buf tot rooms e' wrest He' eq_refl
                  f 0 w0)
        as (w' & Heq' & Hdel & Hreg & Hopen & Hpend & Hrd & Hwr);
        [exact Hws | exact Hctl | lia | lia | lia |]
  end.
  exists w'. split; [exact Heq'|].
  split; [|by repeat split].
  rewrite Hdel. cbn -[delivered].
  rewrite !delivered_app, (reads_deliver_nothing fd tr Htr). simpl.
  rewrite !app_nil_r. unfold slice. by rewrite drop_0.
Qed.

(** C2, as the code has it.  The echo of [B] (the bytes of [chunks])
    blocks after [room_total rooms] bytes, on a connection that owes
    nothing yet.  The client has received that prefix of [B]; the rest
    of [B] is stored nowhere (the table of pending data is what it was),
    and the Writable event that follows finds no record to send from:
    the client never receives the rest. *)
Theorem partial_echo_remainder_lost
    listen_fd epoll_fd fd chunks rooms e e' rest wrest w :
  rd_script w = map RdData chunks ++ RdFail e :: rest ->
  would_block e = true ->
  Forall (fun c => c <> []) chunks ->
  Z.of_nat (length (concat chunks)) < BUFFER_SIZE ->
  wr_script w = map WrRoom rooms ++ WrFail e' :: wrest ->
  would_block e' = true ->
  room_total rooms < Z.of_nat (length (concat chunks)) ->
  all_succeed (ctl_script w) ->
  fd <> listen_fd ->
  pending w !! fd = None ->
  exists w1,
    handle_readable epoll_fd fd w = Ret tt w1 /\
    delivered fd (trace w1) =
      delivered fd (trace w) ++
      take (Z.to_nat (room_total rooms)) (concat chunks) /\
    pending w1 = pending w /\
    handle_event listen_fd epoll_fd (writable_event fd) w1 = Stop Faulted w1.
Proof.
  intros Hs He Hne Hlt Hws He' Hroom Hctl Hfd Hp.
  destruct (partial_echo epoll_fd fd chunks rooms e e' rest wrest w)
    as (w1 & Heq & Hdel & _ & _ & Hpend & _); try done.
  exists w1. repeat split; try done.
  unfold handle_event, writable_event. cbn [data_fd events].
  rewrite (proj2 (Z.eqb_neq _ _) Hfd).
  change (Z.land EPOLLOUT (Z.lor EPOLLRDHUP EPOLLHUP) =? 0) with true.
  change (Z.land EPOLLOUT EPOLLIN =? 0) with true.
  change (Z.land EPOLLOUT EPOLLOUT =? 0) with false.
  cbn [negb]. unfold handle_writable. unfold bind at 1, get_pending_data.
  by rewrite Hpend, Hp.
Qed.

Lemma partial_echo_remainder_lost_witness :
  exists w1,
    handle_readable 4 5 partial_world = Ret tt w1 /\
    delivered 5 (trace w1) =
      delivered 5 (trace partial_world) ++
      take (Z.to_nat (room_total [1%positive])) (concat [["h"; "i"]%byte]) /\
    pending w1 = pending partial_world /\
    handle_event 3 4 (writable_event 5) w1 = Stop Faulted w1.
Proof.
  apply (partial_echo_remainder_lost 3 4 5 [["h"; "i"]%byte] [1%positive]
           EAGAIN EAGAIN [] []).
  - reflexivity.
  - reflexivity.
  - repeat constructor; discriminate.
  - vm_compute; reflexivity.
  - reflexivity.
  - reflexivity.
  - vm_compute; reflexivity.
  - constructor.
  - discriminate.
  - vm_compute; reflexivity.
Defined.

(** C7, as the code has it.  After an echo that blocks half way the
    connection is open and registered for [draining_events], which
    include EPOLLOUT, and has no pending record: interest in Writable
    without pending output. *)
Theorem writable_interest_without_pending
    epoll_fd fd chunks rooms e e' rest wrest w :
  rd_script w = map RdData chunks ++ RdFail e :: rest ->
  would_block e = true ->
  Forall (fun c => c <> []) chunks ->
  Z.of_nat (length (concat chunks)) < BUFFER_SIZE ->
  wr_script w = map WrRoom rooms ++ WrFail e' :: wrest ->
  would_block e' = true ->
  room_total rooms < Z.of_nat (length (concat chunks)) ->
  all_succeed (ctl_script w) ->
  fd ∈ k_open w ->
  pending w !! fd = None ->
  exists w1,
    handle_readable epoll_fd fd w = Ret tt w1 /\
    (fd ∈ k_open w1) /\
    k_interest w1 !! fd =
      Some {| events := draining_events; data_fd := fd |} /\
    Z.land draining_events EPOLLOUT = EPOLLOUT /\
    pending w1 !! fd = None.
Proof.
  intros Hs He Hne Hlt Hws He' Hroom Hctl Hopen Hp.
  destruct (partial_echo epoll_fd fd chunks rooms e e' rest wrest w)
    as (w1 & Heq & _ & Hreg & Hopen1 & Hpend & _); try done.
  exists w1. split; [exact Heq|].
  split; [by rewrite Hopen1|].
  split; [rewrite Hreg; apply lookup_insert_eq|].
  split; [reflexivity | by rewrite Hpend].
Qed.

Lemma writable_interest_without_pending_witness :
  exists w1,
    handle_readable 4 5 partial_world = Ret tt w1 /\
    (5 ∈ k_open w1) /\
    k_interest w1 !! 5 = Some {| events := draining_events; data_fd := 5 |} /\
    Z.land draining_events EPOLLOUT = EPOLLOUT /\
    pending w1 !! 5 = None.
Proof.
  apply (writable_interest_without_pending 4 5 [["h"; "i"]%byte] [1%positive]
           EAGAIN EAGAIN [] []).
  - reflexivity.
  - reflexivity.
  - repeat constructor; discriminate.
  - vm_compute; reflexivity.
  - reflexivity.
  - reflexivity.
  - vm_compute; reflexivity.
  - constructor.
  - vm_compute; reflexivity.
  - vm_compute; reflexivity.
Defined.

(** The same state, reached from the start of the process: a connection
    is accepted, an accept that fails with ECONNABORTED ends the
    listener's round, the connection sends two bytes, and the echo
    blocks after one. *)
Lemma draining_reached_from_start :
  exists w',
    main 2 boot_ok
      [WaitReady [listener_ready]; WaitReady [readable_event 5]]
      draining_start = Stop Blocked w' /\
    (5 ∈ k_open w') /\
    k_interest w' !! 5 = Some {| events := draining_events; data_fd := 5 |} /\
    pending w' !! 5 = None.
Proof.
  eexists. split; [vm_compute; reflexivity|].
  split; [vm_compute; reflexivity | repeat split].
Qed.

(** ** What the handlers leave alone *)

Lemma keeps_ret {A B} (f : world -> B) (a : A) : keeps f (ret a).
Proof. intros w; reflexivity. Qed.

Lemma keeps_gets {A B} (f : world -> B) (g : world -> A) : keeps f (gets g).
Proof. intros w; reflexivity. Qed.

Lemma keeps_halt {A B} (f : world -> B) s : keeps f (@halt A s).
Proof. intros w; reflexivity. Qed.

Lemma keeps_bind {A B C} (f : world -> C) (m : M A) (k : A -> M B) :
  keeps f m -> (forall a, keeps f (k a)) -> keeps f (bind m k).
Proof.
  intros Hm Hk w. unfold bind. specialize (Hm w).
  destruct (m w) as [a w1|s w1]; simpl in *; [|exact Hm].
  by rewrite Hk.
Qed.

Lemma keeps_pending_read fd count : keeps pending (sys_read fd count).
Proof.
  intros w. unfold sys_read.
  destruct (rd_script w) as [|[bs| |e] rest]; reflexivity.
Qed.

Lemma keeps_pending_write fd data : keeps pending (sys_write fd data).
Proof.
  intros w. unfold sys_write. destruct data; [reflexivity|].
  destruct (wr_script w) as [|[r|e|] rest]; reflexivity.
Qed.

Lemma keeps_pending_close fd : keeps pending (sys_close fd).
Proof. intros w; reflexivity. Qed.

Lemma keeps_pending_epoll_ctl epoll_fd op fd ev :
  keeps pending (sys_epoll_ctl epoll_fd op fd ev).
Proof.
  intros w. unfold sys_epoll_ctl.
  destruct (ctl_script w) as [|[e|] rest]; reflexivity.
Qed.

Lemma keeps_pending_perror msg : keeps pending (perror msg).
Proof. intros w; reflexivity. Qed.

Lemma keeps_pending_printf fmt : keeps pending (printf fmt).
Proof. intros w; reflexivity. Qed.

Lemma keeps_pending_set_event ev : keeps pending (modify (set_event ev)).
Proof. intros w; reflexivity. Qed.

Create HintDb keeps.
#[local] Hint Resolve keeps_ret keeps_gets keeps_halt keeps_pending_read
  keeps_pending_write keeps_pending_close keeps_pending_epoll_ctl
  keeps_pending_perror keeps_pending_printf keeps_pending_set_event : keeps.

Ltac keeps_step :=
  lazymatch goal with
  | |- keeps _ (bind _ _) => apply keeps_bind; [|intros ?]
  | |- keeps _ (if ?c then _ else _) => destruct c
  | |- keeps _ (let _ := _ in _) => cbv zeta
  | |- keeps _ _ => solve [auto with keeps]
  end.

Lemma echo_loop_keeps_pending fuel epoll_fd fd buffer total_read :
  forall total_sent,
  keeps pending (echo_loop fuel epoll_fd fd buffer total_read total_sent).
Proof.
  induction fuel as [|fuel IH]; intros total_sent; simpl;
    repeat keeps_step.
Qed.

Lemma read_loop_keeps_pending fuel epoll_fd fd :
  forall buffer total_read,
  keeps pending (read_loop fuel epoll_fd fd buffer total_read).
Proof.
  induction fuel as [|fuel IH]; intros buffer total_read.
  - apply keeps_halt.
  - rewrite read_loop_S. repeat keeps_step.
    apply echo_loop_keeps_pending.
Qed.

(** The readable branch never stores anything for the writable branch
    to find: whatever the reads and writes do, the table behind
    get_pending_data is after the handler what it was before. *)
Lemma handle_readable_keeps_pending epoll_fd fd w :
  pending (world_of (handle_readable epoll_fd fd w)) = pending w.
Proof. apply read_loop_keeps_pending. Qed.

(** ** The writable branch *)

(** The pending bytes go out in one write: the record is freed and the
    interest set back to [reading_events].  The [data] of the new
    registration is whatever [event.data.fd] held. *)
Lemma drain_complete_restores_interest epoll_fd fd w pd r s :
  pending w !! fd = Some pd ->
  wr_script w = WrRoom r :: s ->
  0 <= sent_len pd < total_len pd ->
  total_len pd <= Z.of_nat (length (buf pd)) ->
  total_len pd - sent_len pd <= Z.pos r ->
  (forall e' cs, ctl_script w <> Some e' :: cs) ->
  exists w',
    handle_writable epoll_fd fd w = Ret tt w' /\
    delivered fd (trace w') =
      delivered fd (trace w) ++ drop (Z.to_nat (sent_len pd))
                                  (take (Z.to_nat (total_len pd)) (buf pd)) /\
    pending w' !! fd = None /\
    k_interest w' !! fd =
      Some {| events := reading_events; data_fd := data_fd (event w) |}.
Proof.
  intros Hp Hs Hc Hlen Hroom Hctl.
  unfold handle_writable. unfold bind at 1, get_pending_data. rewrite Hp.
  unfold bind at 1, sys_write.
  pose proof (slice_length (buf pd) (sent_len pd) (total_len pd - sent_len pd))
    as Hl.
  destruct (slice (buf pd) (sent_len pd) (total_len pd - sent_len pd))
    as [|b data] eqn:Ed.
  { simpl in Hl. lia. }
  rewrite Hs, <- Ed, take_slice.
  replace (Z.min (Z.of_nat (Pos.to_nat r)) (Z.max 0 (total_len pd - sent_len pd)))
    with (total_len pd - sent_len pd) by lia.
  rewrite slice_length by lia.
  replace (0 <? total_len pd - sent_len pd) with true
    by (symmetry; apply Z.ltb_lt; lia).
  cbv zeta. cbn [sent_len total_len buf].
  replace (sent_len pd + (total_len pd - sent_len pd) =? total_len pd) with true
    by (symmetry; apply Z.eqb_eq; lia).
  unfold free_pending_data. unfold bind, modify, gets, sys_epoll_ctl, ret.
  cbn [ctl_script set_event set_pending log set_wr_script event pending].
  destruct (ctl_script w) as [|[e'|] cs] eqn:Ec;
    [| by destruct (Hctl e' cs) |];
    (eexists; split; [reflexivity|]; cbn -[delivered];
     rewrite !delivered_app; cbn [delivered]; rewrite Z.eqb_refl, !app_nil_r;
     repeat split;
     [ f_equal; unfold slice; rewrite take_drop_commute; do 2 f_equal; lia
     | apply lookup_delete_eq
     | apply lookup_insert_eq ]).
Qed.




(** ** The accept loop *)

Lemma bind_ret_eq {A B} (m : M A) (k : A -> M B) w a w1 :
  m w = Ret a w1 -> bind m k w = k a w1.
Proof. intros H. unfold bind. by rewrite H. Qed.

Lemma all_succeed_tail script : all_succeed script -> all_succeed (tail script).
Proof. destruct 1; [constructor | assumption]. Qed.

Lemma sys_fcntl_getfl_ok fd w :
  all_succeed (fcntl_script w) ->
  sys_fcntl_getfl fd w =
  Ret (default 0 (k_flags w !! fd))
      (log (c_fcntl_getfl fd (default 0 (k_flags w !! fd)))
         (set_fcntl_script (tail (fcntl_script w)) w)).
Proof.
  intros H. unfold sys_fcntl_getfl.
  destruct H as [|o rest Ho _]; [reflexivity | by subst o].
Qed.

Lemma sys_fcntl_setfl_ok fd flags w :
  all_succeed (fcntl_script w) ->
  sys_fcntl_setfl fd flags w =
  Ret 0
      (log (c_fcntl_setfl fd flags 0)
         (set_flags (<[fd := flags]> (k_flags w))
            (set_fcntl_script (tail (fcntl_script w)) w))).
Proof.
  intros H. unfold sys_fcntl_setfl.
  destruct H as [|o rest Ho _]; [reflexivity | by subst o].
Qed.

Lemma sys_epoll_ctl_ok epoll_fd op fd ev w :
  all_succeed (ctl_script w) ->
  op <> EPOLL_CTL_DEL ->
  sys_epoll_ctl epoll_fd op fd ev w =
  Ret 0
      (log (c_epoll_ctl op fd ev 0)
         (set_interest (<[fd := ev]> (k_interest w))
            (set_ctl_script (tail (ctl_script w)) w))).
Proof.
  intros H Hop. unfold sys_epoll_ctl.
  rewrite (proj2 (Z.eqb_neq _ _) Hop).
  destruct H as [|o rest Ho _]; [reflexivity | by subst o].
Qed.

(** set_nonblocking on a descriptor for which fcntl does not fail. *)
Lemma set_nonblocking_ok fd flags w :
  all_succeed (fcntl_script w) ->
  k_flags w !! fd = Some flags ->
  flags <> -1 ->
  set_nonblocking fd w =
  Ret tt
      (log (c_fcntl_setfl fd (Z.lor flags O_NONBLOCK) 0)
         (set_flags (<[fd := Z.lor flags O_NONBLOCK]> (k_flags w))
            (set_fcntl_script (tail (tail (fcntl_script w)))
               (log (c_fcntl_getfl fd flags) w)))).
Proof.
  intros Hf Hfl Hne. unfold set_nonblocking.
  rewrite (bind_ret_eq _ _ _ _ _ (sys_fcntl_getfl_ok fd w Hf)).
  rewrite Hfl. cbn [default from_option id]. rewrite (proj2 (Z.eqb_neq _ _) Hne).
  rewrite (bind_ret_eq (ret tt) _ _ tt _ eq_refl).
  erewrite (bind_ret_eq (sys_fcntl_setfl _ _));
    [|apply sys_fcntl_setfl_ok; cbn; by apply all_succeed_tail].
  reflexivity.
Qed.

(** One turn of the loop for a connection that is accepted and for
    which neither fcntl nor epoll_ctl fails. *)
Lemma accept_step fuel listen_fd epoll_fd w c s :
  acc_script w = AccConn c :: s ->
  0 < c ->
  all_succeed (fcntl_script w) ->
  all_succeed (ctl_script w) ->
  exists w1 tr,
    accept_loop (S fuel) listen_fd epoll_fd w =
      accept_loop fuel listen_fd epoll_fd w1 /\
    acc_script w1 = s /\
    all_succeed (fcntl_script w1) /\
    all_succeed (ctl_script w1) /\
    k_open w1 = {[c]} ∪ k_open w /\
    k_interest w1 =
      <[c := {| events := reading_events; data_fd := c |}]> (k_interest w) /\
    k_flags w1 =
      <[c := Z.lor O_RDWR O_NONBLOCK]> (<[c := O_RDWR]> (k_flags w)) /\
    pending w1 = pending w /\
    trace w1 = trace w ++ tr /\
    List.filter is_close tr = [] /\
    length (List.filter is_accept tr) = 1%nat.
Proof.
  intros Hs Hc Hf Hctl. cbn [accept_loop].
  assert (Ha : sys_accept listen_fd w =
               Ret c (log (c_accept c)
                        (set_flags (<[c := O_RDWR]> (k_flags w))
                           (set_open ({[c]} ∪ k_open w) (set_acc_script s w)))))
    by (by apply sys_accept_conn).
  rewrite (bind_ret_eq _ _ _ _ _ Ha), (proj2 (Z.ltb_lt _ _) Hc).
  rewrite (bind_ret_eq (printf _) _ _ tt _ eq_refl).
  erewrite (bind_ret_eq (set_nonblocking c));
    [|apply (set_nonblocking_ok c O_RDWR);
      [exact Hf | apply lookup_insert_eq | discriminate]].
  rewrite (bind_ret_eq (modify _) _ _ tt _ eq_refl).
  rewrite (bind_ret_eq (gets _) _ _ _ _ eq_refl).
  erewrite (bind_ret_eq (sys_epoll_ctl _ _ _ _));
    [|apply sys_epoll_ctl_ok; [exact Hctl | discriminate]].
  cbn [Z.eqb]. rewrite (bind_ret_eq (ret tt) _ _ tt _ eq_refl).
  eexists _, _. split; [reflexivity|]. cbn.
  repeat split.
  - by do 2 apply all_succeed_tail.
  - by apply all_succeed_tail.
  - by rewrite <- !app_assoc.
  - reflexivity.
  - reflexivity.
Qed.

Lemma registered_after_step c w w1 fd :
  k_open w1 = {[c]} ∪ k_open w ->
  k_interest w1 =
    <[c := {| events := reading_events; data_fd := c |}]> (k_interest w) ->
  k_flags w1 = <[c := Z.lor O_RDWR O_NONBLOCK]> (<[c := O_RDWR]> (k_flags w)) ->
  fd = c \/ registered fd w ->
  registered fd w1.
Proof.
  intros Ho Hi Hfl H. unfold registered. rewrite Ho, Hi, Hfl.
  destruct (decide (fd = c)) as [->|Hne].
  - split; [apply elem_of_union; left; by apply elem_of_singleton|].
    split; [apply lookup_insert_eq|].
    eexists. split; [apply lookup_insert_eq | reflexivity].
  - destruct H as [?|(Hin & Hreg & fl & Hfl' & Hnb)]; [done|].
    split; [apply elem_of_union; by right|].
    split; [by rewrite lookup_insert_ne|].
    exists fl. by rewrite !lookup_insert_ne.
Qed.

(** The mode of a descriptor is not changed by what is done to
    another one. *)
Lemma nonblocking_after_step c w w1 fd :
  k_flags w1 = <[c := Z.lor O_RDWR O_NONBLOCK]> (<[c := O_RDWR]> (k_flags w)) ->
  fd <> c ->
  nonblocking fd w1 = nonblocking fd w.
Proof.
  intros Hfl Hne. unfold nonblocking. by rewrite Hfl, !lookup_insert_ne.
Qed.

(** The loop accepts the connections at the head of the queue one after
    the other and registers each of them; it then stands before the
    next accept. *)
Lemma accept_loop_prefix listen_fd epoll_fd fds :
  forall fuel w rest,
  acc_script w = map AccConn fds ++ rest ->
  Forall (fun fd => 0 < fd) fds ->
  all_succeed (fcntl_script w) ->
  all_succeed (ctl_script w) ->
  exists w1 tr,
    accept_loop (length fds + fuel) listen_fd epoll_fd w =
      accept_loop fuel listen_fd epoll_fd w1 /\
    acc_script w1 = rest /\
    all_succeed (fcntl_script w1) /\
    all_succeed (ctl_script w1) /\
    (forall fd, In fd fds \/ registered fd w -> registered fd w1) /\
    (forall fd, ~ In fd fds -> nonblocking fd w1 = nonblocking fd w) /\
    pending w1 = pending w /\
    trace w1 = trace w ++ tr /\
    List.filter is_close tr = [] /\
    length (List.filter is_accept tr) = length fds.
Proof.
  induction fds as [|c fds IH]; intros fuel w rest Hs Hpos Hf Hctl.
  - exists w, []. cbn [length Nat.add map app] in *.
    rewrite app_nil_r. split; [reflexivity|]. split; [exact Hs|].
    split; [exact Hf|]. split; [exact Hctl|].
    split; [intros x [[]|Hx]; exact Hx|]. by repeat split.
  - inversion Hpos as [|? ? Hc Hpos']; subst.
    cbn [length Nat.add].
    destruct (accept_step (length fds + fuel) listen_fd epoll_fd w c
                (map AccConn fds ++ rest) Hs Hc Hf Hctl)
      as (w1 & tr1 & Heq & Hs1 & Hf1 & Hctl1 & Ho & Hi & Hfl & Hp & Htr & Hcl & Hn).
    destruct (IH fuel w1 rest Hs1 Hpos' Hf1 Hctl1)
      as (w' & tr & Heq' & Hs' & Hf' & Hctl' & Hreg & Hnb & Hp' & Htr' & Hcl' & Hn').
    exists w', (tr1 ++ tr). rewrite Heq, Heq'.
    split; [reflexivity|]. split; [exact Hs'|].
    split; [exact Hf'|]. split; [exact Hctl'|].
    split; [|split; [|split; [congruence|split; [|split]]]].
    + intros x [[<-|Hin]|Hx]; apply Hreg.
      * right. eapply registered_after_step; eauto.
      * by left.
      * right. eapply registered_after_step; eauto.
    + intros x Hx. rewrite Hnb by (intros Hin; apply Hx; by right).
      apply (nonblocking_after_step c w); [exact Hfl|].
      intros ->. apply Hx. by left.
    + by rewrite Htr', Htr, app_assoc.
    + by rewrite List.filter_app, Hcl, Hcl'.
    + rewrite List.filter_app, length_app, Hn, Hn'. reflexivity.
Qed.

(** An accept that fails for another reason than EAGAIN ends the loop. *)
Lemma accept_loop_error fuel listen_fd epoll_fd w e rest :
  acc_script w = AccFail e :: rest ->
  would_block e = false ->
  accept_loop (S fuel) listen_fd epoll_fd w =
  Ret (-1) (log (c_accept (-1)) (set_errno e (set_acc_script rest w))).
Proof.
  intros Hs He. cbn [accept_loop].
  by rewrite (bind_ret_eq _ _ _ _ _ (sys_accept_error listen_fd w e rest Hs He)).
Qed.

(** On a blocking listener the accept that finds nothing pending, now
    or later, does not return: the loop is never left. *)
Lemma accept_loop_blocks fuel listen_fd epoll_fd w :
  nonblocking listen_fd w = false ->
  arrivals (acc_script w) = [] ->
  accept_loop (S fuel) listen_fd epoll_fd w = Stop BlockedInAccept w.
Proof.
  intros Hnb Hs. cbn [accept_loop]. unfold bind.
  by rewrite (sys_accept_blocks listen_fd w Hnb Hs).
Qed.

(** The loop accepts every connection that is pending and registers
    each of them, until accept fails. *)
Lemma accept_loop_registers_all listen_fd epoll_fd fds :
  forall fuel w e rest,
  acc_script w = map AccConn fds ++ AccFail e :: rest ->
  would_block e = false ->
  Forall (fun fd => 0 < fd) fds ->
  all_succeed (fcntl_script w) ->
  all_succeed (ctl_script w) ->
  (length fds < fuel)%nat ->
  exists w' tr,
    accept_loop fuel listen_fd epoll_fd w = Ret (-1) w' /\
    acc_script w' = rest /\
    errno w' = e /\
    (forall fd, In fd fds \/ registered fd w -> registered fd w') /\
    pending w' = pending w /\
    trace w' = trace w ++ tr /\
    List.filter is_close tr = [] /\
    length (List.filter is_accept tr) = S (length fds).
Proof.
  intros fuel w e rest Hs He Hpos Hf Hctl Hfuel.
  destruct (accept_loop_prefix listen_fd epoll_fd fds
              (fuel - length fds) w _ Hs Hpos Hf Hctl)
    as (w1 & tr & Heq & Hs1 & Hf1 & Hctl1 & Hreg & Hnb & Hp & Htr & Hcl & Hn).
  replace (length fds + (fuel - length fds))%nat with fuel in Heq by lia.
  destruct (fuel - length fds)%nat as [|k] eqn:Ek; [lia|].
  rewrite Heq, (accept_loop_error k _ _ _ e rest Hs1 He).
  eexists _, (tr ++ [c_accept (-1)]). split; [reflexivity|].
  cbn [acc_script errno pending trace log set_errno set_acc_script].
  split; [reflexivity|]. split; [reflexivity|].
  split.
  { intros fd Hfd. destruct (Hreg fd Hfd) as (Ho & Hi & Hfl). by split. }
  split; [exact Hp|]. split; [by rewrite Htr, app_assoc|].
  split; [rewrite List.filter_app, Hcl; reflexivity|].
  rewrite List.filter_app, length_app, Hn. cbn. lia.
Qed.

(** A round on the listener as main leaves it, in blocking mode: the
    pending connections are accepted and registered, and the accept
    that follows the last of them does not return. *)
Lemma listener_round_blocks listen_fd epoll_fd fds pauses w :
  nonblocking listen_fd w = false ->
  ~ In listen_fd fds ->
  acc_script w = map AccConn fds ++ pauses ->
  arrivals pauses = [] ->
  Forall (fun fd => 0 < fd) fds ->
  all_succeed (fcntl_script w) ->
  all_succeed (ctl_script w) ->
  exists w' tr,
    handle_listener listen_fd epoll_fd w = Stop BlockedInAccept w' /\
    (forall fd, In fd fds \/ registered fd w -> registered fd w') /\
    pending w' = pending w /\
    trace w' = trace w ++ tr /\
    List.filter is_close tr = [] /\
    length (List.filter is_accept tr) = length fds.
Proof.
  intros Hnb Hl Hs Hp Hpos Hf Hctl.
  destruct (accept_loop_prefix listen_fd epoll_fd fds (S (length pauses))
              w pauses Hs Hpos Hf Hctl)
    as (w1 & tr & Heq & Hs1 & Hf1 & Hctl1 & Hreg & Hnb1 & Hp1 & Htr & Hcl & Hn).
  unfold handle_listener.
  rewrite (bind_ret_eq (gets _) _ _ _ _ eq_refl).
  replace (S (length (acc_script w)))
    with (length fds + S (length pauses))%nat
    by (rewrite Hs, length_app, length_map; lia).
  unfold bind at 1. rewrite Heq, accept_loop_blocks.
  - exists w1, tr. split; [reflexivity|]. split; [exact Hreg|].
    split; [exact Hp1|]. split; [exact Htr|]. split; [exact Hcl|exact Hn].
  - rewrite (Hnb1 listen_fd Hl). exact Hnb.
  - by rewrite Hs1.
Qed.

(** C5, as the code has it.  One event on the listener, [fds] the
    connections pending at that time (and any that arrive later).  The
    loop accepts every one of them, and if no fcntl and no epoll_ctl
    fails each ends up open, non-blocking and registered for
    [reading_events] under its own descriptor, none closed.  But the
    loop is never left: main creates the listening socket in blocking
    mode and never changes that, so the accept that follows the last
    connection does not report that nothing is pending, it blocks, and
    the handler does not return to the event loop. *)
Theorem listener_event_registers_then_blocks
    listen_fd epoll_fd ev fds pauses w :
  data_fd ev = listen_fd ->
  nonblocking listen_fd w = false ->
  ~ In listen_fd fds ->
  acc_script w = map AccConn fds ++ pauses ->
  arrivals pauses = [] ->
  Forall (fun fd => 0 < fd) fds ->
  all_succeed (fcntl_script w) ->
  all_succeed (ctl_script w) ->
  exists w' tr,
    handle_event listen_fd epoll_fd ev w = Stop BlockedInAccept w' /\
    (forall fd, In fd fds -> registered fd w') /\
    trace w' = trace w ++ tr /\
    List.filter is_close tr = [] /\
    length (List.filter is_accept tr) = length fds.
Proof.
  intros Hev Hnb Hl Hs Hp Hpos Hf Hctl.
  unfold handle_event. rewrite Hev, Z.eqb_refl.
  destruct (listener_round_blocks listen_fd epoll_fd fds pauses w
              Hnb Hl Hs Hp Hpos Hf Hctl)
    as (w' & tr & Heq & Hreg & _ & Htr & Hcl & Hn).
  exists w', tr. split; [exact Heq|].
  split; [intros fd Hin; apply Hreg; by left|].
  split; [exact Htr|]. split; [exact Hcl|exact Hn].
Qed.

Lemma listener_event_registers_then_blocks_witness :
  exists w' tr,
    handle_event 3 4 listener_ready fifty_pending = Stop BlockedInAccept w' /\
    (forall fd, In fd (map Z.of_nat (seq 5 50)) -> registered fd w') /\
    trace w' = trace fifty_pending ++ tr /\
    List.filter is_close tr = [] /\
    length (List.filter is_accept tr) = length (map Z.of_nat (seq 5 50)).
Proof.
  apply (listener_event_registers_then_blocks 3 4 listener_ready
           (map Z.of_nat (seq 5 50)) [AccFail EAGAIN] fifty_pending).
  - reflexivity.
  - reflexivity.
  - vm_compute. intros H. repeat (destruct H as [H|H]; [discriminate H|]).
    exact H.
  - reflexivity.
  - reflexivity.
  - vm_compute. repeat constructor.
  - constructor.
  - constructor.
Defined.

(** ** The loops end within their fuel *)

Lemma sys_read_ret fd count w r w1 :
  sys_read fd count w = Ret r w1 ->
  fst r = -1 \/
  (0 <= fst r <= Z.max 0 count /\ fst r = Z.of_nat (length (snd r))).
Proof.
  unfold sys_read. intros H.
  destruct (rd_script w) as [|[bs| |e] rest]; injection H as <- <-; simpl;
    auto; right; rewrite ?length_take; lia.
Qed.

Lemma sys_write_ret fd data w sent w1 :
  sys_write fd data w = Ret sent w1 ->
  data <> [] ->
  sent = -1 \/ 1 <= sent <= Z.of_nat (length data).
Proof.
  unfold sys_write. intros H Hd.
  destruct data as [|b data']; [done|].
  destruct (wr_script w) as [|[r|e|] rest]; try discriminate H;
    injection H as H1 H2; subst sent; auto.
  right. rewrite length_take. simpl. lia.
Qed.

Lemma exit_no_spin {A} status : stops_in no_spin (@exit A status).
Proof. apply stops_in_halt. intros w. discriminate. Qed.

Lemma set_nonblocking_no_spin fd : stops_in no_spin (set_nonblocking fd).
Proof. unfold set_nonblocking. stops; apply exit_no_spin. Qed.

Lemma never_spins_ret {A} (m : M A) w a w1 : m w = Ret a w1 -> never_spins m w.
Proof. intros H w' H'. rewrite H in H'. discriminate H'. Qed.

Lemma never_spins_stops {A} (m : M A) w : stops_in no_spin m -> never_spins m w.
Proof. intros H w' H'. by apply (H _ _ _ H'). Qed.

Lemma never_spins_bind {A B} (m : M A) (k : A -> M B) w :
  stops_in no_spin m ->
  (forall a w1, m w = Ret a w1 -> never_spins (k a) w1) ->
  never_spins (bind m k) w.
Proof.
  intros Hm Hk w' H. unfold bind in H.
  destruct (m w) as [a w1|s w1] eqn:Em.
  - exact (Hk a w1 eq_refl w' H).
  - injection H as -> ->. by apply (Hm _ _ _ Em).
Qed.

Lemma never_spins_bind_keeps {A B C} (f : world -> C) (m : M A)
    (k : A -> M B) w :
  stops_in no_spin m ->
  keeps f m ->
  (forall a w1, f w1 = f w -> never_spins (k a) w1) ->
  never_spins (bind m k) w.
Proof.
  intros Hm Hf Hk. apply never_spins_bind; [exact Hm|].
  intros a w1 Hw. apply Hk. specialize (Hf w). by rewrite Hw in Hf.
Qed.

Lemma echo_loop_ends epoll_fd fd buffer total_read :
  total_read <= Z.of_nat (length buffer) ->
  forall fuel total_sent w,
  0 <= total_sent ->
  (Z.to_nat (total_read - total_sent) <= fuel)%nat ->
  never_spins (echo_loop fuel epoll_fd fd buffer total_read total_sent) w.
Proof.
  intros Hlen. induction fuel as [|fuel IH]; intros total_sent w Ht Hfuel.
  - apply (never_spins_ret _ _ tt w). apply echo_loop_done. lia.
  - cbn [echo_loop]. destruct (Z.ltb_spec total_sent total_read) as [Hlt|Hge];
      [|by apply (never_spins_ret _ _ tt w)].
    apply never_spins_bind; [auto with stops|].
    intros sent w1 Hw.
    apply sys_write_ret in Hw as [->|Hsent].
    + apply never_spins_stops. cbn [Z.eqb Pos.eqb]. stops.
    + rewrite slice_length in Hsent by lia.
      rewrite (proj2 (Z.eqb_neq _ _)) by lia.
      apply IH; lia.
    + intros E. apply (f_equal (fun l => Z.of_nat (length l))) in E.
      rewrite slice_length in E by lia. simpl in E. lia.
Qed.

Lemma read_loop_ends epoll_fd fd :
  forall fuel buffer total_read w,
  total_read = Z.of_nat (length buffer) ->
  total_read < BUFFER_SIZE ->
  (Z.to_nat (BUFFER_SIZE - total_read) <= fuel)%nat ->
  never_spins (read_loop fuel epoll_fd fd buffer total_read) w.
Proof.
  induction fuel as [|fuel IH]; intros buffer total_read w Hlen Hlt Hfuel;
    [lia|].
  rewrite read_loop_S.
  apply never_spins_bind; [auto with stops|].
  intros r w1 Hw. apply sys_read_ret in Hw as [Hr|[Hr Hl]]; cbv zeta.
  - rewrite Hr. cbn [Z.ltb Z.eqb Z.compare].
    apply never_spins_bind; [auto with stops|].
    intros e w2 _. destruct (would_block e);
      [|apply never_spins_stops; stops].
    destruct (0 <? total_read); [|apply never_spins_stops; stops].
    apply never_spins_bind; [auto with stops|].
    intros _ w3 _. apply echo_loop_ends; lia.
  - destruct (Z.ltb_spec 0 (fst r)) as [Hpos|Hle].
    + destruct (Z.eqb_spec (total_read + fst r) BUFFER_SIZE) as [Hfull|Hmore];
        [by apply (never_spins_ret _ _ tt w1)|].
      apply IH; [rewrite length_app; lia | lia | lia].
    + replace (fst r) with 0 by lia. cbn [Z.eqb].
      apply never_spins_stops. stops.
Qed.

(** What comes between two calls of accept leaves the accept script
    alone. *)
Lemma keeps_acc_getfl fd : keeps acc_script (sys_fcntl_getfl fd).
Proof.
  intros w. unfold sys_fcntl_getfl.
  destruct (fcntl_script w) as [|[e|] rest]; reflexivity.
Qed.

Lemma keeps_acc_setfl fd flags : keeps acc_script (sys_fcntl_setfl fd flags).
Proof.
  intros w. unfold sys_fcntl_setfl.
  destruct (fcntl_script w) as [|[e|] rest]; reflexivity.
Qed.

Lemma keeps_acc_epoll_ctl epoll_fd op fd ev :
  keeps acc_script (sys_epoll_ctl epoll_fd op fd ev).
Proof.
  intros w. unfold sys_epoll_ctl.
  destruct (ctl_script w) as [|[e|] rest]; reflexivity.
Qed.

Lemma keeps_acc_close fd : keeps acc_script (sys_close fd).
Proof. intros w; reflexivity. Qed.

Lemma keeps_acc_perror msg : keeps acc_script (perror msg).
Proof. intros w; reflexivity. Qed.

Lemma keeps_acc_printf fmt : keeps acc_script (printf fmt).
Proof. intros w; reflexivity. Qed.

Lemma keeps_acc_set_event ev : keeps acc_script (modify (set_event ev)).
Proof. intros w; reflexivity. Qed.

Lemma keeps_acc_exit {A} status : keeps acc_script (@exit A status).
Proof. intros w; reflexivity. Qed.

#[local] Hint Resolve keeps_acc_getfl keeps_acc_setfl keeps_acc_epoll_ctl
  keeps_acc_close keeps_acc_perror keeps_acc_printf keeps_acc_set_event
  keeps_acc_exit : keeps.

Lemma keeps_acc_set_nonblocking fd : keeps acc_script (set_nonblocking fd).
Proof. unfold set_nonblocking. repeat keeps_step. Qed.

Lemma accept_loop_ends listen_fd epoll_fd :
  forall fuel w,
  (length (acc_script w) < fuel)%nat ->
  never_spins (accept_loop fuel listen_fd epoll_fd) w.
Proof.
  induction fuel as [|fuel IH]; intros w Hfuel; [lia|].
  cbn [accept_loop].
  apply never_spins_bind; [auto with stops|].
  intros conn_fd w1 Hw.
  assert (Hlen : (length (acc_script w1) < fuel)%nat \/ conn_fd = -1).
  { destruct (sys_accept_result listen_fd w)
      as [(c & k & Hr & Hk)|[(e & k & Hr)|[Hr|Hr]]];
      rewrite Hr in Hw; try discriminate Hw;
      injection Hw as H1 H2; subst conn_fd w1; auto.
    left. cbn [acc_script log set_flags set_open set_acc_script].
    apply lookup_lt_Some in Hk. rewrite length_drop. lia. }
  destruct Hlen as [Hlen| ->]; [|by apply (never_spins_ret _ _ (-1) w1)].
  destruct (0 <? conn_fd); [|by apply (never_spins_ret _ _ conn_fd w1)].
  apply (never_spins_bind_keeps acc_script); [auto with stops | auto with keeps|].
  intros _ w2 E2.
  apply (never_spins_bind_keeps acc_script);
    [apply set_nonblocking_no_spin | apply keeps_acc_set_nonblocking|].
  intros _ w3 E3.
  apply (never_spins_bind_keeps acc_script); [auto with stops | auto with keeps|].
  intros _ w4 E4.
  apply (never_spins_bind_keeps acc_script); [auto with stops | auto with keeps|].
  intros ev w5 E5.
  apply (never_spins_bind_keeps acc_script); [auto with stops | auto with keeps|].
  intros r w6 E6.
  apply (never_spins_bind_keeps acc_script);
    [stops | repeat keeps_step|].
  intros _ w7 E7.
  apply IH. congruence.
Qed.

(** No event makes the model run out of fuel: the bounds given to the
    three loops are enough, and every handler ends. *)
Lemma handle_event_ends listen_fd epoll_fd ev w :
  never_spins (handle_event listen_fd epoll_fd ev) w.
Proof.
  unfold handle_event.
  destruct (_ =? listen_fd).
  - intros w' H. unfold handle_listener in H.
    rewrite (bind_ret_eq (gets _) _ _ _ _ eq_refl) in H.
    unfold bind at 1 in H.
    destruct (accept_loop _ _ _ w) as [conn_fd w2|s w2] eqn:El.
    + revert H. apply never_spins_stops. stops.
    + injection H as -> ->.
      exact (accept_loop_ends listen_fd epoll_fd _ w (Nat.lt_succ_diag_r _) _ El).
  - destruct (negb _); [apply never_spins_stops; stops|].
    destruct (negb _).
    + apply read_loop_ends; [reflexivity | reflexivity | unfold BUFFER_SIZE; lia].
    + destruct (negb _); [|by apply (never_spins_ret _ _ tt w)].
      apply never_spins_stops. unfold handle_writable, free_pending_data.
      apply stops_in_bind.
      * intros w0 s w' H. unfold get_pending_data in H.
        destruct (pending w0 !! data_fd ev); [discriminate H|].
        injection H as <- <-. discriminate.
      * intros pd. stops.
Qed.

Lemma handle_event_no_spin listen_fd epoll_fd ev :
  stops_in no_spin (handle_event listen_fd epoll_fd ev).
Proof. intros w s w' H ->. exact (handle_event_ends _ _ _ _ _ H). Qed.

Lemma for_each_event_no_spin listen_fd epoll_fd evs :
  stops_in no_spin (for_each_event listen_fd epoll_fd evs).
Proof.
  induction evs as [|ev evs IH]; simpl; stops.
  apply handle_event_no_spin.
Qed.

Lemma event_loop_no_spin listen_fd epoll_fd waits :
  stops_in no_spin (event_loop listen_fd epoll_fd waits).
Proof.
  induction waits as [|o waits IH]; simpl.
  - apply stops_in_halt. intros w. discriminate.
  - stops. apply for_each_event_no_spin.
Qed.

(** The whole run stays within the fuel of its loops: a run of main
    ends by an exit, by a return, by a fault in the writable branch, or
    waits for ever in epoll_wait. *)
Lemma main_never_spins argc b waits w : never_spins (main argc b waits) w.
Proof.
  apply never_spins_stops. unfold main, setup.
  stops; apply exit_no_spin || apply event_loop_no_spin.
Qed.

(** ** Containment: an event touches its own descriptor only *)

Lemma footprint_close fd fd' w :
  fd <> fd' ->
  footprint fd' (world_of (sys_close fd w)) = footprint fd' w.
Proof.
  intros Hne. unfold footprint. cbn.
  rewrite !lookup_delete_ne by done. do 2 f_equal.
  apply bool_decide_ext. rewrite elem_of_difference, elem_of_singleton.
  split; [by intros [? _] | intros ?; split; [done | congruence]].
Qed.

Lemma keeps_fp_close fd fd' : fd <> fd' -> keeps (footprint fd') (sys_close fd).
Proof. intros Hne w. by apply footprint_close. Qed.

Lemma keeps_fp_read fd' fd count : keeps (footprint fd') (sys_read fd count).
Proof.
  intros w. unfold sys_read.
  destruct (rd_script w) as [|[bs| |e] rest]; reflexivity.
Qed.

Lemma keeps_fp_write fd' fd data : keeps (footprint fd') (sys_write fd data).
Proof.
  intros w. unfold sys_write. destruct data; [reflexivity|].
  destruct (wr_script w) as [|[r|e|] rest]; reflexivity.
Qed.

Lemma keeps_fp_epoll_ctl fd' epoll_fd op fd ev :
  fd <> fd' -> keeps (footprint fd') (sys_epoll_ctl epoll_fd op fd ev).
Proof.
  intros Hne w. unfold sys_epoll_ctl, footprint.
  destruct (ctl_script w) as [|[e|] rest]; cbn; try reflexivity;
    destruct (op =? EPOLL_CTL_DEL);
    by rewrite ?lookup_delete_ne, ?lookup_insert_ne.
Qed.

Lemma keeps_fp_getfl fd' fd : keeps (footprint fd') (sys_fcntl_getfl fd).
Proof.
  intros w. unfold sys_fcntl_getfl.
  destruct (fcntl_script w) as [|[e|] rest]; reflexivity.
Qed.

Lemma keeps_fp_setfl fd' fd flags :
  fd <> fd' -> keeps (footprint fd') (sys_fcntl_setfl fd flags).
Proof.
  intros Hne w. unfold sys_fcntl_setfl, footprint.
  destruct (fcntl_script w) as [|[e|] rest]; cbn; try reflexivity;
    by rewrite lookup_insert_ne.
Qed.

Lemma keeps_fp_log fd' c : keeps (footprint fd') (modify (log c)).
Proof. intros w; reflexivity. Qed.

Lemma keeps_fp_set_event fd' ev : keeps (footprint fd') (modify (set_event ev)).
Proof. intros w; reflexivity. Qed.

Lemma keeps_fp_set_event_of fd' (f : world -> epoll_event) :
  keeps (footprint fd') (modify (fun w => set_event (f w) w)).
Proof. intros w; reflexivity. Qed.

Lemma keeps_fp_set_pending fd' (f : world -> gmap Z YourBuffer) :
  keeps (footprint fd') (modify (fun w => set_pending (f w) w)).
Proof. intros w; reflexivity. Qed.

Lemma keeps_fp_get_pending fd' fd : keeps (footprint fd') (get_pending_data fd).
Proof.
  intros w. unfold get_pending_data. destruct (pending w !! fd); reflexivity.
Qed.

Ltac keeps_fp :=
  repeat first
    [ keeps_step
    | apply keeps_fp_read | apply keeps_fp_write | apply keeps_fp_getfl
    | apply keeps_fp_log | apply keeps_fp_set_event
    | apply keeps_fp_set_event_of | apply keeps_fp_set_pending
    | apply keeps_fp_get_pending
    | apply keeps_fp_close; assumption
    | apply keeps_fp_epoll_ctl; assumption
    | apply keeps_fp_setfl; assumption ].

Lemma echo_loop_contained fd' fuel epoll_fd fd buffer total_read :
  fd <> fd' ->
  forall total_sent,
  keeps (footprint fd')
        (echo_loop fuel epoll_fd fd buffer total_read total_sent).
Proof.
  intros Hne. induction fuel as [|fuel IH]; intros total_sent; simpl;
    unfold perror; keeps_fp.
Qed.

Lemma read_loop_contained fd' fuel epoll_fd fd :
  fd <> fd' ->
  forall buffer total_read,
  keeps (footprint fd') (read_loop fuel epoll_fd fd buffer total_read).
Proof.
  intros Hne. induction fuel as [|fuel IH]; intros buffer total_read.
  - apply keeps_halt.
  - rewrite read_loop_S. unfold perror, printf. keeps_fp.
    by apply echo_loop_contained.
Qed.

Lemma handle_writable_contained fd' epoll_fd fd :
  fd <> fd' -> keeps (footprint fd') (handle_writable epoll_fd fd).
Proof.
  intros Hne. unfold handle_writable, free_pending_data. keeps_fp.
Qed.

(** Whatever happens while an event on a connection is handled (a read
    or write that fails, a change of interest that fails, a hang-up),
    every other descriptor stays open or closed, registered and flagged
    as it was: the teardown is the connection's own. *)
Lemma connection_event_contained listen_fd epoll_fd ev fd' w :
  data_fd ev <> listen_fd ->
  data_fd ev <> fd' ->
  footprint fd' (world_of (handle_event listen_fd epoll_fd ev w)) =
  footprint fd' w.
Proof.
  intros Hl Hne. revert w.
  change (keeps (footprint fd') (handle_event listen_fd epoll_fd ev)).
  unfold handle_event. rewrite (proj2 (Z.eqb_neq _ _) Hl).
  unfold printf, handle_readable. keeps_fp.
  - by apply read_loop_contained.
  - by apply handle_writable_contained.
Qed.

Lemma keeps_bind_pre {A B C D} (f : world -> C) (g : world -> D)
    (P : D -> Prop) (m : M A) (k : A -> M B) w :
  keeps f m -> keeps g m -> P (g w) ->
  (forall a w1, P (g w1) -> f (world_of (k a w1)) = f w1) ->
  f (world_of (bind m k w)) = f w.
Proof.
  intros Hf Hg HP Hk. unfold bind. specialize (Hf w). specialize (Hg w).
  destruct (m w) as [a w1|s w1]; cbn [world_of] in *; [|exact Hf].
  rewrite Hk; [exact Hf | by rewrite Hg].
Qed.

Lemma set_nonblocking_contained fd' fd :
  fd <> fd' -> keeps (footprint fd') (set_nonblocking fd).
Proof.
  intros Hne. unfold set_nonblocking, perror, exit. keeps_fp.
Qed.

(** The accept loop touches the descriptors it accepts, and no other. *)
Lemma accept_loop_contained fd' listen_fd epoll_fd :
  forall fuel w,
  (forall c, In (AccConn c) (acc_script w) -> c <> fd') ->
  footprint fd' (world_of (accept_loop fuel listen_fd epoll_fd w)) =
  footprint fd' w.
Proof.
  induction fuel as [|fuel IH]; intros w Hfresh; [reflexivity|].
  cbn [accept_loop]. unfold bind at 1.
  destruct (sys_accept_result listen_fd w)
    as [(c & k & Hr & Hk)|[(e & k & Hr)|[Hr|Hr]]];
    rewrite Hr; [|reflexivity..].
  assert (Hc : c <> fd')
    by (apply Hfresh; exact (lookup_in _ _ _ Hk)).
  set (rest := drop (S k) (acc_script w)).
  assert (Hrest : forall c', In (AccConn c') rest -> c' <> fd').
  { intros c' Hin. apply Hfresh.
    rewrite <- (take_drop (S k) (acc_script w)). apply in_or_app. by right. }
  match goal with
  | |- footprint fd' (world_of (_ ?w1)) = _ =>
      assert (Hw1 : footprint fd' w1 = footprint fd' w)
  end.
  { unfold footprint; cbn. rewrite lookup_insert_ne by done. do 2 f_equal.
    apply bool_decide_ext. rewrite elem_of_union, elem_of_singleton.
    split; [intros [?|?]; [congruence | done] | by right]. }
  rewrite <- Hw1. destruct (0 <? c); [|reflexivity].
  pose (P := fun s : list accept_outcome =>
               forall c', In (AccConn c') s -> c' <> fd').
  apply (keeps_bind_pre _ acc_script P);
    [unfold printf; keeps_fp | auto with keeps | exact Hrest |].
  intros _ w2 H2.
  apply (keeps_bind_pre _ acc_script P);
    [by apply set_nonblocking_contained | apply keeps_acc_set_nonblocking
    | exact H2 |].
  intros _ w3 H3.
  apply (keeps_bind_pre _ acc_script P);
    [keeps_fp | auto with keeps | exact H3 |].
  intros _ w4 H4.
  apply (keeps_bind_pre _ acc_script P);
    [keeps_fp | auto with keeps | exact H4 |].
  intros ev w5 H5.
  apply (keeps_bind_pre _ acc_script P);
    [keeps_fp | auto with keeps | exact H5 |].
  intros r w6 H6.
  apply (keeps_bind_pre _ acc_script P);
    [unfold perror; keeps_fp | repeat keeps_step | exact H6 |].
  intros _ w7 H7. by apply IH.
Qed.

(** A notification on the listener: whatever fails (an accept, a
    registration), only the descriptors accepted in this round are
    touched. *)
Lemma listener_event_contained listen_fd epoll_fd ev fd' w :
  data_fd ev = listen_fd ->
  (forall c, In (AccConn c) (acc_script w) -> c <> fd') ->
  footprint fd' (world_of (handle_event listen_fd epoll_fd ev w)) =
  footprint fd' w.
Proof.
  intros Hl Hfresh. unfold handle_event. rewrite Hl, Z.eqb_refl.
  unfold handle_listener.
  rewrite (bind_ret_eq (gets _) _ _ _ _ eq_refl).
  unfold bind at 1.
  pose proof (accept_loop_contained fd' listen_fd epoll_fd
                (S (length (acc_script w))) w Hfresh) as Hloop.
  destruct (accept_loop _ _ _ w) as [conn_fd w1|s w1]; cbn [world_of] in *;
    [|exact Hloop].
  rewrite <- Hloop.
  match goal with
  | |- footprint fd' (world_of (?m w1)) = _ =>
      assert (Hk : keeps (footprint fd') m) by (unfold perror; keeps_fp)
  end.
  apply Hk.
Qed.

(** A read that fails with ECONNRESET on connection 5 closes
    connection 5; connection 6 stays as it was. *)
Lemma read_error_leaves_neighbour :
  footprint 6
    (world_of (handle_event 3 4 (readable_event 5)
                 (set_rd_script [RdFail ECONNRESET]
                    (connected 6 (connected 5 idle_world))))) =
  footprint 6 (connected 6 (connected 5 idle_world)).
Proof.
  rewrite connection_event_contained by discriminate. reflexivity.
Qed.

(** A registration that fails while connection 7 is accepted closes
    descriptor 7; connection 6 stays as it was. *)
Lemma failed_registration_leaves_neighbour :
  footprint 6
    (world_of (handle_event 3 4 listener_ready
                 (set_ctl_script [Some ENOMEM]
                    (set_acc_script [AccConn 7] (connected 6 idle_world))))) =
  footprint 6 (connected 6 idle_world).
Proof.
  rewrite listener_event_contained; [reflexivity | reflexivity|].
  intros c [Hc|[]]. injection Hc as <-. discriminate.
Qed.

(** ** set_nonblocking *)

(** X1: when neither fcntl fails, set_nonblocking adds O_NONBLOCK to the
    file status flags of [fd] and changes nothing else: every other bit
    of the flags is kept, no other descriptor is touched, and a second
    call leaves the flags as the first one set them. *)
Theorem set_nonblocking_adds_flag fd flags w :
  all_succeed (fcntl_script w) ->
  k_flags w !! fd = Some flags ->
  0 <= flags ->
  exists w',
    set_nonblocking fd w = Ret tt w' /\
    k_flags w' = <[fd := Z.lor flags O_NONBLOCK]> (k_flags w) /\
    (forall i, Z.testbit (Z.lor flags O_NONBLOCK) i =
               Z.testbit flags i || (i =? 11)) /\
    k_open w' = k_open w /\
    k_interest w' = k_interest w /\
    exists w'',
      set_nonblocking fd w' = Ret tt w'' /\ k_flags w'' = k_flags w'.
Proof.
  intros Hf Hfl Hpos.
  rewrite (set_nonblocking_ok fd flags w Hf Hfl) by lia.
  eexists. split; [reflexivity|]. cbn [k_flags k_open k_interest log set_flags
                                        set_fcntl_script].
  split; [reflexivity|].
  split.
  { intros i. rewrite Z.lor_spec. f_equal.
    change O_NONBLOCK with (2 ^ 11). destruct (Z.eqb_spec i 11) as [->|Hne].
    - apply Z.pow2_bits_true. lia.
    - apply Z.pow2_bits_false. congruence. }
  split; [reflexivity|]. split; [reflexivity|].
  erewrite (set_nonblocking_ok fd (Z.lor flags O_NONBLOCK)).
  - eexists. split; [reflexivity|]. cbn [k_flags log set_flags set_fcntl_script].
    rewrite insert_insert_eq. f_equal.
    rewrite <- Z.lor_assoc, Z.lor_diag. reflexivity.
  - cbn. by do 2 apply all_succeed_tail.
  - cbn. apply lookup_insert_eq.
  - assert (0 <= Z.lor flags O_NONBLOCK) by (apply Z.lor_nonneg; unfold O_NONBLOCK; lia).
    lia.
Qed.

Lemma set_nonblocking_adds_flag_witness :
  exists w',
    set_nonblocking 5 (set_flags {[ 5 := O_RDWR ]} idle_world) = Ret tt w' /\
    k_flags w' = <[5 := Z.lor O_RDWR O_NONBLOCK]>
                   (k_flags (set_flags {[ 5 := O_RDWR ]} idle_world)) /\
    (forall i, Z.testbit (Z.lor O_RDWR O_NONBLOCK) i =
               Z.testbit O_RDWR i || (i =? 11)) /\
    k_open w' = k_open (set_flags {[ 5 := O_RDWR ]} idle_world) /\
    k_interest w' = k_interest (set_flags {[ 5 := O_RDWR ]} idle_world) /\
    exists w'',
      set_nonblocking 5 w' = Ret tt w'' /\ k_flags w'' = k_flags w'.
Proof.
  apply (set_nonblocking_adds_flag 5 O_RDWR (set_flags {[ 5 := O_RDWR ]} idle_world)).
  - constructor.
  - vm_compute; reflexivity.
  - vm_compute; discriminate.
Defined.

(** X2: when the first fcntl fails, or the first succeeds and the second
    fails, set_nonblocking ends the process with EXIT_FAILURE; the
    descriptor keeps the flags it had and is not closed. *)
Theorem set_nonblocking_failure_exits fd e rest w :
  fcntl_script w = Some e :: rest \/
  (fcntl_script w = None :: Some e :: rest /\
   default 0 (k_flags w !! fd) <> -1) ->
  exists w',
    set_nonblocking fd w = Stop (Exited EXIT_FAILURE) w' /\
    errno w' = e /\
    fcntl_failed w' /\
    k_flags w' = k_flags w /\
    k_open w' = k_open w /\
    k_interest w' = k_interest w.
Proof.
  intros [Hs|[Hs Hfl]]; unfold set_nonblocking.
  - unfold bind at 1, sys_fcntl_getfl. rewrite Hs. cbn [Z.eqb Pos.eqb].
    eexists. split; [reflexivity|]. cbn.
    repeat split. left. apply last_snoc.
  - unfold bind at 1, sys_fcntl_getfl. rewrite Hs.
    rewrite (proj2 (Z.eqb_neq _ _) Hfl).
    rewrite (bind_ret_eq (ret tt) _ _ tt _ eq_refl).
    unfold bind at 1, sys_fcntl_setfl. cbn [fcntl_script log set_fcntl_script tail].
    cbn [Z.eqb Pos.eqb].
    eexists. split; [reflexivity|]. cbn.
    repeat split. right. apply last_snoc.
Qed.

Lemma set_nonblocking_failure_exits_witness :
  exists w',
    set_nonblocking 5
      (set_fcntl_script [None; Some EBADF] (set_flags {[ 5 := O_RDWR ]} idle_world))
      = Stop (Exited EXIT_FAILURE) w' /\
    errno w' = EBADF /\
    fcntl_failed w' /\
    k_flags w' = k_flags (set_fcntl_script [None; Some EBADF]
                            (set_flags {[ 5 := O_RDWR ]} idle_world)) /\
    k_open w' = k_open (set_fcntl_script [None; Some EBADF]
                          (set_flags {[ 5 := O_RDWR ]} idle_world)) /\
    k_interest w' = k_interest (set_fcntl_script [None; Some EBADF]
                                  (set_flags {[ 5 := O_RDWR ]} idle_world)).
Proof.
  apply (set_nonblocking_failure_exits 5 EBADF []
           (set_fcntl_script [None; Some EBADF]
              (set_flags {[ 5 := O_RDWR ]} idle_world))).
  right. split; [reflexivity | vm_compute; discriminate].
Defined.

(** ** The set-up of main *)

Lemma unused_inv fd w :
  unused fd w ->
  (fd ∉ k_open w) /\ k_interest w !! fd = None /\ k_flags w !! fd = None.
Proof.
  unfold unused, footprint. intros H. injection H as Ho Hi Hf.
  split; [|done]. by apply bool_decide_eq_false in Ho.
Qed.

Lemma reopen_close (l : Z) (X : gset Z) : l ∉ X -> ({[l]} ∪ X) ∖ {[l]} = X.
Proof.
  intros Hl. apply set_eq. intros x.
  rewrite elem_of_difference, elem_of_union, elem_of_singleton.
  split; [intros [[?|?] ?]; [congruence | done]|].
  intros Hx. split; [by right | congruence].
Qed.

Lemma reopen_close2 (l e : Z) (X : gset Z) :
  l ∉ X -> e ∉ X -> (({[e]} ∪ ({[l]} ∪ X)) ∖ {[l]}) ∖ {[e]} = X.
Proof.
  intros Hl He. apply set_eq. intros x.
  rewrite !elem_of_difference, !elem_of_union, !elem_of_singleton.
  split; [intros [[[?|[?|?]] ?] ?]; [congruence | congruence | done]|].
  intros Hx. split; [split; [by right; right | congruence] | congruence].
Qed.

(** X3: a set-up that fails ends the process with EXIT_FAILURE and
    leaves nothing behind: whichever step fails, the descriptors opened
    before it are closed again, so the set of open descriptors, the
    epoll interest list and the file status flags are as they were
    before main started. *)
Theorem setup_failure_releases argc b w :
  setup_failed argc b w ->
  fresh_for_setup b w ->
  exists w',
    setup argc b w = Stop (Exited EXIT_FAILURE) w' /\
    k_open w' = k_open w /\
    k_interest w' = k_interest w /\
    k_flags w' = k_flags w.
Proof.
  intros Hfail [Hl He].
  apply unused_inv in Hl as (Hlo & Hli & Hlf).
  apply unused_inv in He as (Heo & Hei & Hef).
  revert Hfail.
  unfold setup, setup_failed.
  unfold printf, perror, exit, sys_close.
  unfold bind, sys_setup, ret, modify, gets, halt, sys_epoll_ctl.
  intros Hfail.
  destruct (Z.eqb_spec argc 2) as [->|Hargc]; cbn [negb];
    [|eexists; split; [reflexivity|done]].
  destruct (Z.eqb_spec (socket_ret b) (-1)) as [Hs|Hs].
  { eexists; split; [reflexivity|done]. }
  assert (Hrel :
            ({[socket_ret b]} ∪ k_open w) ∖ {[socket_ret b]} = k_open w /\
            delete (socket_ret b) (k_interest w) = k_interest w /\
            delete (socket_ret b) (k_flags w) = k_flags w).
  { rewrite reopen_close by done. by rewrite !delete_id. }
  destruct (Z.eqb_spec (setsockopt_ret b) (-1)) as [Ho|Ho].
  { eexists; split; [reflexivity|]. cbn. exact Hrel. }
  destruct (Z.eqb_spec (bind_ret b) (-1)) as [Hb|Hb].
  { eexists; split; [reflexivity|]. cbn. exact Hrel. }
  destruct (Z.eqb_spec (listen_ret b) (-1)) as [Hls|Hls].
  { eexists; split; [reflexivity|]. cbn. exact Hrel. }
  destruct (Z.eqb_spec (epoll_create1_ret b) (-1)) as [Hep|Hep].
  { eexists; split; [reflexivity|]. cbn. exact Hrel. }
  cbn [ctl_script log set_open set_event].
  destruct (ctl_script w) as [|[e|] rest] eqn:Ec.
  - exfalso. destruct Hfail as [?|[?|[?|[?|[?|[?|(e & r & ?)]]]]]]; congruence.
  - eexists; split; [reflexivity|]. cbn.
    rewrite reopen_close2 by done.
    rewrite (delete_id (k_interest w) (socket_ret b)) by done.
    rewrite (delete_id (k_flags w) (socket_ret b)) by done.
    by rewrite !delete_id.
  - exfalso. destruct Hfail as [?|[?|[?|[?|[?|[?|(e & r & ?)]]]]]]; congruence.
Qed.

Lemma setup_failure_releases_witness :
  exists w',
    setup 2 boot_ok (set_ctl_script [Some ENOMEM] idle_world)
      = Stop (Exited EXIT_FAILURE) w' /\
    k_open w' = k_open (set_ctl_script [Some ENOMEM] idle_world) /\
    k_interest w' = k_interest (set_ctl_script [Some ENOMEM] idle_world) /\
    k_flags w' = k_flags (set_ctl_script [Some ENOMEM] idle_world).
Proof.
  apply (setup_failure_releases 2 boot_ok
           (set_ctl_script [Some ENOMEM] idle_world)).
  - do 6 right. exists ENOMEM, []. reflexivity.
  - split; vm_compute; reflexivity.
Defined.

(** X4: a set-up in which no step fails opens the listener and the
    epoll instance and registers the listener for EPOLLIN | EPOLLET
    under its own descriptor.  It calls fcntl on nothing: the file
    status flags of every descriptor, the listener's among them, are
    left as they were, so the listener is not put in non-blocking
    mode. *)
Theorem setup_registers_listener argc b w :
  ~ setup_failed argc b w ->
  exists w',
    setup argc b w = Ret (socket_ret b, epoll_create1_ret b) w' /\
    k_open w' = {[epoll_create1_ret b]} ∪ ({[socket_ret b]} ∪ k_open w) /\
    k_interest w' =
      <[socket_ret b := {| events := Z.lor EPOLLIN EPOLLET;
                           data_fd := socket_ret b |}]> (k_interest w) /\
    k_flags w' = k_flags w /\
    List.filter is_fcntl (trace w') = List.filter is_fcntl (trace w).
Proof.
  unfold setup, setup_failed.
  unfold printf, perror, exit, sys_close.
  unfold bind, sys_setup, ret, modify, gets, halt, sys_epoll_ctl.
  intros Hok.
  destruct (Z.eqb_spec argc 2) as [->|Hargc]; cbn [negb]; [|tauto].
  destruct (Z.eqb_spec (socket_ret b) (-1)) as [Hs|Hs]; [tauto|].
  destruct (Z.eqb_spec (setsockopt_ret b) (-1)) as [Ho|Ho]; [tauto|].
  destruct (Z.eqb_spec (bind_ret b) (-1)) as [Hb|Hb]; [tauto|].
  destruct (Z.eqb_spec (listen_ret b) (-1)) as [Hls|Hls]; [tauto|].
  destruct (Z.eqb_spec (epoll_create1_ret b) (-1)) as [Hep|Hep]; [tauto|].
  cbn [ctl_script log set_open set_event].
  destruct (ctl_script w) as [|[e|] rest] eqn:Ec.
  - eexists; split; [reflexivity|]. cbn.
    repeat split. rewrite !List.filter_app. cbn. by rewrite !app_nil_r.
  - exfalso. apply Hok. do 6 right. eauto.
  - eexists; split; [reflexivity|]. cbn.
    repeat split. rewrite !List.filter_app. cbn. by rewrite !app_nil_r.
Qed.

Lemma setup_registers_listener_witness :
  exists w',
    setup 2 boot_ok idle_world = Ret (socket_ret boot_ok, epoll_create1_ret boot_ok) w' /\
    k_open w' = {[epoll_create1_ret boot_ok]} ∪ ({[socket_ret boot_ok]} ∪ k_open idle_world) /\
    k_interest w' =
      <[socket_ret boot_ok := {| events := Z.lor EPOLLIN EPOLLET;
                           data_fd := socket_ret boot_ok |}]> (k_interest idle_world) /\
    k_flags w' = k_flags idle_world /\
    List.filter is_fcntl (trace w') = List.filter is_fcntl (trace idle_world).
Proof.
  apply (setup_registers_listener 2 boot_ok idle_world).
  intros [H|[H|[H|[H|[H|[H|(e & r & H)]]]]]]; discriminate H || (by apply H).
Defined.

(** ** Failures in the readable branch *)

Lemma echo_step_error fuel epoll_fd fd buffer total_read total_sent w e s :
  wr_script w = WrFail e :: s ->
  would_block e = false ->
  0 <= total_sent < total_read ->
  total_read <= Z.of_nat (length buffer) ->
  echo_loop (S fuel) epoll_fd fd buffer total_read total_sent w =
  (perror "write" ;; sys_close fd)
    (log (c_write fd [] (-1)) (set_errno e (set_wr_script s w))).
Proof.
  intros Hs He Ht Hlen. cbn [echo_loop].
  rewrite (proj2 (Z.ltb_lt _ _) (proj2 Ht)).
  unfold bind at 1, sys_write.
  pose proof (slice_length buffer total_sent (total_read - total_sent)) as Hl.
  destruct (slice buffer total_sent (total_read - total_sent)) as [|b data] eqn:Ed.
  { simpl in Hl. lia. }
  rewrite Hs. cbn [Z.eqb Pos.eqb].
  unfold bind at 1, gets. cbn [errno log set_errno]. rewrite He.
  reflexivity.
Qed.

Lemma echo_step_mod_fails fuel epoll_fd fd buffer total_read total_sent w e s
    e' cs :
  wr_script w = WrFail e :: s ->
  would_block e = true ->
  ctl_script w = Some e' :: cs ->
  0 <= total_sent < total_read ->
  total_read <= Z.of_nat (length buffer) ->
  echo_loop (S fuel) epoll_fd fd buffer total_read total_sent w =
  (perror "epoll_ctl EPOLL_CTL_MOD" ;; sys_close fd)
    (log (c_epoll_ctl EPOLL_CTL_MOD fd
            {| events := draining_events; data_fd := fd |} (-1))
       (set_errno e'
          (set_ctl_script cs
             (set_event {| events := draining_events; data_fd := fd |}
                (log (c_write fd [] (-1))
                   (set_errno e (set_wr_script s w))))))).
Proof.
  intros Hs He Hc Ht Hlen. cbn [echo_loop].
  rewrite (proj2 (Z.ltb_lt _ _) (proj2 Ht)).
  unfold bind at 1, sys_write.
  pose proof (slice_length buffer total_sent (total_read - total_sent)) as Hl.
  destruct (slice buffer total_sent (total_read - total_sent)) as [|b data] eqn:Ed.
  { simpl in Hl. lia. }
  rewrite Hs. cbn [Z.eqb Pos.eqb].
  unfold bind at 1, gets. cbn [errno log set_errno]. rewrite He.
  unfold bind at 1, modify. unfold bind at 1. unfold bind at 1, sys_epoll_ctl.
  cbn [ctl_script set_event log set_errno set_wr_script event].
  rewrite Hc. reflexivity.
Qed.

Lemma rooms_count rooms : Z.of_nat (length rooms) <= room_total rooms.
Proof. induction rooms as [|r rooms IH]; simpl; lia. Qed.

(** The writes that the send queue has room for, when they do not
    exhaust the buffer: the loop goes on behind the bytes they took. *)
Lemma echo_loop_advance epoll_fd fd buffer total_read rooms :
  total_read = Z.of_nat (length buffer) ->
  forall fuel total_sent w s,
  wr_script w = map WrRoom rooms ++ s ->
  0 <= total_sent ->
  total_sent + room_total rooms < total_read ->
  exists tr,
    Forall (fun c => is_write c = true) tr /\
    delivered fd tr = slice buffer total_sent (room_total rooms) /\
    echo_loop (length rooms + fuel) epoll_fd fd buffer total_read total_sent w =
    echo_loop fuel epoll_fd fd buffer total_read (total_sent + room_total rooms)
      (set_trace (trace w ++ tr) (set_wr_script s w)).
Proof.
  intros Hlen. induction rooms as [|r rooms IH];
    intros fuel total_sent w s Hs Ht Hroom; simpl in Hs, Hroom.
  - exists []. split; [constructor|]. split; [reflexivity|].
    cbn [length room_total Nat.add]. rewrite Z.add_0_r. f_equal.
    destruct w; unfold set_trace, set_wr_script; simpl in *.
    by rewrite app_nil_r, Hs.
  - pose proof (room_total_nonneg rooms) as Hnn.
    cbn [length Nat.add].
    rewrite (echo_step_room _ _ _ _ _ _ _ r (map WrRoom rooms ++ s))
      by (done || lia).
    replace (Z.min (Z.pos r) (total_read - total_sent)) with (Z.pos r) by lia.
    edestruct (IH fuel (total_sent + Z.pos r)
                 (log (c_write fd (slice buffer total_sent (Z.pos r)) (Z.pos r))
                    (set_wr_script (map WrRoom rooms ++ s) w)) s)
      as (tr & Htr & Hdel & Heq); [reflexivity | lia | lia |].
    exists (c_write fd (slice buffer total_sent (Z.pos r)) (Z.pos r) :: tr).
    split; [by constructor|]. split.
    + cbn [delivered]. rewrite Z.eqb_refl, Hdel. apply slice_snoc; lia.
    + rewrite Heq. cbn [room_total]. rewrite Z.add_assoc. f_equal.
      unfold set_trace, set_wr_script, log; simpl. by rewrite <- app_assoc.
Qed.

(** The readable branch up to the echo: the segments are read, read
    reports that it would block, and the echo loop starts on them. *)
Lemma read_then_echo epoll_fd fd chunks e rest w :
  rd_script w = map RdData chunks ++ RdFail e :: rest ->
  would_block e = true ->
  Forall (fun c => c <> []) chunks ->
  0 < Z.of_nat (length (concat chunks)) < BUFFER_SIZE ->
  exists tr,
    Forall (fun c => is_read c = true) tr /\
    handle_readable epoll_fd fd w =
    echo_loop (length (concat chunks)) epoll_fd fd (concat chunks)
      (Z.of_nat (length (concat chunks))) 0
      (set_errno e
         (set_trace (trace w ++ tr ++ [c_printf "Received %zd bytes: %.*s\n"])
            (set_rd_script rest w))).
Proof.
  intros Hs He Hne Hlt.
  destruct (handler_fuel chunks Hne (proj2 Hlt)) as [k Hk].
  destruct (read_loop_accumulate epoll_fd fd chunks (S k) [] 0 w _ Hs Hne)
    as (tr & Htr & Heq); [lia | lia |].
  unfold handle_readable. rewrite Hk, Heq. cbn [app Z.add].
  rewrite (read_step_again _ _ _ _ _ _ e rest) by (done || lia).
  rewrite Z.add_0_l, Nat2Z.id.
  exists (tr ++ [c_read fd (BUFFER_SIZE - Z.of_nat (length (concat chunks))) (-1)]).
  split.
  - apply Forall_app. split; [exact Htr | by repeat constructor].
  - f_equal. unfold set_trace, set_rd_script, set_errno, log; simpl.
    by rewrite <- !app_assoc.
Qed.

(** X5: a read that fails for another reason than EAGAIN ends the round
    at once: perror, then close.  The bytes read before it in the same
    round are dropped, not echoed: no write is made, and nothing of the
    connection is left with the kernel. *)
Theorem read_error_drops_input epoll_fd fd chunks e rest w :
  rd_script w = map RdData chunks ++ RdFail e :: rest ->
  would_block e = false ->
  Forall (fun c => c <> []) chunks ->
  Z.of_nat (length (concat chunks)) < BUFFER_SIZE ->
  exists w' tr,
    handle_readable epoll_fd fd w = Ret tt w' /\
    trace w' = trace w ++ tr ++ [c_perror "read"; c_close fd] /\
    Forall (fun c => is_read c = true) tr /\
    delivered fd (trace w') = delivered fd (trace w) /\
    (fd ∉ k_open w') /\
    k_interest w' !! fd = None /\
    k_flags w' !! fd = None /\
    errno w' = e /\
    rd_script w' = rest /\
    wr_script w' = wr_script w.
Proof.
  intros Hs He Hne Hlt.
  destruct (handler_fuel chunks Hne Hlt) as [k Hk].
  destruct (read_loop_accumulate epoll_fd fd chunks (S k) [] 0 w _ Hs Hne)
    as (tr & Htr & Heq); [lia | lia |].
  unfold handle_readable. rewrite Hk, Heq.
  rewrite (read_step_error _ _ _ _ _ _ e rest) by done.
  eexists.
  exists (tr ++ [c_read fd (BUFFER_SIZE - (0 + Z.of_nat (length (concat chunks))))
                   (-1)]).
  split; [reflexivity|].
  cbn -[delivered].
  split; [by rewrite <- !app_assoc|].
  split; [apply Forall_app; split; [exact Htr | by repeat constructor]|].
  split.
  { rewrite !delivered_app, (reads_deliver_nothing fd tr Htr). simpl.
    by rewrite !app_nil_r. }
  repeat split.
  - apply not_elem_of_difference; right; by apply elem_of_singleton.
  - apply lookup_delete_eq.
  - apply lookup_delete_eq.
Qed.

Lemma read_error_drops_input_witness :
  exists w' tr,
    handle_readable 4 5
      (set_rd_script [RdData ["h"; "i"]%byte; RdFail ECONNRESET]
         (set_wr_script [WrRoom 8] (connected 5 idle_world))) = Ret tt w' /\
    trace w' = [] ++ tr ++ [c_perror "read"; c_close 5] /\
    Forall (fun c => is_read c = true) tr /\
    delivered 5 (trace w') = [] /\
    (5 ∉ k_open w') /\
    k_interest w' !! 5 = None /\
    k_flags w' !! 5 = None /\
    errno w' = ECONNRESET /\
    rd_script w' = [] /\
    wr_script w' = [WrRoom 8].
Proof.
  apply (read_error_drops_input 4 5 [["h"; "i"]%byte] ECONNRESET []).
  - reflexivity.
  - reflexivity.
  - repeat constructor; discriminate.
  - unfold BUFFER_SIZE; simpl; lia.
Defined.

(** X6: a write of the echo that fails for another reason than EAGAIN
    ends the echo: perror, then close.  The client has received the
    bytes that the earlier writes took, a prefix of what it sent; the
    connection is closed and off the interest list, and no epoll_ctl is
    made for it. *)
Theorem write_error_closes epoll_fd fd chunks rooms e e' rest wrest w :
  rd_script w = map RdData chunks ++ RdFail e :: rest ->
  would_block e = true ->
  Forall (fun c => c <> []) chunks ->
  Z.of_nat (length (concat chunks)) < BUFFER_SIZE ->
  wr_script w = map WrRoom rooms ++ WrFail e' :: wrest ->
  would_block e' = false ->
  room_total rooms < Z.of_nat (length (concat chunks)) ->
  exists w',
    handle_readable epoll_fd fd w = Ret tt w' /\
    delivered fd (trace w') =
      delivered fd (trace w) ++
      take (Z.to_nat (room_total rooms)) (concat chunks) /\
    (exists reads writes,
       Forall (fun c => is_read c = true) reads /\
       Forall (fun c => is_write c = true) writes /\
       trace w' =
         trace w ++ reads ++ c_printf "Received %zd bytes: %.*s\n" ::
         writes ++ [c_perror "write"; c_close fd]) /\
    (fd ∉ k_open w') /\
    k_interest w' = delete fd (k_interest w) /\
    ctl_script w' = ctl_script w /\
    errno w' = e' /\
    wr_script w' = wrest.
Proof.
  intros Hs He Hne Hlt Hws He' Hroom.
  pose proof (room_total_nonneg rooms) as Hnn.
  pose proof (rooms_count rooms) as Hcnt.
  destruct (read_then_echo epoll_fd fd chunks e rest w Hs He Hne)
    as (tr & Htr & Heq); [lia|].
  assert (Hfuel : exists k,
            length (concat chunks) = (length rooms + S k)%nat)
    by (exists (length (concat chunks) - length rooms - 1)%nat; lia).
  destruct Hfuel as [k Hk].
  edestruct (echo_loop_advance epoll_fd fd (concat chunks) _ rooms
               eq_refl (S k) 0
               (set_errno e
                  (set_trace
                     (trace w ++ tr ++ [c_printf "Received %zd bytes: %.*s\n"])
                     (set_rd_script rest w))))
    as (tr' & Htr' & Hdel & Heq'); [exact Hws | lia | lia |].
  rewrite <- Hk in Heq'. rewrite Heq, Heq'. clear Heq Heq'.
  rewrite (echo_step_error _ _ _ _ _ _ _ e' wrest) by (done || lia).
  eexists. split; [reflexivity|].
  cbn -[delivered].
  split.
  { rewrite !delivered_app, (reads_deliver_nothing fd tr Htr), Hdel.
    cbn [delivered]. rewrite Z.eqb_refl, !app_nil_r.
    unfold slice. by rewrite drop_0. }
  split.
  { exists tr, (tr' ++ [c_write fd [] (-1)]).
    split; [exact Htr|].
    split; [apply Forall_app; split; [exact Htr' | by repeat constructor]|].
    rewrite <- !app_assoc. reflexivity. }
  repeat split.
  apply not_elem_of_difference; right; by apply elem_of_singleton.
Qed.

Lemma write_error_closes_witness :
  exists w',
    handle_readable 4 5 broken_pipe_world = Ret tt w' /\
    delivered 5 (trace w') =
      delivered 5 (trace broken_pipe_world) ++
      take (Z.to_nat (room_total [2%positive])) (concat [["h"; "e"; "y"]%byte]) /\
    (exists reads writes,
       Forall (fun c => is_read c = true) reads /\
       Forall (fun c => is_write c = true) writes /\
       trace w' =
         trace broken_pipe_world ++ reads ++
         c_printf "Received %zd bytes: %.*s\n" ::
         writes ++ [c_perror "write"; c_close 5]) /\
    (5 ∉ k_open w') /\
    k_interest w' = delete 5 (k_interest broken_pipe_world) /\
    ctl_script w' = ctl_script broken_pipe_world /\
    errno w' = EPIPE /\
    wr_script w' = [].
Proof.
  apply (write_error_closes 4 5 [["h"; "e"; "y"]%byte] [2%positive]
           EAGAIN EPIPE [] [] broken_pipe_world).
  - reflexivity.
  - reflexivity.
  - repeat constructor; discriminate.
  - unfold BUFFER_SIZE; simpl; lia.
  - reflexivity.
  - reflexivity.
  - simpl; lia.
Defined.

(** X7: the send queue is full and the change of interest to EPOLLOUT
    fails: perror, then close.  The connection is not left registered
    for an interest that was never set; the client has received the
    prefix that the earlier writes took. *)
Theorem failed_mod_closes epoll_fd fd chunks rooms e e' e'' rest wrest crest w :
  rd_script w = map RdData chunks ++ RdFail e :: rest ->
  would_block e = true ->
  Forall (fun c => c <> []) chunks ->
  Z.of_nat (length (concat chunks)) < BUFFER_SIZE ->
  wr_script w = map WrRoom rooms ++ WrFail e' :: wrest ->
  would_block e' = true ->
  room_total rooms < Z.of_nat (length (concat chunks)) ->
  ctl_script w = Some e'' :: crest ->
  exists w',
    handle_readable epoll_fd fd w = Ret tt w' /\
    delivered fd (trace w') =
      delivered fd (trace w) ++
      take (Z.to_nat (room_total rooms)) (concat chunks) /\
    (exists reads writes,
       Forall (fun c => is_read c = true) reads /\
       Forall (fun c => is_write c = true) writes /\
       trace w' =
         trace w ++ reads ++ c_printf "Received %zd bytes: %.*s\n" ::
         writes ++
         [c_epoll_ctl EPOLL_CTL_MOD fd
            {| events := draining_events; data_fd := fd |} (-1);
          c_perror "epoll_ctl EPOLL_CTL_MOD"; c_close fd]) /\
    (fd ∉ k_open w') /\
    k_interest w' = delete fd (k_interest w) /\
    errno w' = e'' /\
    pending w' = pending w.
Proof.
  intros Hs He Hne Hlt Hws He' Hroom Hctl.
  pose proof (room_total_nonneg rooms) as Hnn.
  pose proof (rooms_count rooms) as Hcnt.
  destruct (read_then_echo epoll_fd fd chunks e rest w Hs He Hne)
    as (tr & Htr & Heq); [lia|].
  assert (Hfuel : exists k,
            length (concat chunks) = (length rooms + S k)%nat)
    by (exists (length (concat chunks) - length rooms - 1)%nat; lia).
  destruct Hfuel as [k Hk].
  edestruct (echo_loop_advance epoll_fd fd (concat chunks) _ rooms
               eq_refl (S k) 0
               (set_errno e
                  (set_trace
                     (trace w ++ tr ++ [c_printf "Received %zd bytes: %.*s\n"])
                     (set_rd_script rest w))))
    as (tr' & Htr' & Hdel & Heq'); [exact Hws | lia | lia |].
  rewrite <- Hk in Heq'. rewrite Heq, Heq'. clear Heq Heq'.
  rewrite (echo_step_mod_fails _ _ _ _ _ _ _ e' wrest e'' crest)
    by (done || lia).
  eexists. split; [reflexivity|].
  cbn -[delivered].
  split.
  { rewrite !delivered_app, (reads_deliver_nothing fd tr Htr), Hdel.
    cbn [delivered]. rewrite Z.eqb_refl, !app_nil_r.
    unfold slice. by rewrite drop_0. }
  split.
  { exists tr, (tr' ++ [c_write fd [] (-1)]).
    split; [exact Htr|].
    split; [apply Forall_app; split; [exact Htr' | by repeat constructor]|].
    rewrite <- !app_assoc. reflexivity. }
  repeat split.
  apply not_elem_of_difference; right; by apply elem_of_singleton.
Qed.

Lemma failed_mod_closes_witness :
  exists w',
    handle_readable 4 5 full_queue_world = Ret tt w' /\
    delivered 5 (trace w') =
      delivered 5 (trace full_queue_world) ++
      take (Z.to_nat (room_total [2%positive])) (concat [["h"; "e"; "y"]%byte]) /\
    (exists reads writes,
       Forall (fun c => is_read c = true) reads /\
       Forall (fun c => is_write c = true) writes /\
       trace w' =
         trace full_queue_world ++ reads ++
         c_printf "Received %zd bytes: %.*s\n" ::
         writes ++
         [c_epoll_ctl EPOLL_CTL_MOD 5
            {| events := draining_events; data_fd := 5 |} (-1);
          c_perror "epoll_ctl EPOLL_CTL_MOD"; c_close 5]) /\
    (5 ∉ k_open w') /\
    k_interest w' = delete 5 (k_interest full_queue_world) /\
    errno w' = ENOMEM /\
    pending w' = pending full_queue_world.
Proof.
  apply (failed_mod_closes 4 5 [["h"; "e"; "y"]%byte] [2%positive]
           EAGAIN EAGAIN ENOMEM [] [] [] full_queue_world).
  - reflexivity.
  - reflexivity.
  - repeat constructor; discriminate.
  - unfold BUFFER_SIZE; simpl; lia.
  - reflexivity.
  - reflexivity.
  - simpl; lia.
  - reflexivity.
Defined.

(** ** What a Readable round sends, whatever the network does *)

(** Calls other than write leave what the peer of [fd] has received
    as it is. *)
Lemma keeps_sent_log fd c :
  is_write c = false -> keeps (fun w => delivered fd (trace w)) (modify (log c)).
Proof.
  intros Hc w. cbn. rewrite delivered_app.
  destruct c; try discriminate Hc; cbn; by rewrite app_nil_r.
Qed.

Lemma keeps_sent_perror fd msg :
  keeps (fun w => delivered fd (trace w)) (perror msg).
Proof. by apply keeps_sent_log. Qed.

Lemma keeps_sent_printf fd fmt :
  keeps (fun w => delivered fd (trace w)) (printf fmt).
Proof. by apply keeps_sent_log. Qed.

Lemma keeps_sent_set_event fd ev :
  keeps (fun w => delivered fd (trace w)) (modify (set_event ev)).
Proof. intros w; reflexivity. Qed.

Lemma keeps_sent_close fd fd' :
  keeps (fun w => delivered fd (trace w)) (sys_close fd').
Proof. intros w. cbn. rewrite delivered_app. cbn. by rewrite app_nil_r. Qed.

Lemma keeps_sent_epoll_ctl fd epoll_fd op fd' ev :
  keeps (fun w => delivered fd (trace w)) (sys_epoll_ctl epoll_fd op fd' ev).
Proof.
  intros w. unfold sys_epoll_ctl.
  destruct (ctl_script w) as [|[e|] rest]; cbn;
    rewrite delivered_app; cbn; by rewrite app_nil_r.
Qed.

Lemma keeps_sent_read fd fd' count :
  keeps (fun w => delivered fd (trace w)) (sys_read fd' count).
Proof.
  intros w. unfold sys_read.
  destruct (rd_script w) as [|[bs| |e] rest]; cbn;
    rewrite delivered_app; cbn; by rewrite app_nil_r.
Qed.

Lemma keeps_sent_write_other fd fd' data :
  fd' <> fd -> keeps (fun w => delivered fd (trace w)) (sys_write fd' data).
Proof.
  intros Hne w. unfold sys_write.
  destruct data; [|destruct (wr_script w) as [|[r|e|] rest]]; cbn;
    try reflexivity;
    rewrite delivered_app; cbn; rewrite (proj2 (Z.eqb_neq _ _) Hne);
    by rewrite app_nil_r.
Qed.

Lemma world_of_bind {A B} (m : M A) (k : A -> M B) w :
  world_of (bind m k w) =
  match m w with
  | Ret a w1 => world_of (k a w1)
  | Stop _ w1 => w1
  end.
Proof. unfold bind. by destruct (m w). Qed.

(** After a write that failed, the echo loop sends nothing more. *)
Lemma echo_tail_sends_nothing fd' epoll_fd fd :
  keeps (fun w => delivered fd' (trace w))
    (e <- gets errno ;;
     if would_block e then
       modify (set_event {| events := Z.lor (Z.lor EPOLLOUT EPOLLET) EPOLLRDHUP;
                            data_fd := fd |}) ;;
       ev <- gets event ;;
       r <- sys_epoll_ctl epoll_fd EPOLL_CTL_MOD fd ev ;;
       if r =? -1
       then perror "epoll_ctl EPOLL_CTL_MOD" ;; sys_close fd
       else ret tt
     else
       perror "write" ;; sys_close fd)%prog.
Proof.
  apply keeps_bind; [apply keeps_gets | intros e].
  destruct (would_block e).
  - apply keeps_bind; [apply keeps_sent_set_event | intros _].
    apply keeps_bind; [apply keeps_gets | intros ev].
    apply keeps_bind; [apply keeps_sent_epoll_ctl | intros r].
    destruct (r =? -1); [|apply keeps_ret].
    apply keeps_bind; [apply keeps_sent_perror | intros _].
    apply keeps_sent_close.
  - apply keeps_bind; [apply keeps_sent_perror | intros _].
    apply keeps_sent_close.
Qed.

Lemma take_length_prefix {A} (l : list A) (n : nat) :
  take (length (take n l)) l = take n l.
Proof.
  rewrite length_take. destruct (le_lt_dec n (length l)).
  - by rewrite Nat.min_l.
  - rewrite Nat.min_r by lia. rewrite firstn_all. symmetry. apply take_ge. lia.
Qed.

(** Whatever the send queue does, the bytes that the echo loop hands to
    the kernel are consecutive bytes of the buffer, from [total_sent]
    on. *)
Lemma echo_loop_delivers epoll_fd fd buffer total_read :
  forall fuel total_sent w,
  0 <= total_sent ->
  exists k,
    delivered fd
      (trace (world_of
                (echo_loop fuel epoll_fd fd buffer total_read total_sent w))) =
    delivered fd (trace w) ++ take k (drop (Z.to_nat total_sent) buffer).
Proof.
  induction fuel as [|fuel IH]; intros total_sent w Hts; cbn [echo_loop];
    destruct (total_sent <? total_read) eqn:Elt;
    try (exists 0%nat; cbn; by rewrite app_nil_r).
  rewrite world_of_bind. unfold sys_write.
  destruct (slice buffer total_sent (total_read - total_sent))
    as [|b data] eqn:Ed.
  - cbn [Z.eqb].
    destruct (IH (total_sent + 0) (log (c_write fd [] 0) w)) as [k Hk]; [lia|].
    exists k. rewrite Hk. cbn [trace log]. rewrite delivered_app.
    cbn [delivered]. rewrite Z.eqb_refl, !app_nil_r, Z.add_0_r. reflexivity.
  - rewrite <- Ed.
    destruct (wr_script w) as [|[r|e|] rest] eqn:Es.
    + cbn [Z.eqb Pos.eqb]. exists 0%nat.
      rewrite (echo_tail_sends_nothing fd epoll_fd fd). cbn [trace log set_errno].
      rewrite delivered_app. cbn [delivered]. by rewrite Z.eqb_refl, !app_nil_r.
    + set (acc := take (Pos.to_nat r) (slice buffer total_sent (total_read - total_sent))).
      destruct (Z.eqb_spec (Z.of_nat (length acc)) (-1)) as [Hn|_]; [lia|].
      destruct (IH (total_sent + Z.of_nat (length acc))
                  (log (c_write fd acc (Z.of_nat (length acc)))
                     (set_wr_script rest w))) as [k Hk]; [lia|].
      exists (length acc + k)%nat. rewrite Hk. cbn [trace log set_wr_script].
      rewrite delivered_app. cbn [delivered]. rewrite Z.eqb_refl, app_nil_r.
      rewrite <- app_assoc. f_equal.
      replace (Z.to_nat (total_sent + Z.of_nat (length acc)))
        with (Z.to_nat total_sent + length acc)%nat by lia.
      rewrite <- drop_drop.
      assert (Hacc : acc = take (length acc) (drop (Z.to_nat total_sent) buffer)).
      { unfold acc, slice. rewrite take_take. symmetry.
        apply take_length_prefix. }
      rewrite Hacc at 1. apply take_take_drop.
    + cbn [Z.eqb Pos.eqb]. exists 0%nat.
      rewrite (echo_tail_sends_nothing fd epoll_fd fd). cbn [trace log set_errno set_wr_script].
      rewrite delivered_app. cbn [delivered]. by rewrite Z.eqb_refl, !app_nil_r.
    + exists 0%nat. cbn. by rewrite app_nil_r.
Qed.

Lemma take_of_prefix {A} (l x : list A) (k : nat) :
  exists k', take k l = take k' (l ++ x).
Proof.
  exists (k `min` length l)%nat.
  rewrite take_app_le by lia.
  destruct (le_lt_dec k (length l)).
  - by rewrite Nat.min_l.
  - rewrite Nat.min_r by lia. rewrite firstn_all. apply take_ge. lia.
Qed.

(** What follows a read that returned -1: at most an echo of the
    buffer. *)
Lemma read_tail_delivers epoll_fd fd buffer total_read w :
  exists k,
    delivered fd
      (trace (world_of
         ((e <- gets errno ;;
           if would_block e then
             if 0 <? total_read then
               printf "Received %zd bytes: %.*s\n" ;;
               echo_loop (Z.to_nat total_read) epoll_fd fd buffer total_read 0
             else ret tt
           else
             perror "read" ;; sys_close fd)%prog w))) =
    delivered fd (trace w) ++ take k buffer.
Proof.
  rewrite world_of_bind. cbn [gets].
  destruct (would_block (errno w)).
  - destruct (0 <? total_read).
    + rewrite world_of_bind. cbn [printf modify].
      destruct (echo_loop_delivers epoll_fd fd buffer total_read
                  (Z.to_nat total_read) 0
                  (log (c_printf "Received %zd bytes: %.*s\n") w))
        as [k Hk]; [lia|].
      exists k. rewrite Hk. cbn [trace log]. rewrite delivered_app.
      cbn [delivered Z.to_nat]. by rewrite app_nil_r, drop_0.
    + exists 0%nat. cbn. by rewrite app_nil_r.
  - exists 0%nat.
    assert (Hk : keeps (fun w => delivered fd (trace w))
                   (perror "read" ;; sys_close fd)%prog)
      by (apply keeps_bind; [apply keeps_sent_perror
                            | intros ?; apply keeps_sent_close]).
    rewrite (Hk w). cbn. by rewrite app_nil_r.
Qed.

(** The invariant of the read loop: the buffer followed by what is
    still queued is the input as it was queued at the start, and only
    bytes of the buffer are ever sent. *)
Lemma read_loop_prefix epoll_fd fd :
  forall fuel buffer total_read w,
  exists k,
    delivered fd
      (trace (world_of (read_loop fuel epoll_fd fd buffer total_read w))) =
    delivered fd (trace w) ++ take k (buffer ++ queued (rd_script w)).
Proof.
  induction fuel as [|fuel IH]; intros buffer total_read w.
  { exists 0%nat. cbn. by rewrite app_nil_r. }
  rewrite read_loop_S, world_of_bind. unfold sys_read.
  destruct (rd_script w) as [|[bs| |e] rest] eqn:Es; cbn [fst snd].
  - cbn [Z.ltb Z.eqb Z.compare].
    destruct (read_tail_delivers epoll_fd fd buffer total_read
                (log (c_read fd (BUFFER_SIZE - total_read) (-1))
                   (set_errno EAGAIN w))) as [k Hk].
    rewrite Hk. cbn [trace log set_errno]. rewrite delivered_app.
    cbn [delivered]. rewrite app_nil_r.
    destruct (take_of_prefix buffer (queued []) k) as [k' Hk'].
    exists k'. by rewrite Hk'.
  - set (c := Z.to_nat (BUFFER_SIZE - total_read)).
    assert (Hq : take c bs ++
                 queued (match drop c bs with
                         | [] => rest
                         | _ :: _ => RdData (drop c bs) :: rest
                         end) = bs ++ queued rest).
    { destruct (drop c bs) as [|x l] eqn:Ed.
      - rewrite <- (take_drop c bs) at 2. by rewrite Ed, app_nil_r.
      - cbn [queued]. rewrite <- Ed, app_assoc, take_drop. reflexivity. }
    destruct (0 <? Z.of_nat (length (take c bs))) eqn:En.
    + destruct (_ =? BUFFER_SIZE).
      * exists 0%nat. cbn [world_of ret trace log set_rd_script].
        rewrite delivered_app. cbn. by rewrite !app_nil_r.
      * match goal with
        | |- context [read_loop fuel _ _ ?b ?t ?w1] =>
            destruct (IH b t w1) as [k Hk]
        end.
        exists k. rewrite Hk. cbn [trace log set_rd_script rd_script].
        rewrite delivered_app. cbn [delivered]. rewrite app_nil_r.
        cbn [queued]. by rewrite <- app_assoc, Hq.
    + destruct (_ =? 0).
      * exists 0%nat.
        assert (Hk : keeps (fun w => delivered fd (trace w))
                       (printf "Client closed connection\n" ;; sys_close fd)%prog)
          by (apply keeps_bind; [apply keeps_sent_printf
                                | intros ?; apply keeps_sent_close]).
        rewrite (Hk _). cbn [trace log set_rd_script].
        rewrite delivered_app. cbn. by rewrite !app_nil_r.
      * match goal with
        | |- context [world_of (_ ?w1)] =>
            destruct (read_tail_delivers epoll_fd fd buffer total_read w1)
              as [k Hk]
        end.
        rewrite Hk. cbn [trace log set_rd_script]. rewrite delivered_app.
        cbn [delivered]. rewrite app_nil_r.
        destruct (take_of_prefix buffer (queued (RdData bs :: rest)) k)
          as [k' Hk'].
        exists k'. by rewrite Hk'.
  - cbn [Z.ltb Z.eqb Z.compare]. exists 0%nat.
    assert (Hk : keeps (fun w => delivered fd (trace w))
                   (printf "Client closed connection\n" ;; sys_close fd)%prog)
      by (apply keeps_bind; [apply keeps_sent_printf
                            | intros ?; apply keeps_sent_close]).
    rewrite (Hk _). cbn [trace log set_rd_script].
    rewrite delivered_app. cbn. by rewrite !app_nil_r.
  - cbn [Z.ltb Z.eqb Z.compare].
    destruct (read_tail_delivers epoll_fd fd buffer total_read
                (log (c_read fd (BUFFER_SIZE - total_read) (-1))
                   (set_errno e (set_rd_script rest w)))) as [k Hk].
    rewrite Hk. cbn [trace log set_errno set_rd_script]. rewrite delivered_app.
    cbn [delivered]. rewrite app_nil_r.
    destruct (take_of_prefix buffer (queued (RdFail e :: rest)) k) as [k' Hk'].
    exists k'. by rewrite Hk'.
Qed.

(** X8: whatever the network does (any sequence of read and write
    results, any failure of epoll_ctl), the bytes that the handling of
    a Readable event sends to the connection are a prefix of the bytes
    that were waiting in its receive queue: the server never sends a
    byte the client did not send, never sends one twice and never out
    of order. *)
Theorem echo_is_prefix_of_input epoll_fd fd w :
  exists k,
    delivered fd (trace (world_of (handle_readable epoll_fd fd w))) =
    delivered fd (trace w) ++ take k (queued (rd_script w)).
Proof.
  destruct (read_loop_prefix epoll_fd fd (Z.to_nat BUFFER_SIZE) [] 0 w)
    as [k Hk].
  exists k. exact Hk.
Qed.

(** ** No byte goes to another connection *)

Lemma keeps_sent_accept fd listen_fd :
  keeps (fun w => delivered fd (trace w)) (sys_accept listen_fd).
Proof.
  intros w.
  destruct (sys_accept_result listen_fd w)
    as [(c & k & Hr & Hk)|[(e & k & Hr)|[Hr|Hr]]];
    rewrite Hr; cbn; try reflexivity;
    rewrite delivered_app; cbn; by rewrite app_nil_r.
Qed.

Lemma keeps_sent_getfl fd fd' :
  keeps (fun w => delivered fd (trace w)) (sys_fcntl_getfl fd').
Proof.
  intros w. unfold sys_fcntl_getfl.
  destruct (fcntl_script w) as [|[e|] rest]; cbn;
    rewrite delivered_app; cbn; by rewrite app_nil_r.
Qed.

Lemma keeps_sent_setfl fd fd' flags :
  keeps (fun w => delivered fd (trace w)) (sys_fcntl_setfl fd' flags).
Proof.
  intros w. unfold sys_fcntl_setfl.
  destruct (fcntl_script w) as [|[e|] rest]; cbn;
    rewrite delivered_app; cbn; by rewrite app_nil_r.
Qed.

Lemma keeps_sent_get_pending fd fd' :
  keeps (fun w => delivered fd (trace w)) (get_pending_data fd').
Proof. intros w. unfold get_pending_data. by destruct (pending w !! fd'). Qed.

Lemma keeps_sent_set_pending fd (f : world -> gmap Z YourBuffer) :
  keeps (fun w => delivered fd (trace w)) (modify (fun w => set_pending (f w) w)).
Proof. intros w; reflexivity. Qed.

Lemma keeps_sent_set_event_of fd (f : world -> epoll_event) :
  keeps (fun w => delivered fd (trace w)) (modify (fun w => set_event (f w) w)).
Proof. intros w; reflexivity. Qed.

Ltac keeps_sent_step :=
  lazymatch goal with
  | |- keeps _ (bind _ _) => apply keeps_bind; [|intros ?]
  | |- keeps _ (if ?c then _ else _) => destruct c
  | |- keeps _ (let _ := _ in _) => cbv zeta
  | |- keeps _ (ret _) => apply keeps_ret
  | |- keeps _ (gets _) => apply keeps_gets
  | |- keeps _ (halt _) => apply keeps_halt
  | |- keeps _ (modify _) =>
      first [ apply keeps_sent_set_event | apply keeps_sent_set_event_of
            | apply keeps_sent_set_pending | by apply keeps_sent_log ]
  | |- keeps _ (get_pending_data _) => apply keeps_sent_get_pending
  | |- keeps _ (sys_epoll_ctl _ _ _ _) => apply keeps_sent_epoll_ctl
  | |- keeps _ (sys_close _) => apply keeps_sent_close
  | |- keeps _ (sys_read _ _) => apply keeps_sent_read
  | |- keeps _ (sys_accept _) => apply keeps_sent_accept
  | |- keeps _ (sys_fcntl_getfl _) => apply keeps_sent_getfl
  | |- keeps _ (sys_fcntl_setfl _ _) => apply keeps_sent_setfl
  | |- keeps _ (sys_write _ _) => apply keeps_sent_write_other; assumption
  end.

Ltac keeps_sent := unfold perror, printf, exit; repeat keeps_sent_step.

Lemma echo_loop_sends_to_own fd' epoll_fd fd buffer total_read :
  fd <> fd' ->
  forall fuel total_sent,
  keeps (fun w => delivered fd' (trace w))
    (echo_loop fuel epoll_fd fd buffer total_read total_sent).
Proof.
  intros Hne. induction fuel as [|fuel IH]; intros total_sent; cbn [echo_loop];
    keeps_sent. apply IH.
Qed.

Lemma read_loop_sends_to_own fd' epoll_fd fd :
  fd <> fd' ->
  forall fuel buffer total_read,
  keeps (fun w => delivered fd' (trace w))
    (read_loop fuel epoll_fd fd buffer total_read).
Proof.
  intros Hne. induction fuel as [|fuel IH]; intros buffer total_read.
  - apply keeps_halt.
  - rewrite read_loop_S. keeps_sent; [apply IH|].
    by apply echo_loop_sends_to_own.
Qed.

Lemma accept_loop_sends_nothing fd' listen_fd epoll_fd :
  forall fuel,
  keeps (fun w => delivered fd' (trace w)) (accept_loop fuel listen_fd epoll_fd).
Proof.
  induction fuel as [|fuel IH]; cbn [accept_loop]; [apply keeps_halt|].
  unfold set_nonblocking, exit. keeps_sent. apply IH.
Qed.

(** X9: the handling of an event sends bytes to the connection that
    the event names and to no other: whatever is read, written or
    fails, what every other peer has received is unchanged.  An event
    on the listener sends nothing to anyone. *)
Theorem no_byte_to_other_connection listen_fd epoll_fd ev fd' w :
  data_fd ev <> fd' \/ data_fd ev = listen_fd ->
  delivered fd' (trace (world_of (handle_event listen_fd epoll_fd ev w))) =
  delivered fd' (trace w).
Proof.
  intros H. revert w.
  change (keeps (fun w => delivered fd' (trace w))
            (handle_event listen_fd epoll_fd ev)).
  unfold handle_event.
  destruct (Z.eqb_spec (data_fd ev) listen_fd) as [Hl|Hl].
  - unfold handle_listener. keeps_sent. apply accept_loop_sends_nothing.
  - destruct H as [Hne|?]; [|done].
    unfold handle_readable, handle_writable, free_pending_data.
    keeps_sent. by apply read_loop_sends_to_own.
Qed.

Lemma no_byte_to_other_connection_witness :
  delivered 6
    (trace (world_of (handle_event 3 4 (readable_event 5) broken_pipe_world))) =
  delivered 6 (trace broken_pipe_world).
Proof.
  apply (no_byte_to_other_connection 3 4 (readable_event 5) 6 broken_pipe_world).
  left. simpl. lia.
Defined.

(** ** The reads of a round stay inside the buffer *)

Lemma adds_ret {A} P (a : A) : adds P (ret a).
Proof. intros w. exists []. cbn. by rewrite app_nil_r. Qed.

Lemma adds_gets {A} P (f : world -> A) : adds P (gets f).
Proof. intros w. exists []. cbn. by rewrite app_nil_r. Qed.

Lemma adds_halt {A} P s : adds P (@halt A s).
Proof. intros w. exists []. cbn. by rewrite app_nil_r. Qed.

Lemma adds_bind {A B} P (m : M A) (k : A -> M B) :
  adds P m -> (forall a, adds P (k a)) -> adds P (bind m k).
Proof.
  intros Hm Hk w. rewrite world_of_bind.
  destruct (Hm w) as (tr & Htr & HP).
  destruct (m w) as [a w1|s w1]; cbn [world_of] in Htr.
  - destruct (Hk a w1) as (tr' & Htr' & HP').
    exists (tr ++ tr'). rewrite Htr', Htr, app_assoc.
    split; [reflexivity | by apply Forall_app].
  - by exists tr.
Qed.

Lemma adds_log (P : call -> Prop) c : P c -> adds P (modify (log c)).
Proof. intros Hc w. exists [c]. split; [reflexivity | by constructor]. Qed.

Lemma adds_set_event P ev : adds P (modify (set_event ev)).
Proof. intros w. exists []. cbn. by rewrite app_nil_r. Qed.

Lemma adds_close (P : call -> Prop) fd : P (c_close fd) -> adds P (sys_close fd).
Proof. intros Hc w. exists [c_close fd]. split; [reflexivity | by constructor]. Qed.

Lemma adds_write (P : call -> Prop) fd data :
  (forall acc n, P (c_write fd acc n)) -> adds P (sys_write fd data).
Proof.
  intros Hc w. unfold sys_write.
  destruct data; [|destruct (wr_script w) as [|[r|e|] rest]];
    try (eexists [_]; split; [reflexivity | by constructor]).
  exists []. cbn. by rewrite app_nil_r.
Qed.

Lemma adds_epoll_ctl (P : call -> Prop) epoll_fd op fd ev :
  (forall r, P (c_epoll_ctl op fd ev r)) ->
  adds P (sys_epoll_ctl epoll_fd op fd ev).
Proof.
  intros Hc w. unfold sys_epoll_ctl.
  destruct (ctl_script w) as [|[e|] rest];
    (eexists [_]; split; [reflexivity | by constructor]).
Qed.

Ltac adds_step :=
  lazymatch goal with
  | |- adds _ (bind _ _) => apply adds_bind; [|intros ?]
  | |- adds _ (if ?c then _ else _) => destruct c
  | |- adds _ (ret _) => apply adds_ret
  | |- adds _ (gets _) => apply adds_gets
  | |- adds _ (halt _) => apply adds_halt
  | |- adds _ (modify (log _)) => apply adds_log; reflexivity
  | |- adds _ (modify (set_event _)) => apply adds_set_event
  | |- adds _ (sys_close _) => apply adds_close; reflexivity
  | |- adds _ (sys_write _ _) => apply adds_write; reflexivity
  | |- adds _ (sys_epoll_ctl _ _ _ _) => apply adds_epoll_ctl; reflexivity
  end.

Lemma echo_loop_adds_no_read epoll_fd fd buffer total_read :
  forall fuel total_sent,
  adds (fun c => is_read c = false)
    (echo_loop fuel epoll_fd fd buffer total_read total_sent).
Proof.
  induction fuel as [|fuel IH]; intros total_sent; cbn [echo_loop];
    unfold perror; repeat adds_step. apply IH.
Qed.

Lemma reads_fit_no_read total tr :
  Forall (fun c => is_read c = false) tr -> reads_fit total tr.
Proof.
  induction 1 as [|c tr Hc _ IH]; [exact I|].
  destruct c; try discriminate Hc; exact IH.
Qed.

Lemma read_loop_fits epoll_fd fd :
  forall fuel buffer total_read w,
  0 <= total_read < BUFFER_SIZE ->
  exists tr,
    trace (world_of (read_loop fuel epoll_fd fd buffer total_read w)) =
      trace w ++ tr /\
    reads_fit total_read tr.
Proof.
  induction fuel as [|fuel IH]; intros buffer total_read w Ht.
  { exists []. cbn. by rewrite app_nil_r. }
  rewrite read_loop_S, world_of_bind.
  assert (Hrest : forall n bs w1,
            n <= 0 ->
            exists tr,
              trace (world_of
                ((if 0 <? n then
                    let buffer := buffer ++ bs in
                    let total_read := total_read + n in
                    if total_read =? BUFFER_SIZE then ret tt
                    else read_loop fuel epoll_fd fd buffer total_read
                  else if n =? 0 then
                    printf "Client closed connection\n" ;; sys_close fd
                  else
                    e <- gets errno ;;
                    if would_block e then
                      if 0 <? total_read then
                        printf "Received %zd bytes: %.*s\n" ;;
                        echo_loop (Z.to_nat total_read) epoll_fd fd buffer
                          total_read 0
                      else ret tt
                    else
                      perror "read" ;; sys_close fd)%prog w1)) =
              trace w1 ++ tr /\
              Forall (fun c => is_read c = false) tr).
  { intros n bs w1 Hn.
    replace (0 <? n) with false by (symmetry; apply Z.ltb_ge; lia).
    revert w1.
    match goal with |- forall w1, exists tr, trace (world_of (?m w1)) = _ /\ _ =>
      change (adds (fun c => is_read c = false) m) end.
    unfold perror, printf. repeat adds_step.
    apply echo_loop_adds_no_read. }
  unfold sys_read.
  destruct (rd_script w) as [|[bs| |e] rest] eqn:Es; cbn [fst snd].
  - destruct (Hrest (-1) [] (log (c_read fd (BUFFER_SIZE - total_read) (-1))
                               (set_errno EAGAIN w))) as (tr & Htr & Hno);
      [lia|].
    exists (c_read fd (BUFFER_SIZE - total_read) (-1) :: tr).
    split; [etransitivity; [exact Htr|]; cbn [trace log set_errno];
            by rewrite <- app_assoc|].
    cbn [reads_fit].
    repeat split; try lia. by apply reads_fit_no_read.
  - set (c := Z.to_nat (BUFFER_SIZE - total_read)).
    set (n := Z.of_nat (length (take c bs))).
    assert (Hn : 0 <= n <= BUFFER_SIZE - total_read)
      by (unfold n, c; rewrite length_take; lia).
    match goal with
    | |- context [world_of (_ ?w0)] => set (w1 := w0)
    end.
    assert (Hw1 : trace w1 =
                  trace w ++ [c_read fd (BUFFER_SIZE - total_read) n])
      by reflexivity.
    destruct (Z.ltb_spec 0 n) as [Hpos|Hzero].
    + cbv zeta. destruct (Z.eqb_spec (total_read + n) BUFFER_SIZE) as [Hfull|Hmore].
      * exists [c_read fd (BUFFER_SIZE - total_read) n].
        split; [exact Hw1|]. cbn [reads_fit]. repeat split; lia.
      * destruct (IH (buffer ++ take c bs) (total_read + n) w1) as (tr & Htr & Hfit);
          [lia|].
        exists (c_read fd (BUFFER_SIZE - total_read) n :: tr).
        split; [etransitivity; [exact Htr|]; by rewrite Hw1, <- app_assoc|].
        cbn [reads_fit]. replace (Z.max 0 n) with n by lia.
        repeat split; try lia. exact Hfit.
    + destruct (Hrest n (take c bs) w1) as (tr & Htr & Hno); [lia|].
      replace (0 <? n) with false in Htr by (symmetry; apply Z.ltb_ge; lia).
      exists (c_read fd (BUFFER_SIZE - total_read) n :: tr).
      split; [etransitivity; [exact Htr|]; by rewrite Hw1, <- app_assoc|].
      cbn [reads_fit]. repeat split; try lia. by apply reads_fit_no_read.
  - destruct (Hrest 0 [] (log (c_read fd (BUFFER_SIZE - total_read) 0)
                            (set_rd_script rest w))) as (tr & Htr & Hno);
      [lia|].
    exists (c_read fd (BUFFER_SIZE - total_read) 0 :: tr).
    split; [etransitivity; [exact Htr|]; cbn [trace log set_rd_script];
            by rewrite <- app_assoc|].
    cbn [reads_fit].
    repeat split; try lia. by apply reads_fit_no_read.
  - destruct (Hrest (-1) [] (log (c_read fd (BUFFER_SIZE - total_read) (-1))
                               (set_errno e (set_rd_script rest w))))
      as (tr & Htr & Hno); [lia|].
    exists (c_read fd (BUFFER_SIZE - total_read) (-1) :: tr).
    split; [etransitivity; [exact Htr|];
            cbn [trace log set_errno set_rd_script]; by rewrite <- app_assoc|].
    cbn [reads_fit].
    repeat split; try lia. by apply reads_fit_no_read.
Qed.

Lemma reads_fit_bound tr :
  forall total, 0 <= total <= BUFFER_SIZE -> reads_fit total tr ->
  0 <= bytes_read tr <= BUFFER_SIZE - total.
Proof.
  induction tr as [|c tr IH]; intros total Ht Hfit; cbn [bytes_read]; [lia|].
  destruct c; cbn [reads_fit] in Hfit; try (apply IH; assumption).
  destruct Hfit as (Hc & Hroom & Hret & Hfit).
  match type of Hfit with
  | reads_fit ?t _ => assert (Ht' : 0 <= t <= BUFFER_SIZE) by lia
  end.
  specialize (IH _ Ht' Hfit). lia.
Qed.

(** X10: the reads of a Readable round never run past the buffer.
    Whatever the network delivers, every read of the round asks for at
    least one byte and for no more than the room left behind the bytes
    already stored, and returns no more than it asked for: the bytes of
    the round, at most BUFFER_SIZE, fit in [buffer]. *)
Theorem reads_stay_in_buffer epoll_fd fd w :
  exists tr,
    trace (world_of (handle_readable epoll_fd fd w)) = trace w ++ tr /\
    reads_fit 0 tr /\
    0 <= bytes_read tr <= BUFFER_SIZE.
Proof.
  destruct (read_loop_fits epoll_fd fd (Z.to_nat BUFFER_SIZE) [] 0 w)
    as (tr & Htr & Hfit); [unfold BUFFER_SIZE; lia|].
  exists tr. split; [exact Htr|]. split; [exact Hfit|].
  assert (H0 : 0 <= 0 <= BUFFER_SIZE) by (unfold BUFFER_SIZE; lia).
  pose proof (reads_fit_bound tr 0 H0 Hfit). lia.
Qed.

(** ** Failures in the accept loop *)

(** One turn of the loop for a connection whose registration fails:
    perror, close, and the loop goes on ([continue]). *)
Lemma accept_step_ctl_fails fuel listen_fd epoll_fd w c s e cs :
  acc_script w = AccConn c :: s ->
  0 < c ->
  all_succeed (fcntl_script w) ->
  ctl_script w = Some e :: cs ->
  exists w1 tr,
    accept_loop (S fuel) listen_fd epoll_fd w =
      accept_loop fuel listen_fd epoll_fd w1 /\
    acc_script w1 = s /\
    all_succeed (fcntl_script w1) /\
    ctl_script w1 = cs /\
    (forall fd, fd <> c -> registered fd w -> registered fd w1) /\
    pending w1 = pending w /\
    trace w1 = trace w ++ tr /\
    List.filter is_close tr = [c_close c] /\
    length (List.filter is_accept tr) = 1%nat.
Proof.
  intros Hs Hc Hf Hctl. cbn [accept_loop].
  assert (Ha : sys_accept listen_fd w =
               Ret c (log (c_accept c)
                        (set_flags (<[c := O_RDWR]> (k_flags w))
                           (set_open ({[c]} ∪ k_open w) (set_acc_script s w)))))
    by (by apply sys_accept_conn).
  rewrite (bind_ret_eq _ _ _ _ _ Ha), (proj2 (Z.ltb_lt _ _) Hc).
  rewrite (bind_ret_eq (printf _) _ _ tt _ eq_refl).
  erewrite (bind_ret_eq (set_nonblocking c));
    [|apply (set_nonblocking_ok c O_RDWR);
      [exact Hf | apply lookup_insert_eq | discriminate]].
  rewrite (bind_ret_eq (modify _) _ _ tt _ eq_refl).
  rewrite (bind_ret_eq (gets _) _ _ _ _ eq_refl).
  erewrite (bind_ret_eq (sys_epoll_ctl _ _ _ _));
    [|unfold sys_epoll_ctl; cbn [ctl_script set_event log set_flags
                                  set_fcntl_script set_open set_acc_script];
      rewrite Hctl; reflexivity].
  cbn [Z.eqb Pos.eqb].
  erewrite (bind_ret_eq (perror _ ;; sys_close _)%prog); [|reflexivity].
  eexists _, _. split; [reflexivity|]. cbn.
  split; [reflexivity|].
  split; [by do 2 apply all_succeed_tail|].
  split; [reflexivity|].
  split.
  { intros fd Hne (Hin & Hreg & fl & Hfl & Hnb). unfold registered. cbn.
    split; [|split].
    - apply elem_of_difference. split; [apply elem_of_union; by right|].
      by rewrite elem_of_singleton.
    - by rewrite lookup_delete_ne.
    - exists fl. by rewrite lookup_delete_ne, !lookup_insert_ne. }
  split; [reflexivity|].
  split; [by rewrite <- !app_assoc|].
  split; reflexivity.
Qed.

(** X11: the registration of an accepted connection fails.  That
    connection is closed, and the loop goes on with [continue]: the
    connections pending behind it are accepted and registered as if
    nothing had happened, the close of the failed one is the only close
    made, and the loop then stands before its next accept, whatever is
    left in the queue and however the round ends after that. *)
Theorem failed_registration_skips_one
    listen_fd epoll_fd c fds e' rest crest fuel w :
  acc_script w = AccConn c :: map AccConn fds ++ rest ->
  0 < c ->
  Forall (fun fd => 0 < fd) fds ->
  all_succeed (fcntl_script w) ->
  ctl_script w = Some e' :: crest ->
  all_succeed crest ->
  exists w1 tr,
    accept_loop (S (length fds + fuel)) listen_fd epoll_fd w =
      accept_loop fuel listen_fd epoll_fd w1 /\
    trace w1 = trace w ++ tr /\
    List.filter is_close tr = [c_close c] /\
    length (List.filter is_accept tr) = S (length fds) /\
    (forall fd, In fd fds -> registered fd w1) /\
    (forall fd, fd <> c -> registered fd w -> registered fd w1) /\
    acc_script w1 = rest.
Proof.
  intros Hs Hc Hpos Hf Hctl Hcrest.
  destruct (accept_step_ctl_fails (length fds + fuel) listen_fd epoll_fd
              w c _ e' crest Hs Hc Hf Hctl)
    as (w0 & tr0 & Heq0 & Hs0 & Hf0 & Hctl0 & Hkeep & Hp0 & Htr0 & Hcl0 & Hn0).
  destruct (accept_loop_prefix listen_fd epoll_fd fds fuel w0 rest Hs0 Hpos Hf0)
    as (w1 & tr & Heq & Hs1 & Hf1 & Hctl1 & Hreg & Hnb & Hp1 & Htr1 & Hcl1 & Hn1);
    [by rewrite Hctl0|].
  exists w1, (tr0 ++ tr). rewrite Heq0, Heq.
  split; [reflexivity|].
  split; [by rewrite Htr1, Htr0, app_assoc|].
  split; [by rewrite List.filter_app, Hcl0, Hcl1|].
  split; [rewrite List.filter_app, length_app, Hn0, Hn1; reflexivity|].
  split; [intros fd Hin; apply Hreg; by left|].
  split; [intros fd Hne Hr; apply Hreg; right; by apply Hkeep|].
  exact Hs1.
Qed.

Lemma failed_registration_skips_one_witness :
  exists w1 tr,
    accept_loop (S (length [6; 7] + 1)) 3 4 registration_fails_world =
      accept_loop 1 3 4 w1 /\
    trace w1 = trace registration_fails_world ++ tr /\
    List.filter is_close tr = [c_close 5] /\
    length (List.filter is_accept tr) = S (length [6; 7]) /\
    (forall fd, In fd [6; 7] -> registered fd w1) /\
    (forall fd, fd <> 5 ->
                registered fd registration_fails_world -> registered fd w1) /\
    acc_script w1 = [AccFail EAGAIN].
Proof.
  apply (failed_registration_skips_one 3 4 5 [6; 7] ENOMEM [AccFail EAGAIN]
           [] 1 registration_fails_world).
  - reflexivity.
  - lia.
  - repeat constructor.
  - constructor.
  - reflexivity.
  - constructor.
Defined.

(** X12: accept fails for another reason than EAGAIN.  The error is
    reported with perror and the round ends there: the connections
    accepted before it are registered and none is closed, what is
    pending behind the failure is left in the queue, and the handler
    returns to the event loop. *)
Theorem accept_error_ends_round listen_fd epoll_fd ev fds e rest w :
  data_fd ev = listen_fd ->
  acc_script w = map AccConn fds ++ AccFail e :: rest ->
  would_block e = false ->
  Forall (fun fd => 0 < fd) fds ->
  all_succeed (fcntl_script w) ->
  all_succeed (ctl_script w) ->
  exists w' tr,
    handle_event listen_fd epoll_fd ev w = Ret tt w' /\
    trace w' = trace w ++ tr ++ [c_perror "accept"] /\
    List.filter is_close tr = [] /\
    length (List.filter is_accept tr) = S (length fds) /\
    (forall fd, In fd fds \/ registered fd w -> registered fd w') /\
    acc_script w' = rest /\
    errno w' = e.
Proof.
  intros Hev Hs He Hpos Hf Hctl.
  unfold handle_event. rewrite Hev, Z.eqb_refl.
  unfold handle_listener.
  rewrite (bind_ret_eq (gets _) _ _ _ _ eq_refl).
  destruct (accept_loop_registers_all listen_fd epoll_fd fds
              (S (length (acc_script w))) w e rest Hs He Hpos Hf Hctl)
    as (w' & tr & Heq & Hs' & He' & Hreg & Hp' & Htr' & Hcl' & Hn').
  { rewrite Hs, length_app, length_map. lia. }
  rewrite (bind_ret_eq _ _ _ _ _ Heq). cbn [Z.eqb Pos.eqb].
  rewrite (bind_ret_eq (gets _) _ _ _ _ eq_refl), He'.
  unfold would_block in He. apply orb_false_elim in He as [He1 He2].
  rewrite He1, He2. cbn [negb andb].
  eexists _, tr. split; [reflexivity|]. cbn.
  split; [by rewrite Htr', <- app_assoc|].
  split; [exact Hcl'|]. split; [exact Hn'|].
  split; [|by split].
  intros fd Hfd. destruct (Hreg fd Hfd) as (Ho & Hi & Hfl).
  by split.
Qed.

Lemma accept_error_ends_round_witness :
  exists w' tr,
    handle_event 3 4 listener_ready accept_fails_world = Ret tt w' /\
    trace w' = trace accept_fails_world ++ tr ++ [c_perror "accept"] /\
    List.filter is_close tr = [] /\
    length (List.filter is_accept tr) = S (length [5]) /\
    (forall fd, In fd [5] \/ registered fd accept_fails_world ->
                registered fd w') /\
    acc_script w' = [AccConn 6] /\
    errno w' = ECONNABORTED.
Proof.
  apply (accept_error_ends_round 3 4 listener_ready [5] ECONNABORTED
           [AccConn 6] accept_fails_world).
  - reflexivity.
  - reflexivity.
  - reflexivity.
  - repeat constructor.
  - constructor.
  - constructor.
Defined.

(** X13: the loop runs while accept returns a descriptor greater than
    0.  A connection accepted as descriptor 0 ends the loop like a
    failure would, but is reported as none: it stays open, in blocking
    mode and unregistered, it is not closed, and the connections
    pending behind it are not accepted in this round. *)
Theorem descriptor_zero_is_dropped listen_fd epoll_fd ev rest w :
  data_fd ev = listen_fd ->
  acc_script w = AccConn 0 :: rest ->
  exists w',
    handle_event listen_fd epoll_fd ev w = Ret tt w' /\
    trace w' = trace w ++ [c_accept 0] /\
    (0 ∈ k_open w') /\
    k_flags w' !! 0 = Some O_RDWR /\
    k_interest w' = k_interest w /\
    acc_script w' = rest.
Proof.
  intros Hev Hs.
  unfold handle_event. rewrite Hev, Z.eqb_refl.
  unfold handle_listener.
  rewrite (bind_ret_eq (gets _) _ _ _ _ eq_refl).
  assert (Ha : sys_accept listen_fd w =
               Ret 0 (log (c_accept 0)
                        (set_flags (<[0 := O_RDWR]> (k_flags w))
                           (set_open ({[0]} ∪ k_open w) (set_acc_script rest w)))))
    by (by apply sys_accept_conn).
  assert (Hloop : forall fuel,
            accept_loop (S fuel) listen_fd epoll_fd w =
            Ret 0 (log (c_accept 0)
                     (set_flags (<[0 := O_RDWR]> (k_flags w))
                        (set_open ({[0]} ∪ k_open w) (set_acc_script rest w)))))
    by (intros fuel; cbn [accept_loop];
        by rewrite (bind_ret_eq _ _ _ _ _ Ha)).
  rewrite (bind_ret_eq _ _ _ _ _ (Hloop _)). cbn [Z.eqb].
  eexists. split; [reflexivity|]. cbn.
  split; [reflexivity|].
  split; [apply elem_of_union; left; by apply elem_of_singleton|].
  split; [apply lookup_insert_eq|]. by split.
Qed.

Lemma descriptor_zero_is_dropped_witness :
  exists w',
    handle_event 3 4 listener_ready
      (set_acc_script [AccConn 0; AccConn 5] idle_world) = Ret tt w' /\
    trace w' = trace (set_acc_script [AccConn 0; AccConn 5] idle_world)
               ++ [c_accept 0] /\
    (0 ∈ k_open w') /\
    k_flags w' !! 0 = Some O_RDWR /\
    k_interest w' =
      k_interest (set_acc_script [AccConn 0; AccConn 5] idle_world) /\
    acc_script w' = [AccConn 5].
Proof.
  apply (descriptor_zero_is_dropped 3 4 listener_ready [AccConn 5]
           (set_acc_script [AccConn 0; AccConn 5] idle_world)).
  - reflexivity.
  - reflexivity.
Defined.

(** ** The writable branch over several events *)

Lemma writable_step_partial epoll_fd fd w pd r s :
  pending w !! fd = Some pd ->
  wr_script w = WrRoom r :: s ->
  0 <= sent_len pd ->
  total_len pd <= Z.of_nat (length (buf pd)) ->
  Z.pos r < total_len pd - sent_len pd ->
  handle_writable epoll_fd fd w =
  Ret tt
    (set_pending
       (<[fd := {| buf := buf pd; sent_len := sent_len pd + Z.pos r;
                   total_len := total_len pd |}]> (pending w))
       (log (c_write fd (slice (buf pd) (sent_len pd) (Z.pos r)) (Z.pos r))
          (set_wr_script s w))).
Proof.
  intros Hp Hs Hc Hlen Hpart.
  unfold handle_writable. unfold bind at 1, get_pending_data. rewrite Hp.
  unfold bind at 1, sys_write.
  pose proof (slice_length (buf pd) (sent_len pd) (total_len pd - sent_len pd))
    as Hl.
  destruct (slice (buf pd) (sent_len pd) (total_len pd - sent_len pd))
    as [|b data] eqn:Ed.
  { simpl in Hl. lia. }
  rewrite Hs, <- Ed, take_slice.
  replace (Z.min (Z.of_nat (Pos.to_nat r)) (Z.max 0 (total_len pd - sent_len pd)))
    with (Z.pos r) by lia.
  rewrite slice_length by lia.
  cbn [Z.ltb Z.compare]. cbv zeta. cbn [sent_len total_len buf].
  replace (sent_len pd + Z.pos r =? total_len pd) with false
    by (symmetry; apply Z.eqb_neq; lia).
  reflexivity.
Qed.

Lemma writable_step_final epoll_fd fd w pd r s :
  pending w !! fd = Some pd ->
  wr_script w = WrRoom r :: s ->
  0 <= sent_len pd < total_len pd ->
  total_len pd <= Z.of_nat (length (buf pd)) ->
  total_len pd - sent_len pd <= Z.pos r ->
  (forall e' cs, ctl_script w <> Some e' :: cs) ->
  exists w',
    handle_writable epoll_fd fd w = Ret tt w' /\
    delivered fd (trace w') =
      delivered fd (trace w) ++
      slice (buf pd) (sent_len pd) (total_len pd - sent_len pd) /\
    pending w' = delete fd (pending w) /\
    k_interest w' =
      <[fd := {| events := reading_events; data_fd := data_fd (event w) |}]>
        (k_interest w) /\
    k_open w' = k_open w /\
    wr_script w' = s.
Proof.
  intros Hp Hs Hc Hlen Hroom Hctl.
  unfold handle_writable. unfold bind at 1, get_pending_data. rewrite Hp.
  unfold bind at 1, sys_write.
  pose proof (slice_length (buf pd) (sent_len pd) (total_len pd - sent_len pd))
    as Hl.
  destruct (slice (buf pd) (sent_len pd) (total_len pd - sent_len pd))
    as [|b data] eqn:Ed.
  { simpl in Hl. lia. }
  rewrite Hs, <- Ed, take_slice.
  replace (Z.min (Z.of_nat (Pos.to_nat r)) (Z.max 0 (total_len pd - sent_len pd)))
    with (total_len pd - sent_len pd) by lia.
  rewrite slice_length by lia.
  replace (0 <? total_len pd - sent_len pd) with true
    by (symmetry; apply Z.ltb_lt; lia).
  cbv zeta. cbn [sent_len total_len buf].
  replace (sent_len pd + (total_len pd - sent_len pd) =? total_len pd) with true
    by (symmetry; apply Z.eqb_eq; lia).
  unfold free_pending_data. unfold bind, modify, gets, sys_epoll_ctl, ret.
  cbn [ctl_script set_event set_pending log set_wr_script event pending].
  destruct (ctl_script w) as [|[e'|] cs] eqn:Ec;
    [| by destruct (Hctl e' cs) |];
    (eexists; split; [reflexivity|]; cbn -[delivered];
     rewrite !delivered_app; cbn [delivered]; rewrite Z.eqb_refl, !app_nil_r;
     repeat split; apply delete_insert_eq).
Qed.

(** One round of the event loop that reports a Writable event on a
    connection. *)
Lemma event_loop_writable_round listen_fd epoll_fd fd waits w w1 :
  fd <> listen_fd ->
  handle_writable epoll_fd fd (log (c_epoll_wait 1) w) = Ret tt w1 ->
  event_loop listen_fd epoll_fd (WaitReady [writable_event fd] :: waits) w =
  event_loop listen_fd epoll_fd waits w1.
Proof.
  intros Hne Hw. cbn [event_loop].
  assert (Hwait : sys_epoll_wait (WaitReady [writable_event fd]) w =
                  Ret (1, [writable_event fd]) (log (c_epoll_wait 1) w))
    by reflexivity.
  rewrite (bind_ret_eq _ _ _ _ _ Hwait). cbn [fst snd Z.eqb].
  assert (Hev : handle_event listen_fd epoll_fd (writable_event fd)
                  (log (c_epoll_wait 1) w) = Ret tt w1).
  { unfold handle_event. cbn [writable_event data_fd events].
    rewrite (proj2 (Z.eqb_neq _ _) Hne). exact Hw. }
  cbn [for_each_event].
  erewrite (bind_ret_eq (_ ;; ret tt)%prog);
    [reflexivity | by rewrite (bind_ret_eq _ _ _ _ _ Hev)].
Qed.

Lemma drain_rounds listen_fd epoll_fd fd r wrest :
  fd <> listen_fd ->
  forall rooms w pd,
  pending w !! fd = Some pd ->
  wr_script w = map WrRoom rooms ++ WrRoom r :: wrest ->
  0 <= sent_len pd ->
  total_len pd <= Z.of_nat (length (buf pd)) ->
  sent_len pd + room_total rooms < total_len pd ->
  total_len pd <= sent_len pd + room_total rooms + Z.pos r ->
  (forall e cs, ctl_script w <> Some e :: cs) ->
  exists w',
    event_loop listen_fd epoll_fd
      (repeat (WaitReady [writable_event fd]) (S (length rooms))) w =
      Stop Blocked w' /\
    delivered fd (trace w') =
      delivered fd (trace w) ++
      slice (buf pd) (sent_len pd) (total_len pd - sent_len pd) /\
    pending w' = delete fd (pending w) /\
    k_interest w' =
      <[fd := {| events := reading_events; data_fd := data_fd (event w) |}]>
        (k_interest w) /\
    k_open w' = k_open w /\
    wr_script w' = wrest.
Proof.
  intros Hne. induction rooms as [|r0 rooms IH];
    intros w pd Hp Hs Hc Hlen Hlt Hle Hctl; cbn [map app room_total] in *.
  - destruct (writable_step_final epoll_fd fd (log (c_epoll_wait 1) w) pd r wrest)
      as (w' & Heq & Hdel & Hpend & Hint & Hopen & Hwr);
      [exact Hp | exact Hs | lia | exact Hlen | lia | exact Hctl |].
    cbn [length repeat].
    rewrite (event_loop_writable_round _ _ _ _ _ _ Hne Heq).
    exists w'. split; [reflexivity|].
    split; [|by repeat split].
    rewrite Hdel. cbn [trace log]. rewrite delivered_app. cbn [delivered].
    by rewrite app_nil_r.
  - pose proof (room_total_nonneg rooms) as Hnn.
    cbn [length repeat].
    erewrite (event_loop_writable_round _ _ _ _ _ _ Hne);
      [|apply (writable_step_partial epoll_fd fd _ pd r0
                 (map WrRoom rooms ++ WrRoom r :: wrest));
        [exact Hp | exact Hs | lia | exact Hlen | lia]].
    match goal with
    | |- context [event_loop _ _ _ ?w1] =>
        destruct (IH w1
                    {| buf := buf pd; sent_len := sent_len pd + Z.pos r0;
                       total_len := total_len pd |})
          as (w' & Heq & Hdel & Hpend & Hint & Hopen & Hwr);
          [apply lookup_insert_eq | reflexivity | cbn; lia | exact Hlen
          | cbn; lia | cbn; lia | exact Hctl |]
    end.
    exists w'. split; [exact Heq|].
    cbn [buf sent_len total_len pending k_interest k_open event trace
         set_pending log set_wr_script] in *.
    split; [|split; [|by repeat split]].
    + rewrite Hdel. rewrite !delivered_app. cbn [delivered].
      rewrite Z.eqb_refl, !app_nil_r, <- !app_assoc. f_equal. cbn [app].
      replace (total_len pd - sent_len pd)
        with (Z.pos r0 + (total_len pd - (sent_len pd + Z.pos r0))) by lia.
      by rewrite <- slice_snoc by lia.
    + rewrite Hpend. apply delete_insert_eq.
Qed.

(** X14: a connection owes the bytes from [sent_len] to [total_len] of
    its record, and the send queue takes them over several Writable
    events, some on each.  Event after event the cursor advances, and
    with the last one the client has received exactly the bytes that
    were owed, in order and once; the record is freed and the interest
    of the connection is set back to [reading_events].  The process
    then waits for the next event. *)
Theorem drain_completes_over_events
    listen_fd epoll_fd fd rooms r wrest w pd :
  fd <> listen_fd ->
  pending w !! fd = Some pd ->
  wr_script w = map WrRoom rooms ++ WrRoom r :: wrest ->
  0 <= sent_len pd ->
  total_len pd <= Z.of_nat (length (buf pd)) ->
  sent_len pd + room_total rooms < total_len pd ->
  total_len pd <= sent_len pd + room_total rooms + Z.pos r ->
  (forall e cs, ctl_script w <> Some e :: cs) ->
  exists w',
    event_loop listen_fd epoll_fd
      (repeat (WaitReady [writable_event fd]) (S (length rooms))) w =
      Stop Blocked w' /\
    delivered fd (trace w') =
      delivered fd (trace w) ++
      slice (buf pd) (sent_len pd) (total_len pd - sent_len pd) /\
    pending w' = delete fd (pending w) /\
    k_interest w' !! fd =
      Some {| events := reading_events; data_fd := data_fd (event w) |} /\
    k_open w' = k_open w /\
    wr_script w' = wrest.
Proof.
  intros Hne Hp Hs Hc Hlen Hlt Hle Hctl.
  destruct (drain_rounds listen_fd epoll_fd fd r wrest Hne rooms w pd
              Hp Hs Hc Hlen Hlt Hle Hctl)
    as (w' & Heq & Hdel & Hpend & Hint & Hopen & Hwr).
  exists w'. split; [exact Heq|]. split; [exact Hdel|].
  split; [exact Hpend|].
  split; [rewrite Hint; apply lookup_insert_eq | by split].
Qed.

Lemma drain_completes_over_events_witness :
  exists w',
    event_loop 3 4
      (repeat (WaitReady [writable_event 5]) (S (length [1%positive; 1%positive])))
      slow_drain_world = Stop Blocked w' /\
    delivered 5 (trace w') =
      delivered 5 (trace slow_drain_world) ++
      slice (buf {| buf := ["a"; "b"; "c"]%byte; sent_len := 0; total_len := 3 |})
        (sent_len {| buf := ["a"; "b"; "c"]%byte; sent_len := 0; total_len := 3 |})
        (total_len {| buf := ["a"; "b"; "c"]%byte; sent_len := 0; total_len := 3 |}
         - sent_len {| buf := ["a"; "b"; "c"]%byte; sent_len := 0; total_len := 3 |}) /\
    pending w' = delete 5 (pending slow_drain_world) /\
    k_interest w' !! 5 =
      Some {| events := reading_events;
              data_fd := data_fd (event slow_drain_world) |} /\
    k_open w' = k_open slow_drain_world /\
    wr_script w' = [].
Proof.
  apply (drain_completes_over_events 3 4 5 [1%positive; 1%positive] 5 []
           slow_drain_world
           {| buf := ["a"; "b"; "c"]%byte; sent_len := 0; total_len := 3 |}).
  - lia.
  - vm_compute; reflexivity.
  - reflexivity.
  - simpl; lia.
  - simpl; lia.
  - simpl; lia.
  - simpl; lia.
  - intros e cs H; discriminate H.
Defined.

(** X15: the write of a Writable event fails.  With EAGAIN nothing
    changes: the record, the interest and the descriptor stay as they
    are, and the next Writable event tries again.  With any other
    error the connection is closed and its record freed, without a
    message.  Either way no byte is sent. *)
Theorem writable_write_failure epoll_fd fd w pd e s :
  pending w !! fd = Some pd ->
  wr_script w = WrFail e :: s ->
  0 <= sent_len pd < total_len pd ->
  total_len pd <= Z.of_nat (length (buf pd)) ->
  exists w',
    handle_writable epoll_fd fd w = Ret tt w' /\
    delivered fd (trace w') = delivered fd (trace w) /\
    (e = EAGAIN ->
     pending w' = pending w /\ k_interest w' = k_interest w /\
     k_open w' = k_open w /\
     trace w' = trace w ++ [c_write fd [] (-1)]) /\
    (e <> EAGAIN ->
     pending w' = delete fd (pending w) /\
     k_interest w' = delete fd (k_interest w) /\
     (fd ∉ k_open w') /\
     trace w' = trace w ++ [c_write fd [] (-1); c_close fd]).
Proof.
  intros Hp Hs Hc Hlen.
  unfold handle_writable. unfold bind at 1, get_pending_data. rewrite Hp.
  unfold bind at 1, sys_write.
  pose proof (slice_length (buf pd) (sent_len pd) (total_len pd - sent_len pd))
    as Hl.
  destruct (slice (buf pd) (sent_len pd) (total_len pd - sent_len pd))
    as [|b data] eqn:Ed.
  { simpl in Hl. lia. }
  rewrite Hs. cbn [Z.ltb Z.compare Z.eqb Pos.eqb andb].
  unfold bind at 1, gets. cbn [errno log set_errno].
  destruct (Z.eqb_spec e EAGAIN) as [He|He]; cbn [negb].
  - eexists. split; [reflexivity|]. cbn -[delivered].
    rewrite delivered_app. cbn [delivered]. rewrite Z.eqb_refl, !app_nil_r.
    split; [reflexivity|]. split; [by intros _|by intros ?].
  - unfold free_pending_data, sys_close. unfold bind, modify.
    eexists. split; [reflexivity|]. cbn -[delivered].
    rewrite !delivered_app. cbn [delivered]. rewrite Z.eqb_refl, !app_nil_r.
    split; [reflexivity|]. split; [by intros ?|intros _].
    repeat split.
    + apply not_elem_of_difference; right; by apply elem_of_singleton.
    + by rewrite <- app_assoc.
Qed.

Lemma writable_write_failure_witness :
  exists w',
    handle_writable 4 5 peer_gone_world = Ret tt w' /\
    delivered 5 (trace w') = delivered 5 (trace peer_gone_world) /\
    (EPIPE = EAGAIN ->
     pending w' = pending peer_gone_world /\
     k_interest w' = k_interest peer_gone_world /\
     k_open w' = k_open peer_gone_world /\
     trace w' = trace peer_gone_world ++ [c_write 5 [] (-1)]) /\
    (EPIPE <> EAGAIN ->
     pending w' = delete 5 (pending peer_gone_world) /\
     k_interest w' = delete 5 (k_interest peer_gone_world) /\
     (5 ∉ k_open w') /\
     trace w' = trace peer_gone_world ++ [c_write 5 [] (-1); c_close 5]).
Proof.
  apply (writable_write_failure 4 5 peer_gone_world
           {| buf := ["a"; "b"; "c"]%byte; sent_len := 0; total_len := 3 |}
           EPIPE []).
  - vm_compute; reflexivity.
  - reflexivity.
  - simpl; lia.
  - simpl; lia.
Defined.

(** X16: a record with nothing left to send ([sent_len] equal to
    [total_len]) is never freed.  The write of no bytes returns 0,
    which is neither progress nor an error for the handler: however
    many Writable events arrive, the record stays in the table and the
    interest of the connection stays what it was, so the connection
    never goes back to reading. *)
Theorem nothing_owed_never_freed listen_fd epoll_fd fd pd n :
  fd <> listen_fd ->
  sent_len pd = total_len pd ->
  forall w,
  pending w !! fd = Some pd ->
  exists w',
    event_loop listen_fd epoll_fd (repeat (WaitReady [writable_event fd]) n) w
      = Stop Blocked w' /\
    pending w' = pending w /\
    k_interest w' = k_interest w /\
    k_open w' = k_open w /\
    wr_script w' = wr_script w /\
    delivered fd (trace w') = delivered fd (trace w).
Proof.
  intros Hne Hlen. induction n as [|n IH]; intros w Hp.
  - exists w. by repeat split.
  - cbn [repeat].
    assert (Hw : handle_writable epoll_fd fd (log (c_epoll_wait 1) w) =
                 Ret tt (log (c_write fd [] 0) (log (c_epoll_wait 1) w))).
    { unfold handle_writable. unfold bind at 1, get_pending_data.
      cbn [pending log]. rewrite Hp.
      unfold bind at 1, sys_write, slice.
      rewrite Hlen, Z.sub_diag. cbn [Z.to_nat take].
      cbn [Z.ltb Z.compare Z.eqb andb].
      reflexivity. }
    rewrite (event_loop_writable_round _ _ _ _ _ _ Hne Hw).
    destruct (IH (log (c_write fd [] 0) (log (c_epoll_wait 1) w)) Hp)
      as (w' & Heq & Hpend & Hint & Hopen & Hwr & Hdel).
    exists w'. split; [exact Heq|].
    cbn [pending k_interest k_open wr_script trace log] in *.
    repeat split; try assumption.
    rewrite Hdel, !delivered_app. cbn [delivered].
    by rewrite Z.eqb_refl, !app_nil_r.
Qed.

Lemma nothing_owed_never_freed_witness :
  exists w',
    event_loop 3 4 (repeat (WaitReady [writable_event 5]) 3) settled_world
      = Stop Blocked w' /\
    pending w' = pending settled_world /\
    k_interest w' = k_interest settled_world /\
    k_open w' = k_open settled_world /\
    wr_script w' = wr_script settled_world /\
    delivered 5 (trace w') = delivered 5 (trace settled_world).
Proof.
  apply (nothing_owed_never_freed 3 4 5
           {| buf := ["a"]%byte; sent_len := 1; total_len := 1 |} 3).
  - lia.
  - reflexivity.
  - vm_compute; reflexivity.
Defined.

(** ** What the event loop leaves alone *)

Lemma keeps_acc_read fd count : keeps acc_script (sys_read fd count).
Proof.
  intros w. unfold sys_read.
  destruct (rd_script w) as [|[bs| |e] rest]; reflexivity.
Qed.

Lemma keeps_acc_write fd data : keeps acc_script (sys_write fd data).
Proof.
  intros w. unfold sys_write. destruct data; [reflexivity|].
  destruct (wr_script w) as [|[r|e|] rest]; reflexivity.
Qed.

Lemma keeps_acc_get_pending fd : keeps acc_script (get_pending_data fd).
Proof. intros w. unfold get_pending_data. by destruct (pending w !! fd). Qed.

Lemma keeps_acc_set_pending (f : world -> gmap Z YourBuffer) :
  keeps acc_script (modify (fun w => set_pending (f w) w)).
Proof. intros w; reflexivity. Qed.

Lemma keeps_acc_set_event_of (f : world -> epoll_event) :
  keeps acc_script (modify (fun w => set_event (f w) w)).
Proof. intros w; reflexivity. Qed.

#[local] Hint Resolve keeps_acc_read keeps_acc_write keeps_acc_get_pending
  keeps_acc_set_pending keeps_acc_set_event_of : keeps.

Lemma echo_loop_keeps_acc fuel epoll_fd fd buffer total_read :
  forall total_sent,
  keeps acc_script (echo_loop fuel epoll_fd fd buffer total_read total_sent).
Proof.
  induction fuel as [|fuel IH]; intros total_sent; cbn [echo_loop];
    repeat keeps_step.
Qed.

Lemma read_loop_keeps_acc fuel epoll_fd fd :
  forall buffer total_read,
  keeps acc_script (read_loop fuel epoll_fd fd buffer total_read).
Proof.
  induction fuel as [|fuel IH]; intros buffer total_read.
  - apply keeps_halt.
  - rewrite read_loop_S. repeat keeps_step.
    apply echo_loop_keeps_acc.
Qed.

Lemma handle_writable_keeps_acc epoll_fd fd :
  keeps acc_script (handle_writable epoll_fd fd).
Proof. unfold handle_writable, free_pending_data. repeat keeps_step. Qed.

Lemma acc_suffix_keeps {A} (m : M A) : keeps acc_script m -> acc_suffix m.
Proof. intros H w. exists 0%nat. by rewrite H. Qed.

Lemma acc_suffix_bind {A B} (m : M A) (k : A -> M B) :
  acc_suffix m -> (forall a, acc_suffix (k a)) -> acc_suffix (bind m k).
Proof.
  intros Hm Hk w. rewrite world_of_bind.
  destruct (Hm w) as [n Hn].
  destruct (m w) as [a w1|s w1]; cbn [world_of] in Hn.
  - destruct (Hk a w1) as [n' Hn'].
    exists (n + n')%nat. by rewrite Hn', Hn, drop_drop.
  - by exists n.
Qed.

Lemma acc_suffix_accept listen_fd : acc_suffix (sys_accept listen_fd).
Proof.
  intros w.
  destruct (sys_accept_result listen_fd w)
    as [(c & k & Hr & Hk)|[(e & k & Hr)|[Hr|Hr]]]; rewrite Hr;
    [by exists (S k) | by exists (S k) | by exists 0%nat | by exists 0%nat].
Qed.

Lemma accept_loop_suffix listen_fd epoll_fd :
  forall fuel, acc_suffix (accept_loop fuel listen_fd epoll_fd).
Proof.
  induction fuel as [|fuel IH]; cbn [accept_loop].
  - apply acc_suffix_keeps, keeps_halt.
  - apply acc_suffix_bind; [apply acc_suffix_accept | intros conn_fd].
    destruct (0 <? conn_fd); [|apply acc_suffix_keeps, keeps_ret].
    apply acc_suffix_bind; [apply acc_suffix_keeps; auto with keeps | intros _].
    apply acc_suffix_bind;
      [apply acc_suffix_keeps, keeps_acc_set_nonblocking | intros _].
    apply acc_suffix_bind; [apply acc_suffix_keeps; auto with keeps | intros _].
    apply acc_suffix_bind; [apply acc_suffix_keeps; auto with keeps | intros ev].
    apply acc_suffix_bind; [apply acc_suffix_keeps; auto with keeps | intros r].
    apply acc_suffix_bind; [apply acc_suffix_keeps; repeat keeps_step | intros _].
    apply IH.
Qed.

Lemma handle_event_suffix listen_fd epoll_fd ev :
  acc_suffix (handle_event listen_fd epoll_fd ev).
Proof.
  unfold handle_event. destruct (_ =? listen_fd).
  - unfold handle_listener.
    apply acc_suffix_bind; [apply acc_suffix_keeps, keeps_gets | intros fuel].
    apply acc_suffix_bind; [apply accept_loop_suffix | intros conn_fd].
    apply acc_suffix_keeps. repeat keeps_step.
  - apply acc_suffix_keeps.
    destruct (negb _); [repeat keeps_step|].
    destruct (negb _); [apply read_loop_keeps_acc|].
    destruct (negb _); [apply handle_writable_keeps_acc | apply keeps_ret].
Qed.

Lemma never_accepted_suffix fd w w' k :
  never_accepted fd w ->
  acc_script w' = drop k (acc_script w) ->
  never_accepted fd w'.
Proof.
  intros H Hk c Hin. apply H. rewrite Hk in Hin.
  rewrite <- (take_drop k (acc_script w)). apply in_or_app. by right.
Qed.

Lemma in_take {A} (x : A) n l : In x (take n l) -> In x l.
Proof.
  intros H. rewrite <- (take_drop n l). apply in_or_app. by left.
Qed.

(** One event: the footprint of [fd] and the fact that accept does not
    return it are both kept. *)
Lemma handle_event_leaves listen_fd epoll_fd ev fd w :
  never_accepted fd w ->
  (data_fd ev = fd -> fd = listen_fd) ->
  footprint fd (world_of (handle_event listen_fd epoll_fd ev w)) =
    footprint fd w /\
  never_accepted fd (world_of (handle_event listen_fd epoll_fd ev w)).
Proof.
  intros Hna Hev. split.
  - destruct (Z.eqb_spec (data_fd ev) listen_fd) as [Hl|Hl].
    + by apply listener_event_contained.
    + apply connection_event_contained; [exact Hl|].
      intros Heq. apply Hl. rewrite Heq. by apply Hev.
  - destruct (handle_event_suffix listen_fd epoll_fd ev w) as [k Hk].
    by apply (never_accepted_suffix fd w _ k).
Qed.

Lemma for_each_event_leaves listen_fd epoll_fd fd :
  forall evs w,
  never_accepted fd w ->
  (forall ev, In ev evs -> data_fd ev = fd -> fd = listen_fd) ->
  footprint fd (world_of (for_each_event listen_fd epoll_fd evs w)) =
    footprint fd w /\
  never_accepted fd (world_of (for_each_event listen_fd epoll_fd evs w)).
Proof.
  induction evs as [|ev evs IH]; intros w Hna Hevs; [by split|].
  cbn [for_each_event]. rewrite world_of_bind.
  destruct (handle_event_leaves listen_fd epoll_fd ev fd w Hna) as [Hfp Hna'].
  { apply Hevs. by left. }
  destruct (handle_event listen_fd epoll_fd ev w) as [[] w1|s w1];
    cbn [world_of] in *; [|by split].
  destruct (IH w1 Hna') as [Hfp1 Hna1].
  { intros ev' Hin. apply Hevs. by right. }
  split; [by rewrite Hfp1 | exact Hna1].
Qed.

(** X17: through the whole event loop, whatever is reported and
    whatever fails, a descriptor is touched only by the events that
    name it and by the accept that returns it.  In particular the
    listener, which every listener event names, and the epoll instance
    stay open and registered as they are for as long as the loop runs:
    the loop never closes, re-registers or re-flags them. *)
Theorem event_loop_leaves_others listen_fd epoll_fd fd waits :
  forall w,
  never_accepted fd w ->
  (forall ev, In ev (events_of waits) -> data_fd ev = fd -> fd = listen_fd) ->
  footprint fd (world_of (event_loop listen_fd epoll_fd waits w)) =
  footprint fd w.
Proof.
  induction waits as [|o waits IH]; intros w Hna Hevs; [reflexivity|].
  cbn [event_loop]. rewrite world_of_bind.
  destruct o as [evs|e]; cbn [sys_epoll_wait fst snd]; [|reflexivity].
  destruct (_ =? -1); [reflexivity|].
  rewrite world_of_bind.
  destruct (for_each_event_leaves listen_fd epoll_fd fd
              (take (Z.to_nat MAX_EVENTS) evs)
              (log (c_epoll_wait
                      (Z.of_nat (length (take (Z.to_nat MAX_EVENTS) evs)))) w))
    as [Hfp Hna1]; [exact Hna | |].
  { intros ev Hin. apply Hevs. cbn [events_of]. apply in_or_app. left.
    by apply in_take in Hin. }
  destruct (for_each_event _ _ _ _) as [[] w1|s w1]; cbn [world_of] in *;
    [|exact Hfp].
  rewrite IH; [exact Hfp | exact Hna1 |].
  intros ev Hin. apply Hevs. cbn [events_of]. apply in_or_app. by right.
Qed.

Lemma event_loop_leaves_others_witness :
  footprint 3
    (world_of (event_loop 3 4
                 [WaitReady [listener_ready; readable_event 9];
                  WaitReady [hangup_event]; WaitFail EINTR] busy_world)) =
  footprint 3 busy_world.
Proof.
  apply (event_loop_leaves_others 3 4 3
           [WaitReady [listener_ready; readable_event 9];
            WaitReady [hangup_event]; WaitFail EINTR] busy_world).
  - intros c [H|[H|[H|[]]]]; inversion H; lia.
  - intros ev _ _. reflexivity.
Defined.

(** ** The table of pending output is never filled *)

Lemma keeps_pending_accept listen_fd : keeps pending (sys_accept listen_fd).
Proof.
  intros w.
  destruct (sys_accept_result listen_fd w)
    as [(c & k & Hr & Hk)|[(e & k & Hr)|[Hr|Hr]]]; by rewrite Hr.
Qed.

Lemma keeps_pending_getfl fd : keeps pending (sys_fcntl_getfl fd).
Proof.
  intros w. unfold sys_fcntl_getfl.
  destruct (fcntl_script w) as [|[e|] rest]; reflexivity.
Qed.

Lemma keeps_pending_setfl fd flags : keeps pending (sys_fcntl_setfl fd flags).
Proof.
  intros w. unfold sys_fcntl_setfl.
  destruct (fcntl_script w) as [|[e|] rest]; reflexivity.
Qed.

Lemma keeps_pending_setup name r : keeps pending (sys_setup name r).
Proof. intros w; reflexivity. Qed.

Lemma keeps_pending_epoll_wait o : keeps pending (sys_epoll_wait o).
Proof. intros w. by destruct o. Qed.

Lemma keeps_pending_set_open (f : world -> gset Z) :
  keeps pending (modify (fun w => set_open (f w) w)).
Proof. intros w; reflexivity. Qed.

Lemma keeps_pending_exit {A} status : keeps pending (@exit A status).
Proof. intros w; reflexivity. Qed.

#[local] Hint Resolve keeps_pending_accept keeps_pending_getfl
  keeps_pending_setfl keeps_pending_setup keeps_pending_epoll_wait
  keeps_pending_set_open keeps_pending_exit : keeps.

Lemma set_nonblocking_keeps_pending fd : keeps pending (set_nonblocking fd).
Proof. unfold set_nonblocking. repeat keeps_step. Qed.

Lemma accept_loop_keeps_pending listen_fd epoll_fd :
  forall fuel, keeps pending (accept_loop fuel listen_fd epoll_fd).
Proof.
  induction fuel as [|fuel IH]; cbn [accept_loop]; [apply keeps_halt|].
  repeat keeps_step;
    first [apply set_nonblocking_keeps_pending | apply IH].
Qed.

Lemma setup_keeps_pending argc b : keeps pending (setup argc b).
Proof. unfold setup. repeat keeps_step. Qed.

Lemma preserves_keeps {A B} (f : world -> B) (Q : B -> Prop) (m : M A) :
  keeps f m -> preserves (fun w => Q (f w)) m.
Proof. intros H w HQ. by rewrite H. Qed.

Lemma preserves_bind {A B} P (m : M A) (k : A -> M B) :
  preserves P m -> (forall a, preserves P (k a)) -> preserves P (bind m k).
Proof.
  intros Hm Hk w HP. rewrite world_of_bind. specialize (Hm w HP).
  destruct (m w) as [a w1|s w1]; cbn [world_of] in Hm; [by apply Hk | done].
Qed.

(** The writable branch changes the record it finds and frees it; it
    puts no record where there was none. *)
Lemma handle_writable_stores_nothing epoll_fd fd0 fd :
  preserves (fun w => pending w !! fd = None) (handle_writable epoll_fd fd0).
Proof.
  intros w Hnone. unfold handle_writable. rewrite world_of_bind.
  unfold get_pending_data.
  destruct (pending w !! fd0) as [pd|] eqn:Hp; [|exact Hnone].
  assert (Hne : fd0 <> fd) by congruence.
  revert w Hnone Hp.
  match goal with
  | |- forall w, _ -> _ -> _ (world_of (?m w)) !! _ = _ =>
      intros w Hnone _; revert w Hnone;
      change (preserves (fun w => pending w !! fd = None) m)
  end.
  apply preserves_bind;
    [apply (preserves_keeps pending (fun t => t !! fd = None));
     auto with keeps | intros sent].
  assert (Hset : forall g : world -> gmap Z YourBuffer,
            (forall w, pending w !! fd = None -> g w !! fd = None) ->
            preserves (fun w => pending w !! fd = None)
              (modify (fun w => set_pending (g w) w)))
    by (intros g Hg w Hw; cbn; by apply Hg).
  assert (Hkeep : forall A (m : M A),
            keeps pending m -> preserves (fun w => pending w !! fd = None) m)
    by (intros A m; apply (preserves_keeps pending (fun t => t !! fd = None))).
  destruct (0 <? sent).
  - cbv zeta. apply preserves_bind; [|intros _].
    { apply Hset. intros w Hw. by rewrite lookup_insert_ne. }
    destruct (_ =? _); [|apply Hkeep, keeps_ret].
    unfold free_pending_data.
    apply preserves_bind; [|intros _].
    { apply Hset. intros w Hw. by rewrite lookup_delete_ne. }
    apply Hkeep. repeat keeps_step.
    intros w; reflexivity.
  - apply preserves_bind; [apply Hkeep, keeps_gets | intros e].
    destruct (_ && _); [|apply Hkeep, keeps_ret].
    apply preserves_bind; [apply Hkeep; auto with keeps | intros _].
    unfold free_pending_data. apply Hset.
    intros w Hw. by rewrite lookup_delete_ne.
Qed.

Lemma handle_event_stores_nothing listen_fd epoll_fd ev fd :
  preserves (fun w => pending w !! fd = None)
    (handle_event listen_fd epoll_fd ev).
Proof.
  unfold handle_event.
  destruct (_ =? listen_fd).
  { apply (preserves_keeps pending (fun t => t !! fd = None)).
    unfold handle_listener. repeat keeps_step.
    apply accept_loop_keeps_pending. }
  destruct (negb _).
  { apply (preserves_keeps pending (fun t => t !! fd = None)).
    repeat keeps_step. }
  destruct (negb _).
  { apply (preserves_keeps pending (fun t => t !! fd = None)).
    apply read_loop_keeps_pending. }
  destruct (negb _).
  - apply handle_writable_stores_nothing.
  - apply (preserves_keeps pending (fun t => t !! fd = None)), keeps_ret.
Qed.

Lemma for_each_event_stores_nothing listen_fd epoll_fd fd :
  forall evs,
  preserves (fun w => pending w !! fd = None)
    (for_each_event listen_fd epoll_fd evs).
Proof.
  induction evs as [|ev evs IH]; cbn [for_each_event].
  - apply (preserves_keeps pending (fun t => t !! fd = None)), keeps_ret.
  - apply preserves_bind; [apply handle_event_stores_nothing | intros _].
    apply IH.
Qed.

Lemma event_loop_stores_nothing listen_fd epoll_fd fd :
  forall waits,
  preserves (fun w => pending w !! fd = None)
    (event_loop listen_fd epoll_fd waits).
Proof.
  induction waits as [|o waits IH]; cbn [event_loop].
  - apply (preserves_keeps pending (fun t => t !! fd = None)), keeps_halt.
  - apply preserves_bind; [|intros r].
    { apply (preserves_keeps pending (fun t => t !! fd = None)).
      auto with keeps. }
    destruct (_ =? -1).
    { apply (preserves_keeps pending (fun t => t !! fd = None)).
      auto with keeps. }
    apply preserves_bind; [apply for_each_event_stores_nothing | intros _].
    apply IH.
Qed.

(** X18: no run of main ever stores output for the writable branch.
    main calls get_pending_data and free_pending_data and nothing that
    would add a record: a connection that has no record when main
    starts has none at any later point, whatever the network does; the
    table only loses records. *)
Theorem no_record_is_ever_stored argc b waits fd w :
  pending w !! fd = None ->
  pending (world_of (main argc b waits w)) !! fd = None.
Proof.
  revert w.
  change (preserves (fun w => pending w !! fd = None) (main argc b waits)).
  unfold main.
  apply preserves_bind; [|intros fds].
  { apply (preserves_keeps pending (fun t => t !! fd = None)).
    apply setup_keeps_pending. }
  apply preserves_bind; [apply event_loop_stores_nothing | intros _].
  apply (preserves_keeps pending (fun t => t !! fd = None)).
  repeat keeps_step.
Qed.

Lemma no_record_is_ever_stored_witness :
  pending
    (world_of (main 2 boot_ok
                 [WaitReady [listener_ready; readable_event 9];
                  WaitReady [writable_event 9]] busy_world)) !! 9 = None.
Proof.
  apply (no_record_is_ever_stored 2 boot_ok
           [WaitReady [listener_ready; readable_event 9];
            WaitReady [writable_event 9]] 9 busy_world).
  vm_compute; reflexivity.
Defined.

(** ** A first client, from the start of main *)









(** ** Failures while an event is handled *)

(** A write stops the process only by SIGPIPE, which is then the next
    outcome of the script. *)
Lemma stops_in_write_sigpipe fd data : stops_in conn_stop (sys_write fd data).
Proof.
  intros w s w' H. unfold sys_write in H.
  destruct data; [discriminate H|].
  destruct (wr_script w) as [|[r|e|] rest] eqn:E; try discriminate H.
  injection H as <- <-. cbn. rewrite E. by left.
Qed.

Ltac conn_stops := repeat first [apply stops_in_write_sigpipe | stops_step].

Lemma echo_loop_stops_conn fuel epoll_fd fd buffer total_read :
  forall total_sent,
  stops_in conn_stop (echo_loop fuel epoll_fd fd buffer total_read total_sent).
Proof.
  induction fuel as [|fuel IH]; intros total_sent; simpl.
  - destruct (_ <? _); [apply stops_in_halt; intros; exact I | stops].
  - conn_stops.
Qed.

Lemma read_loop_stops_conn fuel epoll_fd fd :
  forall buffer total_read,
  stops_in conn_stop (read_loop fuel epoll_fd fd buffer total_read).
Proof.
  induction fuel as [|fuel IH]; intros buffer total_read.
  - apply stops_in_halt. intros; exact I.
  - rewrite read_loop_S. conn_stops; auto using echo_loop_stops_conn.
Qed.

Lemma fcntl_exit_stops_listener (msg : string) :
  msg = "fcntl F_GETFL"%string \/ msg = "fcntl F_SETFL"%string ->
  stops_in listener_stop (perror msg ;; @exit unit EXIT_FAILURE).
Proof.
  intros Hmsg w s w' H. injection H as <- <-.
  split; [reflexivity|].
  unfold fcntl_failed, log; cbn [trace]. rewrite last_snoc.
  destruct Hmsg as [-> | ->]; [by left | by right].
Qed.

Lemma listener_stop_blocked_in_accept w : listener_stop BlockedInAccept w.
Proof. exact I. Qed.

#[local] Hint Resolve listener_stop_blocked_in_accept : stops.

Lemma set_nonblocking_stops_listener fd :
  stops_in listener_stop (set_nonblocking fd).
Proof.
  unfold set_nonblocking.
  apply stops_in_bind; [auto with stops | intros flags].
  apply stops_in_bind;
    [destruct (_ =? _); [apply fcntl_exit_stops_listener; auto | auto with stops]
    | intros _].
  apply stops_in_bind; [auto with stops | intros r].
  destruct (_ =? _); [apply fcntl_exit_stops_listener; auto | auto with stops].
Qed.

Lemma accept_loop_stops_listener fuel listen_fd epoll_fd :
  stops_in listener_stop (accept_loop fuel listen_fd epoll_fd).
Proof.
  induction fuel as [|fuel IH]; simpl.
  - apply stops_in_halt. intros; exact I.
  - stops; auto using set_nonblocking_stops_listener.
Qed.

Lemma handle_listener_stops_listener listen_fd epoll_fd :
  stops_in listener_stop (handle_listener listen_fd epoll_fd).
Proof. unfold handle_listener. stops. apply accept_loop_stops_listener. Qed.

(** The outcomes that are left for the writes to come are outcomes of
    the script the handler started with. *)
Lemma wr_incl_write l fd data :
  preserves (fun w => incl (wr_script w) l) (sys_write fd data).
Proof.
  intros w H. unfold sys_write. destruct data; [exact H|].
  destruct (wr_script w) as [|[r|e|] rest] eqn:E; cbn; rewrite ?E;
    try exact H; try rewrite E in H; intros x Hx; apply H; by right.
Qed.

Ltac wr_incl_prim :=
  let w := fresh "w" in
  let H := fresh "H" in
  intros w H;
  unfold sys_read, sys_close, sys_epoll_ctl, perror, printf,
    free_pending_data, modify, gets, ret, halt;
  repeat case_match; exact H.

Ltac wr_incl_step :=
  lazymatch goal with
  | |- preserves _ (bind _ _) => apply preserves_bind; [|intros ?]
  | |- preserves _ (if ?c then _ else _) => destruct c
  | |- preserves _ (let _ := _ in _) => cbv zeta
  | |- preserves _ (sys_write _ _) => apply wr_incl_write
  | |- preserves _ (echo_loop _ _ _ _ _ _) => fail
  | |- preserves _ (read_loop _ _ _ _ _) => fail
  | |- preserves _ _ => wr_incl_prim
  end.

Lemma echo_loop_wr_incl l fuel epoll_fd fd buffer total_read :
  forall total_sent,
  preserves (fun w => incl (wr_script w) l)
            (echo_loop fuel epoll_fd fd buffer total_read total_sent).
Proof.
  induction fuel as [|fuel IH]; intros total_sent; simpl;
    repeat first [apply IH | wr_incl_step].
Qed.

Lemma read_loop_wr_incl l fuel epoll_fd fd :
  forall buffer total_read,
  preserves (fun w => incl (wr_script w) l)
            (read_loop fuel epoll_fd fd buffer total_read).
Proof.
  induction fuel as [|fuel IH]; intros buffer total_read.
  - wr_incl_prim.
  - rewrite read_loop_S.
    repeat first [apply IH | apply echo_loop_wr_incl | wr_incl_step].
Qed.

(** How the handling of an event on a connection can stop: by the
    SIGPIPE of a write, which the script the handler started with
    holds, or in the writable branch because the connection has no
    record. *)
Lemma connection_event_stops listen_fd epoll_fd ev w s w' :
  data_fd ev <> listen_fd ->
  handle_event listen_fd epoll_fd ev w = Stop s w' ->
  (s = Killed /\ In WrSigpipe (wr_script w)) \/
  (s = Faulted /\ w' = w /\ writable_branch listen_fd ev = true /\
   pending w !! data_fd ev = None).
Proof.
  intros Hl H0.
  pose proof (handle_event_ends listen_fd epoll_fd ev w) as Hfuel.
  assert (Hfin : forall m : M unit,
            m w = Stop s w' -> stops_in conn_stop m ->
            preserves (fun w0 => incl (wr_script w0) (wr_script w)) m ->
            s = Killed /\ In WrSigpipe (wr_script w)).
  { intros m Hm Hs Hp. specialize (Hs w s w' Hm).
    specialize (Hp w (incl_refl _)). rewrite Hm in Hp. cbn [world_of] in Hp.
    destruct s; cbn in Hs; try done.
    - destruct (Hfuel w' H0).
    - split; [reflexivity | by apply Hp]. }
  pose proof H0 as H.
  unfold handle_event in H. unfold writable_branch.
  rewrite (proj2 (Z.eqb_neq _ _) Hl) in *. cbn [negb andb].
  destruct (Z.land (events ev) (Z.lor EPOLLRDHUP EPOLLHUP) =? 0);
    cbn [negb andb] in *; [|discriminate H].
  destruct (Z.land (events ev) EPOLLIN =? 0); cbn [negb andb] in *.
  - destruct (Z.land (events ev) EPOLLOUT =? 0); cbn [negb] in *;
      [discriminate H|].
    unfold handle_writable in H. unfold bind at 1 in H.
    unfold get_pending_data in H.
    destruct (pending w !! data_fd ev) as [pd|] eqn:Ep.
    + left. cbv beta in H.
      match type of H with
      | ?m w = _ => apply (Hfin m H)
      end.
      * unfold free_pending_data. conn_stops.
      * repeat wr_incl_step.
    + injection H as <- <-. right. by repeat split.
  - left. apply (Hfin _ H).
    + apply read_loop_stops_conn.
    + apply read_loop_wr_incl.
Qed.

(** How the handling of an event on the listener can stop. *)
Lemma listener_event_stops listen_fd epoll_fd ev w s w' :
  data_fd ev = listen_fd ->
  handle_event listen_fd epoll_fd ev w = Stop s w' ->
  (s = Exited EXIT_FAILURE /\ fcntl_failed w') \/ s = BlockedInAccept.
Proof.
  intros Hl H0.
  pose proof (handle_event_ends listen_fd epoll_fd ev w) as Hfuel.
  pose proof H0 as H.
  unfold handle_event in H. rewrite Hl, Z.eqb_refl in H.
  apply handle_listener_stops_listener in H.
  destruct s; cbn in H; try done.
  - left. destruct H as [-> Hf]. by split.
  - destruct (Hfuel w' H0).
  - by right.
Qed.

(** C4, as the code has it.  While an event on a connection is
    handled, whatever a read, a write or an epoll_ctl returns, the
    handler comes back to the event loop: this needs that no write
    raises SIGPIPE and, in the writable branch, that the connection has
    a record.  The handling of an event stops in four ways only: on the
    listener by the exit of set_nonblocking after a failed fcntl, with
    EXIT_FAILURE, or in an accept that does not return; on a connection
    by the SIGPIPE of a write, or in the writable branch for want of a
    record.  Whatever fails, the descriptors that the event does not
    concern stay as they were.  And a run of main ends with
    EXIT_FAILURE after a failed step of the set-up or a failed fcntl,
    or with status 0 after a failed epoll_wait, with no other status. *)
Theorem failures_contained
    listen_fd epoll_fd ev w0 fd argc b waits w :
  (data_fd ev <> listen_fd ->
   ~ In WrSigpipe (wr_script w0) ->
   (writable_branch listen_fd ev = true ->
    exists pd, pending w0 !! data_fd ev = Some pd /\ cursor_in_range pd) ->
   exists w', handle_event listen_fd epoll_fd ev w0 = Ret tt w') /\
  ((exists w', handle_event listen_fd epoll_fd ev w0 = Ret tt w') \/
   (exists w',
      handle_event listen_fd epoll_fd ev w0 = Stop (Exited EXIT_FAILURE) w' /\
      data_fd ev = listen_fd /\ fcntl_failed w') \/
   (exists w',
      handle_event listen_fd epoll_fd ev w0 = Stop BlockedInAccept w' /\
      data_fd ev = listen_fd) \/
   (exists w',
      handle_event listen_fd epoll_fd ev w0 = Stop Killed w' /\
      data_fd ev <> listen_fd /\ In WrSigpipe (wr_script w0)) \/
   (handle_event listen_fd epoll_fd ev w0 = Stop Faulted w0 /\
    writable_branch listen_fd ev = true /\
    pending w0 !! data_fd ev = None)) /\
  (concerns listen_fd ev w0 fd = false ->
   footprint fd (world_of (handle_event listen_fd epoll_fd ev w0)) =
   footprint fd w0) /\
  (forall s,
     exit_status (main argc b waits w) = Some s ->
     (s = EXIT_FAILURE /\
      (setup_failed argc b w \/
       fcntl_failed (world_of (main argc b waits w)))) \/
     (s = EXIT_SUCCESS /\ ~ setup_failed argc b w /\
      exists e, In (WaitFail e) waits)).
Proof.
  split; [|split; [|split]].
  - intros Hl Hcalm Hrec.
    destruct (handle_event listen_fd epoll_fd ev w0) as [[] w'|s w'] eqn:E;
      [by exists w'|].
    exfalso.
    destruct (connection_event_stops _ _ _ _ _ _ Hl E)
      as [[_ Hin]|(_ & _ & Hb & Hp)]; [by apply Hcalm|].
    destruct (Hrec Hb) as (pd & Hpd & _). congruence.
  - destruct (handle_event listen_fd epoll_fd ev w0) as [[] w'|s w'] eqn:E;
      [left; by exists w'|].
    right.
    destruct (Z.eqb_spec (data_fd ev) listen_fd) as [Hl|Hl].
    + destruct (listener_event_stops _ _ _ _ _ _ Hl E) as [[-> Hf]| ->].
      * left. by exists w'.
      * right; left. by exists w'.
    + destruct (connection_event_stops _ _ _ _ _ _ Hl E)
        as [[-> Hin]|(-> & -> & Hb & Hp)].
      * right; right; left. by exists w'.
      * right; right; right. by repeat split.
  - unfold concerns. intros H.
    destruct (Z.eqb_spec (data_fd ev) listen_fd) as [Hl|Hl].
    + apply listener_event_contained; [exact Hl|].
      intros c Hin ->.
      assert (existsb (fun o => match o with
                                | AccConn c => c =? fd
                                | AccFail _ => false
                                end) (acc_script w0) = true) as Hex;
        [|congruence].
      apply existsb_exists. eexists; split; [exact Hin | apply Z.eqb_refl].
    + apply connection_event_contained; [exact Hl|].
      by apply Z.eqb_neq.
  - intros s; apply process_ends_only_by.
Qed.

Lemma failures_contained_witness :
  (exists w',
     handle_event 3 4 (readable_event 5)
       (set_rd_script [RdFail ECONNRESET]
          (connected 6 (connected 5 idle_world))) = Ret tt w') /\
  footprint 6
    (world_of (handle_event 3 4 (readable_event 5)
                 (set_rd_script [RdFail ECONNRESET]
                    (connected 6 (connected 5 idle_world))))) =
  footprint 6 (set_rd_script [RdFail ECONNRESET]
                 (connected 6 (connected 5 idle_world))) /\
  ((0 = EXIT_FAILURE /\
    (setup_failed 2 boot_ok idle_world \/
     fcntl_failed (world_of (main 2 boot_ok [WaitFail EINTR] idle_world)))) \/
   (0 = EXIT_SUCCESS /\ ~ setup_failed 2 boot_ok idle_world /\
    exists e, In (WaitFail e) [WaitFail EINTR])).
Proof.
  destruct (failures_contained 3 4 (readable_event 5)
              (set_rd_script [RdFail ECONNRESET]
                 (connected 6 (connected 5 idle_world))) 6
              2 boot_ok [WaitFail EINTR] idle_world)
    as (Hret & _ & Hown & Hends).
  split; [|split].
  - apply Hret.
    + discriminate.
    + intros [].
    + intros Hb. discriminate Hb.
  - apply Hown. vm_compute; reflexivity.
  - apply Hends. vm_compute; reflexivity.
Defined.
